(** * A ledger with triggers: balancing, rewriting and action execution

    Shallow embedding of the Go package [main] of the accounting tool:
    the data model of [Transaction], [Posting], [Trigger] and [Action],
    the balancer ([AutoBalance], [Balance]), [Action.Execute], the
    trigger rewrite loop and the balance loop of [main], and the [fy]
    helper that the parser hands to scripted matchers.

    Conventions of the embedding:
    - a Go [int] is a [Z] (no operation here comes near the 64-bit range),
      a slice index is a [nat];
    - a Go [string] is a [string] of bytes;
    - [*Posting] is an address into a store of postings ([Heap]); a nil or
      dangling pointer is an address outside the store, and dereferencing
      it panics;
    - [*decimal.Decimal] is an [option]: nothing writes through such a
      pointer, so only its nil-ness matters;
    - a [*Transaction] of the list is a value: the parser allocates one per
      block and the loops reach each only through its slot of the list;
    - a Go function that may panic returns a [Res]; the loops of [main]
      are runs ([M]) that record what they call and print and end in an
      [Outcome]. *)

From Stdlib Require Import ZArith QArith Qpower Lia List Ascii String DecimalString.
From Stdlib Require Import DecimalZ DecimalPos.
From stdpp Require Import base option list strings gmap.

Local Open Scope Z_scope.

(* stdpp keeps [simpl] from unfolding string concatenation; the proofs about
   templates compute with it. *)
#[local] Arguments String.append !_ _ / : simpl nomatch.

(** ** Results of functions that may panic *)

Inductive Res (A : Type) : Type :=
| Ret (a : A)           (* normal return *)
| Panic (msg : string). (* panic(...) or a runtime error *)
Arguments Ret {A} a.
Arguments Panic {A} msg.

#[global] Instance Res_ret : MRet Res := fun A a => Ret a.
#[global] Instance Res_bind : MBind Res := fun A B k r =>
  match r with
  | Ret a => k a
  | Panic msg => Panic msg
  end.

(** The message of Go's runtime on a nil pointer dereference. *)
Definition nilDeref : string :=
  "runtime error: invalid memory address or nil pointer dereference".

(** ** Decimal numbers *)

Module decimal.

(** Modelled from the spec: the decimal type is the external collaborator
    github.com/shopspring/decimal, which is not part of the repository.
    A decimal is [value * 10 ^ exp]; addition rescales both operands to the
    smaller exponent, multiplication multiplies the values and adds the
    exponents, and all operations are exact.  The machine range of the
    exponent is not modelled. *)
Record Decimal : Type := mk { value : Z; exp : Z }.

(** The zero value [decimal.Decimal{}], what [var total decimal.Decimal]
    declares. *)
Definition Zero : Decimal := {| value := 0; exp := 0 |}.

Definition rescale (d : Decimal) (e : Z) : Decimal :=
  if e <=? exp d
  then {| value := value d * 10 ^ (exp d - e); exp := e |}
  else {| value := Z.quot (value d) (10 ^ (e - exp d)); exp := e |}.

Definition Add (d d2 : Decimal) : Decimal :=
  let baseScale := Z.min (exp d) (exp d2) in
  let rd := rescale d baseScale in
  let rd2 := rescale d2 baseScale in
  {| value := value rd + value rd2; exp := exp rd |}.

Definition Neg (d : Decimal) : Decimal :=
  {| value := - value d; exp := exp d |}.

Definition Mul (d d2 : Decimal) : Decimal :=
  {| value := value d * value d2; exp := exp d + exp d2 |}.

Definition IsZero (d : Decimal) : bool := value d =? 0.

(** [NewFromInt]. *)
Definition NewFromInt (n : Z) : Decimal := {| value := n; exp := 0 |}.

(** The rational number a decimal stands for. *)
Definition toQ (d : Decimal) : Q :=
  (inject_Z (value d) * Qpower (inject_Z 10) (exp d))%Q.

End decimal.

(** ** Data model (part_000) *)

Module time.

Inductive Month : Type :=
| January | February | March | April | May | June
| July | August | September | October | November | December.

(** What the code reads of a [time.Time]: its calendar date. *)
Record Time : Type := Date { Year : Z; Month_ : Month; Day : Z }.

End time.

Inductive PostingType : Type :=
| RealPosting
| VirtualPosting
| BalancedVirtualPosting.

#[global] Instance PostingType_eq_dec : EqDecision PostingType.
Proof. solve_decision. Defined.

Module Posting.

Record t : Type := mk {
  Type_ : PostingType;
  Account : string;
  Amount : option decimal.Decimal;
  Comment : string;
  GeneratedBy : Z;
  From : Z
}.

Definition setAmount (a : option decimal.Decimal) (p : t) : t :=
  mk (Type_ p) (Account p) a (Comment p) (GeneratedBy p) (From p).

Definition setGeneratedBy (g : Z) (p : t) : t :=
  mk (Type_ p) (Account p) (Amount p) (Comment p) g (From p).

Definition setFrom (f : Z) (p : t) : t :=
  mk (Type_ p) (Account p) (Amount p) (Comment p) (GeneratedBy p) f.

End Posting.

Abbreviation Posting := Posting.t.

(** The store of postings: [*Posting] is an index into it.  [&Posting{...}]
    allocates at the end. *)
Abbreviation loc := nat.
Abbreviation Heap := (list Posting).

Definition deref (h : Heap) (p : loc) : Res Posting :=
  match h !! p with
  | Some v => Ret v
  | None => Panic nilDeref
  end.

Definition new (h : Heap) (v : Posting) : Heap * loc := (h ++ [v], length h).

(** An [error] value: [errors.Errorf(format, args...)]. *)
Inductive error : Type :=
| Errorf (format : string) (args : list decimal.Decimal).

Module Transaction.

Record t : Type := mk {
  Date : time.Time;
  Description : string;
  Postings : list loc
}.

Definition setPostings (ps : list loc) (tx : t) : t :=
  mk (Date tx) (Description tx) ps.

(** The loop of [AutoBalance]: [inl] is the early [return] of the error,
    [inr] the values of [toFill] and [total] when the range ends. *)
Fixpoint AutoBalance_loop (h : Heap) (ps : list loc) (toFill : option loc)
    (total : decimal.Decimal) : Res (error + option loc * decimal.Decimal) :=
  match ps with
  | [] => Ret (inr (toFill, total))
  | e :: ps' =>
      v ← deref h e;
      match Posting.Amount v with
      | None =>
          match toFill with
          | Some _ =>
              Ret (inl (Errorf "AutoBalance: a transaction may only have one elided value" []))
          | None => AutoBalance_loop h ps' (Some e) total
          end
      | Some amount => AutoBalance_loop h ps' toFill (decimal.Add total amount)
      end
  end.

Definition AutoBalance (h : Heap) (tx : t) : Res (Heap * option error) :=
  r ← AutoBalance_loop h (Postings tx) None decimal.Zero;
  match r with
  | inl err => Ret (h, Some err)
  | inr (Some toFill, total) =>
      let total := decimal.Neg total in
      Ret (alter (Posting.setAmount (Some total)) toFill h, None)
  | inr (None, _) => Ret (h, None)
  end.

Fixpoint Balance_loop (h : Heap) (ps : list loc) (total : decimal.Decimal)
    : Res decimal.Decimal :=
  match ps with
  | [] => Ret total
  | e :: ps' =>
      v ← deref h e;
      if decide (Posting.Type_ v = VirtualPosting) then Balance_loop h ps' total
      else
        match Posting.Amount v with
        | None => Panic nilDeref
        | Some amount => Balance_loop h ps' (decimal.Add total amount)
        end
  end.

Definition Balance (h : Heap) (tx : t) : Res (option error) :=
  total ← Balance_loop h (Postings tx) decimal.Zero;
  if negb (decimal.IsZero total)
  then Ret (Some (Errorf "Balance: transactions must balance to zero; instead got %s" [total]))
  else Ret None.

End Transaction.

Abbreviation Transaction := Transaction.t.

(** ** Strings and the placeholder pattern *)

Module strings.

Fixpoint contains (cutset : string) (c : ascii) : bool :=
  match cutset with
  | EmptyString => false
  | String d cutset' => if decide (c = d) then true else contains cutset' c
  end.

Fixpoint TrimLeft (s cutset : string) : string :=
  match s with
  | EmptyString => EmptyString
  | String c s' => if contains cutset c then TrimLeft s' cutset else s
  end.

Fixpoint TrimRight (s cutset : string) : string :=
  match s with
  | EmptyString => EmptyString
  | String c s' =>
      match TrimRight s' cutset with
      | EmptyString => if contains cutset c then EmptyString else String c EmptyString
      | r => String c r
      end
  end.

(** [strings.Trim]: all leading and trailing bytes of the cutset removed. *)
Definition Trim (s cutset : string) : string :=
  TrimRight (TrimLeft s cutset) cutset.

End strings.

(** [fmt.Sprintf("%d", n)]. *)
Definition itoa (n : Z) : string := NilZero.string_of_int (Z.to_int n).

Module regexp.

(** A compiled [*regexp.Regexp], given by the methods the code calls on it
    (the regular expression engine is Go's standard library). *)
Record Regexp : Type := mk {
  String_ : string;
  MatchString : string -> bool;
  FindStringSubmatch : string -> list string
}.

(** The class [[A-Za-z0-9_]]. *)
Definition isWord (c : ascii) : bool :=
  let n := nat_of_ascii c in
  ((65 <=? n) && (n <=? 90) || (97 <=? n) && (n <=? 122)
   || (48 <=? n) && (n <=? 57) || (n =? 95))%nat.

(** The longest run of [[A-Za-z0-9_]] that [s] starts with, and what
    follows it. *)
Fixpoint spanWord (s : string) : string * string :=
  match s with
  | EmptyString => (EmptyString, EmptyString)
  | String c s' =>
      if isWord c then let (w, r) := spanWord s' in (String c w, r)
      else (EmptyString, s)
  end.

(** The match of the pattern [\$\{[A-Za-z0-9_]+\}] that starts at the first
    byte of [s], if there is one.  The repetition is greedy and the byte
    after it must be the closing brace, which is not in the class, so the
    run is the longest one. *)
Definition matchPlaceholder (s : string) : option string :=
  match s with
  | String "$" (String "{" r) =>
      match spanWord r with
      | (String c w, String "}" _) => Some ("${" +:+ String c w +:+ "}")
      | _ => None
      end
  | _ => None
  end.

(** [regexp.MustCompile(`\$\{[A-Za-z0-9_]+\}`).ReplaceAllStringFunc(src, repl)]:
    scanning from the left, every match is replaced by [repl] of it and the
    scan goes on after the match; [skip] counts the bytes of the current
    match still to pass over. *)
Fixpoint replacePlaceholders (repl : string -> string) (skip : nat) (src : string)
    : string :=
  match src with
  | EmptyString => EmptyString
  | String c src' =>
      match skip with
      | S k => replacePlaceholders repl k src'
      | O =>
          match matchPlaceholder src with
          | Some m => repl m +:+ replacePlaceholders repl (String.length m - 1) src'
          | None => String c (replacePlaceholders repl 0 src')
          end
      end
  end.

Definition ReplaceAllStringFunc (src : string) (repl : string -> string) : string :=
  replacePlaceholders repl 0 src.

End regexp.

(** ** Actions (part_000) *)

Module Action.

Record t : Type := mk {
  Type_ : PostingType;
  Account : string;
  Amount : decimal.Decimal;
  Comment : string
}.

(** [m[s]] on a Go map: the zero value when the key is absent. *)
Definition index (m : gmap string string) (s : string) : string :=
  default EmptyString (m !! s).

(** The closure handed to [ReplaceAllStringFunc]. *)
Definition replace (v : Posting) (m : gmap string string) (s : string) : string :=
  let s := strings.Trim s "${}" in
  if decide (s = "account") then Posting.Account v else index m s.

(** [p.Amount.Mul] is a value-receiver call through [p.Amount]: it
    dereferences [p] and then [p.Amount]. *)
Definition Execute (a : t) (h : Heap) (p : loc) (m : gmap string string)
    : Res (Heap * loc) :=
  v ← deref h p;
  match Posting.Amount v with
  | None => Panic nilDeref
  | Some amount =>
      let n := decimal.Mul amount (Amount a) in
      Ret (new h
        (Posting.mk (Type_ a)
           (regexp.ReplaceAllStringFunc (Account a) (replace v m))
           (Some n) EmptyString 0 0))
  end.

End Action.

Abbreviation Action := Action.t.

(** ** Matchers and triggers (part_000) *)

Module otto.

(** What [JSMatcher.Match] tells apart in the value a script returns: an
    object is given by its keys, each with the outcome of [obj.Get(key)]
    followed by [val.String()]; [Other] carries [res.Class()]. *)
Inductive Value : Type :=
| Null
| Undefined
| Boolean (b : bool)
| Object (props : list (string * Res string))
| Other (class : string).

End otto.

(** The interface [Matcher]. *)
Class Matcher (T : Type) : Type := {
  String_ : T -> string;
  Match : T -> Heap -> Transaction -> loc -> Res (bool * gmap string string)
}.

Module RegexpMatcher.

Record t : Type := mk { r : regexp.Regexp }.

(** [for i, v := range l { e[fmt.Sprintf("%d", i)] = v }], from index [i]. *)
Fixpoint submatches (i : nat) (l : list string) (e : gmap string string)
    : gmap string string :=
  match l with
  | [] => e
  | v :: l' => submatches (S i) l' (<[itoa (Z.of_nat i) := v]> e)
  end.

Definition Match (m : t) (h : Heap) (tx : Transaction) (p : loc)
    : Res (bool * gmap string string) :=
  v ← deref h p;
  let e := submatches 0 (regexp.FindStringSubmatch (r m) (Posting.Account v)) ∅ in
  Ret (regexp.MatchString (r m) (Posting.Account v), e).

End RegexpMatcher.

#[global] Instance RegexpMatcher_Matcher : Matcher RegexpMatcher.t := {|
  String_ m := "/" +:+ regexp.String_ (RegexpMatcher.r m) +:+ "/";
  Match := RegexpMatcher.Match
|}.

Module JSMatcher.

(** [fn] is the compiled script: [m.fn.Call(otto.UndefinedValue(), tx, p)]
    evaluates it on the transaction and the posting as they are in the store
    (a [Panic] stands for the error the call returns); scripts are taken not
    to assign to what they are given. *)
Record t : Type := mk {
  js : string;
  fn : Heap -> Transaction -> loc -> Res otto.Value
}.

Fixpoint object (props : list (string * Res string)) (e : gmap string string)
    : Res (gmap string string) :=
  match props with
  | [] => Ret e
  | (key, val) :: props' => s ← val; object props' (<[key := s]> e)
  end.

Definition Match (m : t) (h : Heap) (tx : Transaction) (p : loc)
    : Res (bool * gmap string string) :=
  res ← fn m h tx p;
  match res with
  | otto.Null | otto.Undefined => Ret (false, ∅)
  | otto.Boolean b => Ret (b, ∅)
  | otto.Object props => e ← object props ∅; Ret (true, e)
  | otto.Other class => Panic ("can't interpret return type " +:+ class)
  end.

End JSMatcher.

#[global] Instance JSMatcher_Matcher : Matcher JSMatcher.t := {|
  String_ m := "JS " +:+ JSMatcher.js m;
  Match := JSMatcher.Match
|}.

(** A value of interface type: a matcher of some implementing type. *)
Inductive AnyMatcher : Type :=
| IsMatcher {T : Type} `{Matcher T} (m : T).

Definition AnyMatcher_Match (e : AnyMatcher) : Heap -> Transaction -> loc ->
    Res (bool * gmap string string) :=
  match e with IsMatcher m => Match m end.

Module Trigger.

Record t : Type := mk {
  ID : Z;
  Matchers : list AnyMatcher;
  Actions : list Action
}.

(** The loop of [Trigger.Match]; the keys of a later matcher overwrite
    those of the matchers before it. *)
Fixpoint Match_loop (es : list AnyMatcher) (h : Heap) (tx : Transaction) (p : loc)
    (m : gmap string string) : Res (bool * gmap string string) :=
  match es with
  | [] => Ret (true, m)
  | e :: es' =>
      '(b, mm) ← AnyMatcher_Match e h tx p;
      if negb b then Ret (false, ∅)
      else Match_loop es' h tx p (mm ∪ m)
  end.

Definition Match (t0 : t) (h : Heap) (tx : Transaction) (p : loc)
    : Res (bool * gmap string string) :=
  Match_loop (Matchers t0) h tx p ∅.

End Trigger.

Abbreviation Trigger := Trigger.t.

(** ** The [fy] helper of scripted matchers (parser.go) *)

(** Go's [%] truncates towards zero: [Z.rem]. *)
Definition fy (t : time.Time) : string :=
  match time.Month_ t with
  | time.January | time.February | time.March
  | time.April | time.May | time.June =>
      "FY" +:+ itoa (Z.rem (time.Year t - 1) 100) +:+ itoa (Z.rem (time.Year t) 100)
  | _ =>
      "FY" +:+ itoa (Z.rem (time.Year t) 100) +:+ itoa (Z.rem (time.Year t + 1) 100)
  end.

(** ** Runs of [main]: what is called and printed, then the outcome *)

(** The calls the rewrite loop makes, each with the trigger, the posting
    pointer and what it points to at the call, and the lines [main] prints
    ([tx.String()] is left as the transaction and the store it is read in). *)
Inductive Event : Type :=
| CallMatch (tr : Trigger) (p : loc) (v : Posting)
| CallExecute (tr : Trigger) (a : Action) (p : loc) (v : option Posting)
| PrintError (err : error) (tx : Transaction) (h : Heap)
| PrintCycle (tx : Transaction) (h : Heap).

(** How a part of [main] ends. *)
Inductive Outcome (A : Type) : Type :=
| Done (a : A)            (* it goes on with [a] *)
| Panicked (msg : string) (* a panic ends the process *)
| Exited (code : Z)       (* os.Exit(code) *)
| OutOfFuel.              (* the bound of the model ran out: not a Go outcome *)
Arguments Done {A} a.
Arguments Panicked {A} msg.
Arguments Exited {A} code.
Arguments OutOfFuel {A}.

Record M (A : Type) : Type := Run {
  trace : list Event;
  result : Outcome A
}.
Arguments Run {A} trace result.
Arguments trace {A} m.
Arguments result {A} m.

#[global] Instance M_ret : MRet M := fun A a => Run [] (Done a).
#[global] Instance M_bind : MBind M := fun A B k m =>
  match result m with
  | Done a => let m' := k a in Run (trace m ++ trace m') (result m')
  | Panicked msg => Run (trace m) (Panicked msg)
  | Exited code => Run (trace m) (Exited code)
  | OutOfFuel => Run (trace m) OutOfFuel
  end.

Definition emit (e : Event) : M unit := Run [e] (Done tt).

Definition lift {A : Type} (r : Res A) : M A :=
  match r with
  | Ret a => Run [] (Done a)
  | Panic msg => Run [] (Panicked msg)
  end.

(** ** The rewrite loop of [main] (part_001 lines 51-79, part_002 lines 64-94) *)

(** The two versions of [main] differ in the ceiling and in what happens
    above it. *)
Inductive CycleAction : Type :=
| PanicOnCycle   (* panic(errors.Errorf("posting cycle detected")) *)
| PrintAndExit.  (* print the transaction, then os.Exit(1) *)

Record Version : Type := mkVersion {
  ceiling : nat;
  cycleAction : CycleAction
}.

Definition part_001 : Version := mkVersion 1000 PanicOnCycle.
Definition part_002 : Version := mkVersion 100 PrintAndExit.

(** The body of [if len(tx.Postings) > ceiling { ... }]: it does not return. *)
Definition onCycle {A : Type} (ver : Version) (h : Heap) (tx : Transaction) : M A :=
  match cycleAction ver with
  | PanicOnCycle => Run [] (Panicked "posting cycle detected")
  | PrintAndExit => Run [PrintCycle tx h] (Exited 1)
  end.

(** [for _, a := range tr.Actions { ... }] for the posting [p] at index [i]
    with the captures [m]. *)
Fixpoint main_actions (tr : Trigger) (i : nat) (p : loc) (m : gmap string string)
    (actions : list Action) (h : Heap) (tx : Transaction) : M (Heap * Transaction) :=
  match actions with
  | [] => mret (h, tx)
  | a :: actions' =>
      _ ← emit (CallExecute tr a p (h !! p));
      '(h1, pp) ← lift (Action.Execute a h p m);
      let h2 := alter (Posting.setGeneratedBy (Trigger.ID tr)) pp h1 in
      let h3 := alter (Posting.setFrom (Z.of_nat i + 1)) pp h2 in
      let tx1 := Transaction.setPostings (Transaction.Postings tx ++ [pp]) tx in
      main_actions tr i p m actions' h3 tx1
  end.

(** [for _, tr := range triggers { ... }] for the posting [p] at index [i]. *)
Fixpoint main_triggers (triggers : list Trigger) (i : nat) (p : loc)
    (h : Heap) (tx : Transaction) : M (Heap * Transaction) :=
  match triggers with
  | [] => mret (h, tx)
  | tr :: triggers' =>
      v ← lift (deref h p);
      if Posting.GeneratedBy v =? Trigger.ID tr then main_triggers triggers' i p h tx
      else
        _ ← emit (CallMatch tr p v);
        '(b, m) ← lift (Trigger.Match tr h tx p);
        if negb b then main_triggers triggers' i p h tx
        else
          '(h1, tx1) ← main_actions tr i p m (Trigger.Actions tr) h tx;
          main_triggers triggers' i p h1 tx1
  end.

(** [for i := 0; i < len(tx.Postings); i++ { ... }] from index [i].  The
    loop reads the length again at every iteration, so it is not structural:
    [fuel] bounds the number of iterations, and more than [ceiling] of them
    are never needed ([main_postings_fuel]). *)
Fixpoint main_postings (fuel : nat) (ver : Version) (triggers : list Trigger)
    (i : nat) (h : Heap) (tx : Transaction) : M (Heap * Transaction) :=
  match fuel with
  | O => Run [] OutOfFuel
  | S fuel' =>
      match Transaction.Postings tx !! i with
      | None => mret (h, tx)
      | Some p =>
          '(h1, tx1) ← main_triggers triggers i p h tx;
          if (ceiling ver <? length (Transaction.Postings tx1))%nat
          then onCycle ver h1 tx1
          else main_postings fuel' ver triggers (S i) h1 tx1
      end
  end.

(** [for _, tx := range transactions { ... }]: every transaction is
    rewritten in place. *)
Fixpoint main_rewrite (fuel : nat) (ver : Version) (triggers : list Trigger)
    (transactions : list Transaction) (h : Heap) : M (Heap * list Transaction) :=
  match transactions with
  | [] => mret (h, [])
  | tx :: transactions' =>
      '(h1, tx1) ← main_postings fuel ver triggers 0 h tx;
      '(h2, transactions1) ← main_rewrite fuel ver triggers transactions' h1;
      mret (h2, tx1 :: transactions1)
  end.

(** ** The balance loop of [main] (part_001 lines 81-101, part_002 lines 96-116) *)

Definition main_report (err : option error) (tx : Transaction) (h : Heap)
    (failed : bool) : M bool :=
  match err with
  | Some e => _ ← emit (PrintError e tx h); mret true
  | None => mret failed
  end.

Fixpoint main_balance_loop (transactions : list Transaction) (h : Heap)
    (failed : bool) : M (Heap * bool) :=
  match transactions with
  | [] => mret (h, failed)
  | tx :: transactions' =>
      '(h1, err) ← lift (Transaction.AutoBalance h tx);
      failed1 ← main_report err tx h1 failed;
      err2 ← lift (Transaction.Balance h1 tx);
      failed2 ← main_report err2 tx h1 failed1;
      main_balance_loop transactions' h1 failed2
  end.

Definition main_balance (transactions : list Transaction) (h : Heap) : M Heap :=
  '(h1, failed) ← main_balance_loop transactions h false;
  if (failed : bool) then Run [] (Exited 1) else mret h1.

(** [main] from the parsed (and sorted) ledger to the start of the report:
    the rewrite loop unless [noTriggers], then the balance loop unless
    [noBalance]. *)
Definition main_process (fuel : nat) (ver : Version) (noTriggers noBalance : bool)
    (triggers : list Trigger) (transactions : list Transaction) (h : Heap)
    : M (Heap * list Transaction) :=
  '(h1, transactions1) ←
    (if noTriggers then mret (h, transactions)
     else main_rewrite fuel ver triggers transactions h);
  h2 ← (if noBalance then mret h1 else main_balance transactions1 h1);
  mret (h2, transactions1).

(** ** Vocabulary of the statements *)

(** The pointers [ps] are valid in [h] and point to the postings [vs]. *)
Definition pointsTo (h : Heap) (ps : list loc) (vs : list Posting) : Prop :=
  Forall2 (fun l v => h !! l = Some v) ps vs.

(** The amounts that are set, in order. *)
Definition amounts (vs : list Posting) : list decimal.Decimal :=
  omap Posting.Amount vs.

(** The postings that the balance check counts. *)
Definition notVirtual (vs : list Posting) : list Posting :=
  filter (fun v => Posting.Type_ v <> VirtualPosting) vs.

(** The sum as the code accumulates it, and as a rational number. *)
Definition sum (ds : list decimal.Decimal) : decimal.Decimal :=
  foldl decimal.Add decimal.Zero ds.

Definition sumQ (ds : list decimal.Decimal) : Q :=
  foldr (fun d q => (decimal.toQ d + q)%Q) 0%Q ds.

Definition errElided : error :=
  Errorf "AutoBalance: a transaction may only have one elided value" [].

(** The scenario of the paycheck: [Assets:Bank  $1000] and an elided
    [Income:Salary]. *)
Definition paycheck_heap : Heap :=
  [ Posting.mk RealPosting "Assets:Bank" (Some (decimal.NewFromInt 1000)) EmptyString 0 0;
    Posting.mk RealPosting "Income:Salary" None EmptyString 0 0 ].

Definition paycheck : Transaction :=
  Transaction.mk (time.Date 2024 time.January 1) "Paycheck" [0%nat; 1%nat].

(** A transaction with two elided postings. *)
Definition twoElided_heap : Heap :=
  [ Posting.mk RealPosting "Expenses:Food" None EmptyString 0 0;
    Posting.mk RealPosting "Assets:Cash" (Some (decimal.NewFromInt (-20))) EmptyString 0 0;
    Posting.mk RealPosting "Expenses:Drink" None EmptyString 0 0 ].

Definition twoElided : Transaction :=
  Transaction.mk (time.Date 2024 time.January 2) "Lunch" [0%nat; 1%nat; 2%nat].

(** A transaction that does not balance: 30 - 20 with a virtual 5. *)
Definition unbalanced_heap : Heap :=
  [ Posting.mk RealPosting "Expenses:Food" (Some (decimal.NewFromInt 30)) EmptyString 0 0;
    Posting.mk BalancedVirtualPosting "Assets:Cash" (Some (decimal.NewFromInt (-20))) EmptyString 0 0;
    Posting.mk VirtualPosting "Budget:Food" (Some (decimal.NewFromInt 5)) EmptyString 0 0 ].

Definition unbalanced : Transaction :=
  Transaction.mk (time.Date 2024 time.January 3) "Dinner" [0%nat; 1%nat; 2%nat].

Definition errBalance (total : decimal.Decimal) : error :=
  Errorf "Balance: transactions must balance to zero; instead got %s" [total].

(** An identifier of a placeholder: a run of [[A-Za-z0-9_]] that is not
    empty. *)
Fixpoint allWord (s : string) : bool :=
  match s with
  | EmptyString => true
  | String c s' => regexp.isWord c && allWord s'
  end.

Definition identifier (s : string) : Prop :=
  s <> EmptyString /\ allWord s = true.

(** What a placeholder stands for: [account] for the source posting's
    account, any other name for its capture, empty when there is none. *)
Definition resolve (account : string) (m : gmap string string) (id : string) : string :=
  if decide (id = "account") then account
  else match m !! id with Some s => s | None => EmptyString end.

(** The spec's words: the template with every [${identifier}] replaced by
    what [f] gives for the identifier, all other bytes kept. *)
Inductive Substituted (f : string -> string) : string -> string -> Prop :=
| Substituted_end : Substituted f EmptyString EmptyString
| Substituted_placeholder (id rest out : string) :
    identifier id ->
    Substituted f rest out ->
    Substituted f ("${" +:+ id +:+ "}" +:+ rest) (f id +:+ out)
| Substituted_byte (c : ascii) (rest out : string) :
    (forall id rest', identifier id -> String c rest <> "${" +:+ id +:+ "}" +:+ rest') ->
    Substituted f rest out ->
    Substituted f (String c rest) (String c out).

(** The scenario of the capture: template [${1}:tax], captures [{"1": "rent"}]. *)
Definition rentTax : Action :=
  Action.mk VirtualPosting "${1}:tax" (decimal.mk 1 (-1)) "ten percent".

Definition rent_heap : Heap :=
  [ Posting.mk RealPosting "rent:house" (Some (decimal.NewFromInt 500)) "may" 0 0 ].

Definition rentCaptures : gmap string string := {[ "1" := "rent" ]}.

(** The spec's words for the label of [fy]: the months of the first half
    of the year, and a year component rendered as exactly two digits. *)
Definition firstHalf (m : time.Month) : bool :=
  match m with
  | time.January | time.February | time.March
  | time.April | time.May | time.June => true
  | _ => false
  end.

Definition digit (d : Z) : ascii := ascii_of_nat (48 + Z.to_nat d).

Definition twoDigits (year : Z) : string :=
  String (digit ((year mod 100) / 10)) (String (digit ((year mod 100) mod 10)) EmptyString).

Definition fyTwoDigits (t : time.Time) : string :=
  if firstHalf (time.Month_ t)
  then "FY" +:+ twoDigits (time.Year t - 1) +:+ twoDigits (time.Year t)
  else "FY" +:+ twoDigits (time.Year t) +:+ twoDigits (time.Year t + 1).

(** The year components that [fy] prints. *)
Definition fyYears (t : time.Time) : Z * Z :=
  if firstHalf (time.Month_ t)
  then (Z.rem (time.Year t - 1) 100, Z.rem (time.Year t) 100)
  else (Z.rem (time.Year t) 100, Z.rem (time.Year t + 1) 100).

(** Self-exclusion, as a property of a call of the rewrite loop: the
    posting handed to the trigger was not generated by that trigger. *)
Definition selfExcluded (e : Event) : Prop :=
  match e with
  | CallMatch tr _ v => Posting.GeneratedBy v <> Trigger.ID tr
  | CallExecute tr _ _ ov =>
      exists v, ov = Some v /\ Posting.GeneratedBy v <> Trigger.ID tr
  | PrintError _ _ _ | PrintCycle _ _ => True
  end.

(** The compiled pattern [^s$] for a literal [s], and the pattern [.*]. *)
Definition regexpLiteral (s : string) : regexp.Regexp :=
  regexp.mk ("^" +:+ s +:+ "$")
    (fun x => bool_decide (x = s))
    (fun x => if decide (x = s) then [x] else []).

Definition regexpAny : regexp.Regexp :=
  regexp.mk ".*" (fun _ => true) (fun x => [x]).

Definition regexpTrigger (id : Z) (r : regexp.Regexp) (actions : list Action) : Trigger :=
  Trigger.mk id [IsMatcher (RegexpMatcher.mk r)] actions.

(** A trigger whose pattern matches the account its own action generates. *)
Definition selfTrigger : Trigger :=
  regexpTrigger 1 regexpAny
    [Action.mk VirtualPosting "${account}:tax" (decimal.mk 1 (-1)) EmptyString].

(** Two triggers, each generating the account that the other matches. *)
Definition mutualA : Trigger :=
  regexpTrigger 1 (regexpLiteral "Income:Salary")
    [Action.mk VirtualPosting "Tax:Withheld" (decimal.mk (-3) (-1)) EmptyString].

Definition mutualB : Trigger :=
  regexpTrigger 2 (regexpLiteral "Tax:Withheld")
    [Action.mk VirtualPosting "Income:Salary" (decimal.NewFromInt 1) EmptyString].

Definition salary_heap : Heap :=
  [ Posting.mk RealPosting "Assets:Bank" (Some (decimal.NewFromInt 1000)) EmptyString 0 0;
    Posting.mk RealPosting "Income:Salary" (Some (decimal.NewFromInt (-1000))) EmptyString 0 0 ].

Definition salary : Transaction :=
  Transaction.mk (time.Date 2024 time.January 1) "Paycheck" [0%nat; 1%nat].

(** The outcome of the cycle guard in a version of [main]. *)
Definition cycleOutcome {A : Type} (ver : Version) : Outcome A :=
  match cycleAction ver with
  | PanicOnCycle => Panicked "posting cycle detected"
  | PrintAndExit => Exited 1
  end.

(** The precondition of the rewrite loop: every posting of the store has
    its amount, the transactions point into the store, and the matchers
    return on the postings of the store. *)
Definition amountsSet (h : Heap) : Prop :=
  Forall (fun v => is_Some (Posting.Amount v)) h.

Definition validPointers (h : Heap) (tx : Transaction) : Prop :=
  Forall (fun l => (l < length h)%nat) (Transaction.Postings tx).

Definition matchersTotal (triggers : list Trigger) : Prop :=
  forall tr, tr ∈ triggers ->
  forall h tx p, is_Some (h !! p) -> exists r, Trigger.Match tr h tx p = Ret r.

(** A ledger of two transactions: the lunch with two elided postings, then
    the dinner that does not balance. *)
Definition ledger_heap : Heap := twoElided_heap ++ unbalanced_heap.

Definition dinner : Transaction :=
  Transaction.mk (time.Date 2024 time.January 3) "Dinner" [3%nat; 4%nat; 5%nat].

(** A ledger of two transactions that both fail the balance check only. *)
Definition residual_heap : Heap := unbalanced_heap ++ unbalanced_heap.

(** The postings that the balance check leaves out. *)
Definition virtualOnes (vs : list Posting) : list Posting :=
  filter (fun v => Posting.Type_ v = VirtualPosting) vs.

(** Adding up the amounts of postings given as values, with the panic at
    the first one that is unset. *)
Fixpoint addAmounts (vs : list Posting) (total : decimal.Decimal)
    : Res decimal.Decimal :=
  match vs with
  | [] => Ret total
  | v :: vs' =>
      match Posting.Amount v with
      | None => Panic nilDeref
      | Some amount => addAmounts vs' (decimal.Add total amount)
      end
  end.

(** A transaction whose elided posting is virtual. *)
Definition budget_heap : Heap :=
  [ Posting.mk RealPosting "Expenses:Food" (Some (decimal.NewFromInt 30)) EmptyString 0 0;
    Posting.mk RealPosting "Assets:Cash" (Some (decimal.NewFromInt (-30))) EmptyString 0 0;
    Posting.mk VirtualPosting "Budget:Food" None EmptyString 0 0 ].

Definition budget : Transaction :=
  Transaction.mk (time.Date 2024 time.January 4) "Groceries" [0%nat; 1%nat; 2%nat].

(** A posting as the rewrite loop leaves it for the trigger set: its
    [GeneratedBy] is the [ID] of one of the triggers, its amount is set, and
    its [From] is the 1-based index of a posting among the first [n]. *)
Definition generated (triggers : list Trigger) (n : nat) (v : Posting) : Prop :=
  (exists tr, tr ∈ triggers /\ Posting.GeneratedBy v = Trigger.ID tr) /\
  is_Some (Posting.Amount v) /\
  (1 <= Posting.From v <= Z.of_nat n)%Z.

(** What rewriting may do to the store and to a transaction: the postings of
    the store stay as they are, [k] new ones are allocated after them, and
    their pointers, in order of allocation, are appended to the
    transaction. *)
Definition rewrites (triggers : list Trigger) (h : Heap) (tx : Transaction)
    (h' : Heap) (tx' : Transaction) : Prop :=
  Transaction.Date tx' = Transaction.Date tx /\
  Transaction.Description tx' = Transaction.Description tx /\
  (forall l v, h !! l = Some v -> h' !! l = Some v) /\
  exists k : nat,
    length h' = (length h + k)%nat /\
    Transaction.Postings tx' = Transaction.Postings tx ++ seq (length h) k /\
    forall l, (length h <= l < length h')%nat ->
      exists v, h' !! l = Some v /\
        generated triggers (length (Transaction.Postings tx')) v.

(** The same seen from the store at the end of the whole loop. *)
Definition extends (triggers : list Trigger) (h h' : Heap)
    (tx tx' : Transaction) : Prop :=
  Transaction.Date tx' = Transaction.Date tx /\
  Transaction.Description tx' = Transaction.Description tx /\
  exists added : list loc,
    Transaction.Postings tx' = Transaction.Postings tx ++ added /\
    NoDup added /\
    Forall (fun l => (length h <= l)%nat /\
              exists v, h' !! l = Some v /\
                generated triggers (length (Transaction.Postings tx')) v) added.

(** A transaction of 101 postings. *)
Definition long_heap : Heap :=
  replicate 101 (Posting.mk RealPosting "Assets:Bank" (Some decimal.Zero) EmptyString 0 0).

Definition long : Transaction :=
  Transaction.mk (time.Date 2024 time.January 5) "Long" (seq 0 101).

(** The year in which the fiscal year of a date starts: the year before for
    the months up to June. *)
Definition fiscalYear (t : time.Time) : Z :=
  if firstHalf (time.Month_ t) then time.Year t - 1 else time.Year t.

(** The capture that a list of capture maps, taken in order, leaves for a
    key: that of the last map that has the key. *)
Definition lastCapture (k : string) (cs : list (gmap string string)) : option string :=
  foldl (fun acc c => match c !! k with Some x => Some x | None => acc end) None cs.

(** Scripted matchers whose script returns the same value for every
    posting, and two triggers made of them. *)
Definition jsConst (js : string) (v : otto.Value) : AnyMatcher :=
  IsMatcher (JSMatcher.mk js (fun _ _ _ => Ret v)).

Definition captureTwice : Trigger :=
  Trigger.mk 1
    [ jsConst "({k: 1, a: 0})" (otto.Object [("k", Ret "1"); ("a", Ret "0")]);
      jsConst "({k: 2})" (otto.Object [("k", Ret "2")]) ]
    [].

Definition guarded : Trigger :=
  Trigger.mk 2
    [ jsConst "true" (otto.Boolean true);
      jsConst "false" (otto.Boolean false);
      jsConst "fy" (otto.Other "Function") ]
    [].

(** Whether the byte [c] occurs in [s]. *)
Fixpoint hasByte (c : ascii) (s : string) : bool :=
  match s with
  | EmptyString => false
  | String d s' => if decide (d = c) then true else hasByte c s'
  end.

(** An action with one placeholder between literal text, and a posting whose
    account looks like a placeholder. *)
Definition wrapAccount : Action :=
  Action.mk VirtualPosting "Tax:${account}:Due" (decimal.mk 2 (-1)) EmptyString.

Definition odd_heap : Heap :=
  [ Posting.mk RealPosting "${1}" (Some (decimal.NewFromInt 10)) EmptyString 0 0 ].

(** ** More of package [strings], for the parser *)

Module stringsMore.

Fixpoint HasPrefix (s prefix : string) : bool :=
  match prefix, s with
  | EmptyString, _ => true
  | String c prefix', String d s' => if decide (d = c) then HasPrefix s' prefix' else false
  | String _ _, EmptyString => false
  end.

(** [suffix] ends [s] when it is [s] or ends what follows the first byte. *)
Fixpoint HasSuffix (s suffix : string) : bool :=
  if decide (s = suffix) then true
  else match s with
       | EmptyString => false
       | String _ s' => HasSuffix s' suffix
       end.

(** [strings.SplitN(s, sep, 2)] for a separator of one byte: [s] alone
    when it has no separator, else what is before and after the first. *)
Fixpoint SplitN2 (s : string) (sep : ascii) : list string :=
  match s with
  | EmptyString => [EmptyString]
  | String c s' =>
      if decide (c = sep) then [EmptyString; s']
      else match SplitN2 s' sep with
           | [a0] => [String c a0]
           | a0 :: rest => String c a0 :: rest
           | [] => []
           end
  end.

(** [strings.Split(s, sep)] for a separator of one byte: the fields
    between the separators, one more than there are separators. *)
Fixpoint Split (s : string) (sep : ascii) : list string :=
  match s with
  | EmptyString => [EmptyString]
  | String c s' =>
      if decide (c = sep) then EmptyString :: Split s' sep
      else match Split s' sep with
           | a0 :: rest => String c a0 :: rest
           | [] => []
           end
  end.

(** [strings.Replace(s, old, "", 1)] for an [old] of one byte: the first
    occurrence removed. *)
Fixpoint removeFirst (s : string) (old : ascii) : string :=
  match s with
  | EmptyString => EmptyString
  | String c s' => if decide (c = old) then s' else String c (removeFirst s' old)
  end.

(** White space as [unicode.IsSpace] has it, in UTF-8: the six of ASCII,
    U+0085 and U+00A0 (two bytes), U+1680, U+2000 to U+200A, U+2028, U+2029,
    U+202F, U+205F and U+3000 (three bytes). *)
Definition asciiSpace (c : ascii) : bool :=
  let n := nat_of_ascii c in ((9 <=? n) && (n <=? 13) || (n =? 32))%nat.

Definition space2 (c0 c1 : ascii) : bool :=
  let n0 := nat_of_ascii c0 in
  let n1 := nat_of_ascii c1 in
  ((n0 =? 194) && ((n1 =? 133) || (n1 =? 160)))%nat.

Definition space3 (c0 c1 c2 : ascii) : bool :=
  let n0 := nat_of_ascii c0 in
  let n1 := nat_of_ascii c1 in
  let n2 := nat_of_ascii c2 in
  ((n0 =? 225) && (n1 =? 154) && (n2 =? 128)
   || (n0 =? 226) && (n1 =? 128)
      && ((128 <=? n2) && (n2 <=? 138) || (n2 =? 168) || (n2 =? 169) || (n2 =? 175))
   || (n0 =? 226) && (n1 =? 129) && (n2 =? 159)
   || (n0 =? 227) && (n1 =? 128) && (n2 =? 128))%nat.

(** Leading white space removed.  [rev] tells the order of the bytes of a
    rune: the function is also run on the reversed string, where a rune has
    its last byte first. *)
Fixpoint dropSpaces (rev : bool) (s : string) : string :=
  match s with
  | EmptyString => EmptyString
  | String c0 s1 =>
      if asciiSpace c0 then dropSpaces rev s1
      else
        match s1 with
        | EmptyString => s
        | String c1 s2 =>
            if (if rev then space2 c1 c0 else space2 c0 c1) then dropSpaces rev s2
            else
              match s2 with
              | EmptyString => s
              | String c2 s3 =>
                  if (if rev then space3 c2 c1 c0 else space3 c0 c1 c2)
                  then dropSpaces rev s3
                  else s
              end
        end
  end.

(** [strings.TrimSpace]: the white space runes at both ends removed. *)
Definition TrimSpace (s : string) : string :=
  String.rev (dropSpaces true (String.rev (dropSpaces false s))).

End stringsMore.

(** ** The parser of posting and action lines (parser.go) *)

(** [PostingType.Format] (part_000). *)
Definition PostingType_Format (p : PostingType) (name : string) : string :=
  match p with
  | VirtualPosting => "(" +:+ name +:+ ")"
  | BalancedVirtualPosting => "[" +:+ name +:+ "]"
  | RealPosting => name
  end.

Module parser.

Definition tab : ascii := "009"%char.

(** The errors of the parser: [errors.Errorf(msg)], [errors.Errorf(format,
    arg)], [errors.Wrap(cause, msg)], and an error that a library returned. *)
Inductive err : Type :=
| Errorf (msg : string)
| ErrorfQ (format arg : string)
| Wrap (cause : err) (msg : string)
| Library (msg : string).

Definition getComment (s : string) : string * string :=
  match stringsMore.SplitN2 s ";" with
  | [a0; a1] => (stringsMore.TrimSpace a0, stringsMore.TrimSpace a1)
  | _ => (s, EmptyString)
  end.

Definition parsePostingTypeAndAccount (s : string) : PostingType * string :=
  if stringsMore.HasPrefix s "(" && stringsMore.HasSuffix s ")"
  then (VirtualPosting, strings.Trim s "()")
  else if stringsMore.HasPrefix s "[" && stringsMore.HasSuffix s "]"
  then (BalancedVirtualPosting, strings.Trim s "[]")
  else (RealPosting, s).

Section WithDecimal.

(** [decimal.NewFromString] of the decimal library: the number, or the
    message of its error. *)
Variable NewFromString : string -> string + decimal.Decimal.

Definition parseAction (l : string) : err + Action :=
  let (l, c) := getComment l in
  let a := stringsMore.Split l tab in
  let (typ, account) := parsePostingTypeAndAccount (default EmptyString (a !! 0%nat)) in
  match a with
  | [_] => inr (Action.mk typ account decimal.Zero c)
  | [_; a1] =>
      match NewFromString (stringsMore.removeFirst a1 "$") with
      | inl e => inl (Wrap (Library e) "parseAction")
      | inr n => inr (Action.mk typ account n c)
      end
  | _ => inl (Errorf "parseAction: wrong number of segments")
  end.

Definition parsePosting (l : string) : err + Posting :=
  let (l, c) := getComment l in
  let a := stringsMore.Split l tab in
  let (typ, account) := parsePostingTypeAndAccount (default EmptyString (a !! 0%nat)) in
  match a with
  | [_] => inr (Posting.mk typ account None c 0 0)
  | [_; a1] =>
      match NewFromString (stringsMore.removeFirst a1 "$") with
      | inl e => inl (Wrap (Library e) "parseAction")
      | inr n => inr (Posting.mk typ account (Some n) c 0 0)
      end
  | _ => inl (Errorf "parseAction: wrong number of segments")
  end.

End WithDecimal.

End parser.

(** An account name that [Format] can wrap and the parser unwrap again:
    for the wrapped kinds it neither starts nor ends with one of the
    brackets, for a real posting it is not itself wrapped. *)
Definition unwrapped (typ : PostingType) (name : string) : Prop :=
  match typ with
  | VirtualPosting => strings.Trim name "()" = name
  | BalancedVirtualPosting => strings.Trim name "[]" = name
  | RealPosting =>
      stringsMore.HasPrefix name "(" && stringsMore.HasSuffix name ")" = false /\
      stringsMore.HasPrefix name "[" && stringsMore.HasSuffix name "]" = false
  end.

(** [Posting.String] (part_000); [DecString] is [Decimal.String] of the
    decimal library. *)
Definition Posting_String (DecString : decimal.Decimal -> string) (p : Posting)
    : string :=
  let s := PostingType_Format (Posting.Type_ p) (Posting.Account p) in
  let s := match Posting.Amount p with
           | Some d => s +:+ String parser.tab EmptyString +:+ DecString d
           | None => s
           end in
  let s := if decide (Posting.Comment p = EmptyString) then s
           else s +:+ "; " +:+ Posting.Comment p in
  if (Posting.GeneratedBy p =? 0)%Z then s
  else s +:+ "; GeneratedBy=" +:+ itoa (Posting.GeneratedBy p)
         +:+ " From=" +:+ itoa (Posting.From p).

(** What [Posting.String] writes before the comment: the account token
    and, after a tab, the amount. *)
Definition Posting_text (DecString : decimal.Decimal -> string) (p : Posting)
    : string :=
  match Posting.Amount p with
  | Some d =>
      PostingType_Format (Posting.Type_ p) (Posting.Account p)
      +:+ String parser.tab EmptyString +:+ DecString d
  | None => PostingType_Format (Posting.Type_ p) (Posting.Account p)
  end.

(** The decimal library on integers written in decimal, for the examples:
    what [NewFromString] and [String] do with them. *)
Definition NewFromString_int (s : string) : string + decimal.Decimal :=
  match NilZero.int_of_string s with
  | Some i => inr (decimal.NewFromInt (Z.of_int i))
  | None => inl ("can't convert " +:+ s +:+ " to decimal")
  end.

Definition String_int (d : decimal.Decimal) : string := itoa (decimal.value d).

(** ** The parser of blocks and files (parser.go) *)

Module bufio.

Definition newline : ascii := "010"%char.

(** A [*bufio.Reader] over the ledger file is what is left to read. *)
Definition Peek1 (rd : string) : option ascii :=
  match rd with
  | EmptyString => None
  | String c _ => Some c
  end.

(** [rd.ReadString('\n')]: the bytes up to and including the first
    newline, and what is left; without a newline, everything that was left
    and [true] for the error [io.EOF]. *)
Fixpoint ReadString (rd : string) : string * string * bool :=
  match rd with
  | EmptyString => (EmptyString, EmptyString, true)
  | String c rd' =>
      if decide (c = newline) then (String c EmptyString, rd', false)
      else let '(l, rest, eof) := ReadString rd' in (String c l, rest, eof)
  end.

End bufio.

Module parserFile.

(** How a function of the parser ends: with a value, an error, a panic, or
    (in the model only) out of fuel. *)
Inductive PRes (A : Type) : Type :=
| POk (a : A)
| PErr (e : parser.err)
| PPanic (msg : string)
| PFuel.
Arguments POk {A} a.
Arguments PErr {A} e.
Arguments PPanic {A} msg.
Arguments PFuel {A}.

(** [strings.TrimPrefix]. *)
Fixpoint TrimPrefix (s prefix : string) : string :=
  match prefix, s with
  | EmptyString, _ => s
  | String c prefix', String d s' =>
      if decide (d = c)
      then (if stringsMore.HasPrefix s' prefix' then TrimPrefix s' prefix' else s)
      else s
  | String _ _, EmptyString => s
  end.

(** The transaction of parser.go: the fields of part_000 and the two that
    the later version of the struct adds. *)
Record ParsedTransaction : Type := mkParsed {
  ID : string;
  SecondaryDate : option time.Time;
  tx : Transaction
}.

(** The message of the panic of [m[i]] on a slice of [n] elements. *)
Definition indexOutOfRange (i n : nat) : string :=
  "runtime error: index out of range [" +:+ itoa (Z.of_nat i)
    +:+ "] with length " +:+ itoa (Z.of_nat n).

Definition setID (id : Z) (t : Trigger) : Trigger :=
  Trigger.mk id (Trigger.Matchers t) (Trigger.Actions t).

Section WithLibraries.

(** The libraries: [decimal.NewFromString]; [time.Parse("2006-01-02", _)];
    [FindStringSubmatch] of the compiled header pattern (an optional
    identifier between angle brackets, then a description of one character
    at least); [regexp.Compile]; and [vm.Eval] of the wrapped script in a
    machine where [fy] is set. *)
Variable NewFromString : string -> string + decimal.Decimal.
Variable timeParse : string -> string + time.Time.
Variable headerSubmatch : string -> list string.
Variable Compile : string -> string + regexp.Regexp.
Variable Eval : string -> string + (Heap -> Transaction -> loc -> Res otto.Value).

(** The loop over the posting lines of [parseTransaction]. *)
Fixpoint parseTransaction_loop (fuel : nat) (rd : string) (h : Heap) (ps : list loc)
    : PRes (string * Heap * list loc) :=
  match fuel with
  | O => PFuel
  | S fuel' =>
      let '(l, rd', eof) := bufio.ReadString rd in
      if (eof : bool) then POk (rd', h, ps)
      else
        let l := stringsMore.TrimSpace l in
        if bool_decide (l = EmptyString) || stringsMore.HasPrefix l "#"
        then POk (rd', h, ps)
        else
          match parser.parsePosting NewFromString l with
          | inl e => PErr (parser.Wrap e "parseTransaction")
          | inr p =>
              let (h', pp) := new h p in
              parseTransaction_loop fuel' rd' h' (ps ++ [pp])
          end
  end.

Definition parseTransaction (rd : string) (h : Heap)
    : PRes (string * Heap * ParsedTransaction) :=
  let '(hdr, rd1, eof) := bufio.ReadString rd in
  if (eof : bool) then PErr (parser.Wrap (parser.Library "EOF") "parseTransaction")
  else
    let hdr := stringsMore.TrimSpace hdr in
    let a := stringsMore.SplitN2 hdr " " in
    let a0 := default EmptyString (a !! 0%nat) in
    let a1 := default EmptyString (a !! 1%nat) in
    let m := headerSubmatch a1 in
    match m !! 1%nat with
    | None => PPanic (indexOutOfRange 1 (length m))
    | Some id =>
        match m !! 2%nat with
        | None => PPanic (indexOutOfRange 2 (length m))
        | Some description =>
            let bits := stringsMore.SplitN2 a0 "=" in
            match timeParse (default EmptyString (bits !! 0%nat)) with
            | inl e => PErr (parser.Wrap (parser.Library e) "parseTransaction")
            | inr date =>
                let secondary :=
                  match bits !! 1%nat with
                  | None => inr None
                  | Some b1 =>
                      match timeParse b1 with
                      | inl e => inl e
                      | inr t => inr (Some t)
                      end
                  end in
                match secondary with
                | inl e => PErr (parser.Wrap (parser.Library e) "parseTransaction")
                | inr secondaryDate =>
                    match parseTransaction_loop (S (String.length rd1)) rd1 h [] with
                    | POk (rd2, h', ps) =>
                        POk (rd2, h',
                             mkParsed id secondaryDate (Transaction.mk date description ps))
                    | PErr e => PErr e
                    | PPanic msg => PPanic msg
                    | PFuel => PFuel
                    end
                end
            end
        end
    end.

(** The header loop of [parseTrigger]. *)
Fixpoint parseTrigger_header (fuel : nat) (rd : string) (matchers : list AnyMatcher)
    : PRes (string * list AnyMatcher) :=
  match fuel with
  | O => PFuel
  | S fuel' =>
      match bufio.Peek1 rd with
      | None => POk (rd, matchers)
      | Some b =>
          if decide (b = "#"%char) then
            let '(_, rd', _) := bufio.ReadString rd in
            parseTrigger_header fuel' rd' matchers
          else if decide (b = "="%char) then
            let '(l, rd', eof) := bufio.ReadString rd in
            if (eof : bool) then PErr (parser.Errorf "parseTrigger")
            else
              let l := stringsMore.TrimSpace (TrimPrefix l "=") in
              if stringsMore.HasPrefix l "/" && stringsMore.HasSuffix l "/" then
                match Compile (strings.Trim l "/") with
                | inl e => PErr (parser.Wrap (parser.Library e) "parseTrigger")
                | inr re =>
                    parseTrigger_header fuel' rd'
                      (matchers ++ [IsMatcher (RegexpMatcher.mk re)])
                end
              else if stringsMore.HasPrefix l "JS" then
                let js := stringsMore.TrimSpace (TrimPrefix l "JS") in
                match Eval ("(function(tx, p) { return (" +:+ js +:+ ") })") with
                | inl e => PErr (parser.Wrap (parser.Library e) "parseTrigger")
                | inr fn =>
                    parseTrigger_header fuel' rd'
                      (matchers ++ [IsMatcher (JSMatcher.mk js fn)])
                end
              else PErr (parser.ErrorfQ "parseTrigger: couldn't parse header %q" l)
          else POk (rd, matchers)
      end
  end.

(** The body loop of [parseTrigger]. *)
Fixpoint parseTrigger_body (fuel : nat) (rd : string) (actions : list Action)
    : PRes (string * list Action) :=
  match fuel with
  | O => PFuel
  | S fuel' =>
      let '(l, rd', eof) := bufio.ReadString rd in
      if (eof : bool) then POk (rd', actions)
      else
        let l := stringsMore.TrimSpace l in
        if bool_decide (l = EmptyString) || stringsMore.HasPrefix l "#"
        then POk (rd', actions)
        else
          match parser.parseAction NewFromString l with
          | inl e => PErr (parser.Wrap e "parseTrigger")
          | inr a => parseTrigger_body fuel' rd' (actions ++ [a])
          end
  end.

Definition parseTrigger (rd : string) : PRes (string * Trigger) :=
  match parseTrigger_header (S (String.length rd)) rd [] with
  | POk (rd1, matchers) =>
      match parseTrigger_body (S (String.length rd1)) rd1 [] with
      | POk (rd2, actions) => POk (rd2, Trigger.mk 0 matchers actions)
      | PErr e => PErr e
      | PPanic msg => PPanic msg
      | PFuel => PFuel
      end
  | PErr e => PErr e
  | PPanic msg => PPanic msg
  | PFuel => PFuel
  end.

(** The loop of [parseFile]. *)
Fixpoint parseFile_loop (fuel : nat) (rd : string) (h : Heap)
    (triggers : list Trigger) (transactions : list ParsedTransaction)
    : PRes (Heap * list Trigger * list ParsedTransaction) :=
  match fuel with
  | O => PFuel
  | S fuel' =>
      match rd with
      | EmptyString => POk (h, triggers, transactions)
      | String b rd' =>
          if decide (b = bufio.newline) then
            parseFile_loop fuel' rd' h triggers transactions
          else if decide (b = "#"%char) then
            let '(_, rd1, _) := bufio.ReadString rd in
            parseFile_loop fuel' rd1 h triggers transactions
          else if decide (b = "="%char) then
            match parseTrigger rd with
            | POk (rd1, t) =>
                let t := setID (Z.of_nat (length triggers) + 1) t in
                parseFile_loop fuel' rd1 h (triggers ++ [t]) transactions
            | PErr e => PErr (parser.Wrap e "parseFile")
            | PPanic msg => PPanic msg
            | PFuel => PFuel
            end
          else
            match parseTransaction rd h with
            | POk (rd1, h', t) =>
                parseFile_loop fuel' rd1 h' triggers (transactions ++ [t])
            | PErr e => PErr (parser.Wrap e "parseFile")
            | PPanic msg => PPanic msg
            | PFuel => PFuel
            end
      end
  end.

Definition parseFile (rd : string) (h : Heap)
    : PRes (Heap * list Trigger * list ParsedTransaction) :=
  parseFile_loop (S (String.length rd)) rd h [] [].

End WithLibraries.

End parserFile.

(** ** Vocabulary for the parser of files *)

(** The trigger at place [i] (from 0) carries the number [i + 1]. *)
Definition numbered (triggers : list Trigger) : Prop :=
  forall i t, triggers !! i = Some t -> Trigger.ID t = (Z.of_nat i + 1)%Z.

(** The store [h'] is [h] and new postings after it, [ps] points to the new
    ones, each once and in order, and none of them has a provenance. *)
Definition fresh (h h' : Heap) (ps : list loc) : Prop :=
  exists vs, h' = h ++ vs /\ ps = seq (length h) (length vs) /\
    Forall (fun v => Posting.GeneratedBy v = 0%Z /\ Posting.From v = 0%Z) vs.

(** The pointers of all the transactions, one transaction after the other. *)
Definition postingsOf (transactions : list parserFile.ParsedTransaction) : list loc :=
  concat ((fun t => Transaction.Postings (parserFile.tx t)) <$> transactions).

(** What a block parser leaves to read is no longer than ([consumes]), or
    shorter than ([progresses]), what it was given, and it has not run out of
    fuel. *)
Definition consumes {A : Type} (rest : A -> string) (rd : string)
    (r : parserFile.PRes A) : Prop :=
  match r with
  | parserFile.POk a => (String.length (rest a) <= String.length rd)%nat
  | parserFile.PFuel => False
  | _ => True
  end.

Definition progresses {A : Type} (rest : A -> string) (rd : string)
    (r : parserFile.PRes A) : Prop :=
  match r with
  | parserFile.POk a => (String.length (rest a) < String.length rd)%nat
  | parserFile.PFuel => False
  | _ => True
  end.

(** The result of a block parser without what it leaves to read. *)
Definition parsed {A B : Type} (r : parserFile.PRes (string * A * B))
    : parserFile.PRes (A * B) :=
  match r with
  | parserFile.POk (_, a, b) => parserFile.POk (a, b)
  | parserFile.PErr e => parserFile.PErr e
  | parserFile.PPanic msg => parserFile.PPanic msg
  | parserFile.PFuel => parserFile.PFuel
  end.

(** The libraries on the texts of the examples: the date 2020-01-15, a
    description that does not start with an angle bracket, a pattern without
    operators, and a machine that accepts no script. *)
Definition timeParse_example (s : string) : string + time.Time :=
  if decide (s = "2020-01-15") then inr (time.Date 2020 time.January 15)
  else inl ("parsing time " +:+ s).

Definition headerSubmatch_plain (s : string) : list string :=
  if decide (s = EmptyString) then [] else [s; EmptyString; s].

Definition Compile_literal (s : string) : string + regexp.Regexp :=
  inr (regexpLiteral s).

Definition Eval_none (s : string)
    : string + (Heap -> Transaction -> loc -> Res otto.Value) :=
  inl "SyntaxError".

(** A ledger file: a comment, a trigger with one action, and a transaction
    of two postings. *)
Definition ledger_text : string :=
  "# ledger" +:+ String bufio.newline (
  "= /Rent/" +:+ String bufio.newline (
  String parser.tab ("Tax" +:+ String parser.tab ("5" +:+ String bufio.newline (
  String bufio.newline (
  "2020-01-15 Lunch" +:+ String bufio.newline (
  String parser.tab ("Food" +:+ String parser.tab ("10" +:+ String bufio.newline (
  String parser.tab ("Cash" +:+ String bufio.newline EmptyString))))))))))).

(** ** Accounts (part_000) and the balance report (part_001, part_002) *)

Module Account.

Record t : Type := mk {
  Name : string;
  Balance : decimal.Decimal
}.

(** [func (a *Account) Add(d decimal.Decimal)], on the account pointed to. *)
Definition Add (d : decimal.Decimal) (a : t) : t :=
  mk (Name a) (decimal.Add (Balance a) d).

End Account.

Module Accounts.

(** The accounts live in a store of their own; the map [m] of an
    [Accounts] holds pointers into it. The mutex is not modelled: the
    program has one goroutine. *)
Abbreviation Store := (list Account.t).

Abbreviation t := (gmap string loc).

Definition NewAccounts : t := ∅.

(** [Accounts.Get]: the account of that name, made with the balance
    [decimal.NewFromFloat(0)] when the map does not have it. *)
Definition Get (s : Store) (a : t) (name : string) : Store * t * loc :=
  match a !! name with
  | Some l => (s, a, l)
  | None => (s ++ [Account.mk name decimal.Zero], <[name := length s]> a, length s)
  end.

(** [Accounts.Balance]; [es] is the order in which [range] visits the
    entries of the map, which Go leaves open. *)
Fixpoint Balance_loop (s : Store) (es : list loc) (d : decimal.Decimal)
    : Res decimal.Decimal :=
  match es with
  | [] => Ret d
  | e :: es' =>
      match s !! e with
      | None => Panic nilDeref
      | Some acc => Balance_loop s es' (decimal.Add d (Account.Balance acc))
      end
  end.

Definition Balance (s : Store) (es : list (string * loc)) : Res decimal.Decimal :=
  Balance_loop s es.*2 decimal.Zero.

End Accounts.

(** The loop over the postings of one transaction in the mode [balance]. *)
Fixpoint main_balance_mode_postings (showZero onlyReal : bool) (h : Heap)
    (ps : list loc) (s : Accounts.Store) (a : Accounts.t)
    : Res (Accounts.Store * Accounts.t) :=
  match ps with
  | [] => Ret (s, a)
  | p :: ps' =>
      v ← deref h p;
      match Posting.Amount v with
      | None => Panic nilDeref
      | Some d =>
          if decimal.IsZero d && negb showZero
          then main_balance_mode_postings showZero onlyReal h ps' s a
          else if bool_decide (Posting.Type_ v <> RealPosting) && onlyReal
          then main_balance_mode_postings showZero onlyReal h ps' s a
          else
            let '(s1, a1, l) := Accounts.Get s a (Posting.Account v) in
            let s2 := alter (Account.Add d) l s1 in
            main_balance_mode_postings showZero onlyReal h ps' s2 a1
      end
  end.

(** The loop over the transactions in the mode [balance], from
    [NewAccounts()]. *)
Fixpoint main_balance_mode_loop (showZero onlyReal : bool) (h : Heap)
    (transactions : list Transaction) (s : Accounts.Store) (a : Accounts.t)
    : Res (Accounts.Store * Accounts.t) :=
  match transactions with
  | [] => Ret (s, a)
  | tx :: transactions' =>
      '(s', a') ← main_balance_mode_postings showZero onlyReal h
                    (Transaction.Postings tx) s a;
      main_balance_mode_loop showZero onlyReal h transactions' s' a'
  end.

Definition main_balance_mode (showZero onlyReal : bool) (h : Heap)
    (transactions : list Transaction) : Res (Accounts.Store * Accounts.t) :=
  main_balance_mode_loop showZero onlyReal h transactions [] Accounts.NewAccounts.

(** ** Vocabulary for the balance report *)

(** The balance of the account at [l], and of the account called [name],
    as rational numbers; an account that does not exist counts for 0. *)
Definition accountQ (s : Accounts.Store) (l : loc) : Q :=
  match s !! l with
  | Some acc => decimal.toQ (Account.Balance acc)
  | None => 0
  end.

Definition balanceOf (s : Accounts.Store) (a : Accounts.t) (name : string) : Q :=
  match a !! name with
  | Some l => accountQ s l
  | None => 0
  end.

(** The postings that the reports count: all of them, or the real ones
    under [only_real]. *)
Definition counted (onlyReal : bool) (vs : list Posting) : list Posting :=
  filter (fun v => Posting.Type_ v = RealPosting \/ onlyReal = false) vs.

Definition postedTo (name : string) (vs : list Posting) : list Posting :=
  filter (fun v => Posting.Account v = name) vs.

(** Every entry of the map points to an account of its name. *)
Definition namedAccounts (s : Accounts.Store) (a : Accounts.t) : Prop :=
  forall name l, a !! name = Some l ->
  exists acc, s !! l = Some acc /\ Account.Name acc = name.

Definition balancesQ (s : Accounts.Store) (ls : list loc) : Q :=
  foldr (fun l q => (accountQ s l + q)%Q) 0%Q ls.

(** * Properties *)

Local Open Scope Q_scope.

Lemma ten_nonzero : ~ inject_Z 10 == 0.
Proof. intros H. discriminate H. Qed.

Lemma pow10_nonzero (e : Z) : ~ Qpower (inject_Z 10) e == 0.
Proof.
  apply Qpower_not_0. apply ten_nonzero.
Qed.

Lemma rescale_toQ (d : decimal.Decimal) (e : Z) :
  (e <= decimal.exp d)%Z ->
  decimal.toQ (decimal.rescale d e) == decimal.toQ d.
Proof.
  intros Hle. unfold decimal.rescale, decimal.toQ.
  destruct (Z.leb_spec e (decimal.exp d)) as [_|Hlt]; [|lia]. simpl.
  rewrite inject_Z_mult.
  rewrite Zpower_Qpower by lia.
  replace (decimal.exp d) with ((decimal.exp d - e) + e)%Z at 2 by lia.
  rewrite (Qpower_plus (inject_Z 10) (decimal.exp d - e) e ten_nonzero).
  ring.
Qed.

Lemma rescale_exp (d : decimal.Decimal) (e : Z) :
  decimal.exp (decimal.rescale d e) = e.
Proof. unfold decimal.rescale. destruct (e <=? decimal.exp d)%Z; reflexivity. Qed.

Lemma Add_toQ (d d2 : decimal.Decimal) :
  decimal.toQ (decimal.Add d d2) == decimal.toQ d + decimal.toQ d2.
Proof.
  unfold decimal.Add.
  set (m := Z.min (decimal.exp d) (decimal.exp d2)).
  rewrite <- (rescale_toQ d m) by lia.
  rewrite <- (rescale_toQ d2 m) by lia.
  unfold decimal.toQ at 1. simpl.
  unfold decimal.toQ. rewrite !rescale_exp.
  rewrite inject_Z_plus. ring.
Qed.

Lemma Neg_toQ (d : decimal.Decimal) :
  decimal.toQ (decimal.Neg d) == - decimal.toQ d.
Proof.
  unfold decimal.toQ, decimal.Neg. simpl.
  rewrite inject_Z_opp. ring.
Qed.

Lemma Mul_toQ (d d2 : decimal.Decimal) :
  decimal.toQ (decimal.Mul d d2) == decimal.toQ d * decimal.toQ d2.
Proof.
  unfold decimal.toQ, decimal.Mul. simpl.
  rewrite inject_Z_mult.
  rewrite (Qpower_plus (inject_Z 10) _ _ ten_nonzero).
  ring.
Qed.

Lemma IsZero_toQ (d : decimal.Decimal) :
  decimal.IsZero d = true <-> decimal.toQ d == 0.
Proof.
  unfold decimal.IsZero, decimal.toQ. split.
  - intros H. apply Z.eqb_eq in H. rewrite H. ring.
  - intros H. apply Qmult_integral in H. destruct H as [H|H].
    + apply Z.eqb_eq. unfold Qeq in H. simpl in H. lia.
    + exfalso. exact (pow10_nonzero _ H).
Qed.

Lemma Zero_toQ : decimal.toQ decimal.Zero == 0.
Proof. reflexivity. Qed.

(** ** Sums *)

Lemma foldl_Add_toQ (ds : list decimal.Decimal) (d : decimal.Decimal) :
  decimal.toQ (foldl decimal.Add d ds) == decimal.toQ d + sumQ ds.
Proof.
  revert d. induction ds as [|x ds IH]; intros d; simpl.
  - ring.
  - rewrite IH, Add_toQ. ring.
Qed.

Lemma sum_toQ (ds : list decimal.Decimal) :
  decimal.toQ (sum ds) == sumQ ds.
Proof. unfold sum. rewrite foldl_Add_toQ, Zero_toQ. ring. Qed.

(** ** The store *)

Lemma deref_Some (h : Heap) (l : loc) (v : Posting) :
  h !! l = Some v -> deref h l = Ret v.
Proof. unfold deref. intros ->. reflexivity. Qed.

(** ** [AutoBalance] *)

(** With every amount set the loop ends with [toFill] as it was. *)
Lemma AutoBalance_loop_set (h : Heap) (ps : list loc) (vs : list Posting)
    (toFill : option loc) (total : decimal.Decimal) :
  pointsTo h ps vs ->
  Forall (fun v => is_Some (Posting.Amount v)) vs ->
  Transaction.AutoBalance_loop h ps toFill total
  = Ret (inr (toFill, foldl decimal.Add total (amounts vs))).
Proof.
  intros Hpt. revert total.
  induction Hpt as [|l v ps vs Hl Hpt IH]; intros total Hset; simpl.
  - reflexivity.
  - apply Forall_cons in Hset as [[d Hd] Hset].
    rewrite (deref_Some _ _ _ Hl). simpl. rewrite Hd.
    rewrite IH by assumption. reflexivity.
Qed.

(** With [toFill] already set, one more unset amount is the error. *)
Lemma AutoBalance_loop_second (h : Heap) (ps : list loc) (vs : list Posting)
    (l0 : loc) (total : decimal.Decimal) :
  pointsTo h ps vs ->
  Exists (fun v => Posting.Amount v = None) vs ->
  Transaction.AutoBalance_loop h ps (Some l0) total = Ret (inl errElided).
Proof.
  intros Hpt. revert total.
  induction Hpt as [|l v ps vs Hl Hpt IH]; intros total Hex; simpl.
  - inversion Hex.
  - rewrite (deref_Some _ _ _ Hl). simpl.
    destruct (Posting.Amount v) as [d|] eqn:Hd.
    + apply IH. apply Exists_cons in Hex as [Hex|Hex]; [congruence|assumption].
    + reflexivity.
Qed.

(** The unset amount at index [i], all others set: the loop ends with
    [toFill] at that pointer and the total of the others. *)
Lemma AutoBalance_loop_one (h : Heap) (ps : list loc) (vs : list Posting)
    (i : nat) (v : Posting) (total : decimal.Decimal) :
  pointsTo h ps vs ->
  vs !! i = Some v ->
  Posting.Amount v = None ->
  (forall j w, j <> i -> vs !! j = Some w -> is_Some (Posting.Amount w)) ->
  exists l, ps !! i = Some l /\ h !! l = Some v /\
    Transaction.AutoBalance_loop h ps None total
    = Ret (inr (Some l, foldl decimal.Add total (amounts (delete i vs)))).
Proof.
  intros Hpt. revert i total.
  induction Hpt as [|l w ps vs Hl Hpt IH]; intros i total Hi Hv Hothers.
  - discriminate Hi.
  - destruct i as [|i]; simpl in Hi.
    + injection Hi as ->. exists l. split; [reflexivity|]. split; [assumption|].
      simpl. rewrite (deref_Some _ _ _ Hl). simpl. rewrite Hv.
      apply AutoBalance_loop_set; [assumption|].
      apply Forall_lookup. intros j x Hj. apply (Hothers (S j) x); [lia|exact Hj].
    + destruct (Hothers 0%nat w) as [d Hd]; [lia|reflexivity|].
      destruct (IH i (decimal.Add total d) Hi Hv) as (l' & Hl' & Hhl' & Hloop).
      { intros j x Hj Hx. apply (Hothers (S j) x); [lia|exact Hx]. }
      exists l'. split; [exact Hl'|]. split; [exact Hhl'|].
      simpl. rewrite (deref_Some _ _ _ Hl). simpl. rewrite Hd.
      rewrite Hloop. reflexivity.
Qed.

(** Two unset amounts: the loop returns the error at the second. *)
Lemma AutoBalance_loop_two (h : Heap) (ps : list loc) (vs : list Posting)
    (i j : nat) (v w : Posting) (total : decimal.Decimal) :
  pointsTo h ps vs ->
  (i < j)%nat ->
  vs !! i = Some v -> Posting.Amount v = None ->
  vs !! j = Some w -> Posting.Amount w = None ->
  Transaction.AutoBalance_loop h ps None total = Ret (inl errElided).
Proof.
  intros Hpt. revert i j total.
  induction Hpt as [|l x ps vs Hl Hpt IH]; intros i j total Hij Hi Hv Hj Hw.
  - discriminate Hi.
  - simpl. rewrite (deref_Some _ _ _ Hl). simpl.
    destruct j as [|j]; [lia|]. simpl in Hj.
    destruct i as [|i]; simpl in Hi.
    + injection Hi as ->. rewrite Hv.
      apply (AutoBalance_loop_second h ps vs l total Hpt).
      apply Exists_exists. exists w. split; [|exact Hw].
      apply list_elem_of_lookup. eauto.
    + destruct (Posting.Amount x) as [d|] eqn:Hd.
      * apply (IH i j); [lia|assumption..].
      * apply (AutoBalance_loop_second h ps vs l total Hpt).
        apply Exists_exists. exists w. split; [|exact Hw].
        apply list_elem_of_lookup. eauto.
Qed.

Lemma pointsTo_lookup (h : Heap) (ps : list loc) (vs : list Posting)
    (i : nat) (l : loc) (v : Posting) :
  pointsTo h ps vs -> ps !! i = Some l -> vs !! i = Some v -> h !! l = Some v.
Proof.
  intros Hpt Hl Hv.
  exact (Forall2_lookup_lr _ _ _ _ _ _ Hpt Hl Hv).
Qed.

(** Writing one cell that a single slot points to changes that slot only. *)
Lemma pointsTo_insert (h : Heap) (ps : list loc) (vs : list Posting)
    (i : nat) (l : loc) (v' : Posting) :
  pointsTo h ps vs ->
  ps !! i = Some l ->
  (forall j, j <> i -> ps !! j <> Some l) ->
  pointsTo (<[l := v']> h) ps (<[i := v']> vs).
Proof.
  intros Hpt Hl Huniq.
  assert (Hlen : length ps = length vs) by exact (Forall2_length _ _ _ Hpt).
  assert (Hlt : (l < length h)%nat).
  { destruct (lookup_lt_is_Some_2 vs i) as [v Hv].
    - rewrite <- Hlen. exact (lookup_lt_Some _ _ _ Hl).
    - exact (lookup_lt_Some _ _ _ (pointsTo_lookup _ _ _ _ _ _ Hpt Hl Hv)). }
  apply Forall2_same_length_lookup. split.
  - rewrite length_insert. exact Hlen.
  - intros j l' x Hl' Hx. destruct (decide (j = i)) as [->|Hne].
    + rewrite list_lookup_insert_eq in Hx.
      * injection Hx as <-. rewrite Hl in Hl'. injection Hl' as <-.
        apply list_lookup_insert_eq. exact Hlt.
      * rewrite <- Hlen. exact (lookup_lt_Some _ _ _ Hl').
    + rewrite list_lookup_insert_ne in Hx by congruence.
      rewrite list_lookup_insert_ne.
      * exact (pointsTo_lookup _ _ _ _ _ _ Hpt Hl' Hx).
      * intros ->. exact (Huniq j Hne Hl').
Qed.

(** One unset amount is filled with the negated sum of all the others,
    whatever their kinds. *)
Lemma AutoBalance_one (h : Heap) (tx : Transaction) (vs : list Posting)
    (i : nat) (v : Posting) :
  pointsTo h (Transaction.Postings tx) vs ->
  vs !! i = Some v ->
  Posting.Amount v = None ->
  (forall j w, j <> i -> vs !! j = Some w -> is_Some (Posting.Amount w)) ->
  exists (l : loc) (total : decimal.Decimal),
    Transaction.Postings tx !! i = Some l /\
    total = decimal.Neg (sum (amounts (delete i vs))) /\
    decimal.toQ total == - sumQ (amounts (delete i vs)) /\
    Transaction.AutoBalance h tx
    = Ret (<[l := Posting.setAmount (Some total) v]> h, None) /\
    pointsTo (<[l := Posting.setAmount (Some total) v]> h)
      (Transaction.Postings tx) (<[i := Posting.setAmount (Some total) v]> vs).
Proof.
  intros Hpt Hi Hv Hothers.
  destruct (AutoBalance_loop_one h _ vs i v decimal.Zero Hpt Hi Hv Hothers)
    as (l & Hl & Hhl & Hloop).
  exists l, (decimal.Neg (sum (amounts (delete i vs)))).
  split; [exact Hl|]. split; [reflexivity|]. split.
  { rewrite Neg_toQ, sum_toQ. reflexivity. }
  split.
  - unfold Transaction.AutoBalance. rewrite Hloop. simpl. f_equal. f_equal.
    apply list_eq. intros k. destruct (decide (k = l)) as [->|Hne].
    + rewrite list_lookup_alter_eq, Hhl. simpl.
      symmetry. apply list_lookup_insert_eq. exact (lookup_lt_Some _ _ _ Hhl).
    + rewrite list_lookup_alter_ne, list_lookup_insert_ne by congruence. reflexivity.
  - apply pointsTo_insert; [exact Hpt|exact Hl|].
    intros j Hne Hj.
    destruct (lookup_lt_is_Some_2 vs j) as [w Hw].
    { rewrite <- (Forall2_length _ _ _ Hpt). exact (lookup_lt_Some _ _ _ Hj). }
    destruct (Hothers j w Hne Hw) as [d Hd].
    pose proof (pointsTo_lookup _ _ _ _ _ _ Hpt Hj Hw) as Hlw.
    rewrite Hhl in Hlw. injection Hlw as <-. congruence.
Qed.

(** C1. In a transaction with exactly one unset amount, [AutoBalance]
    succeeds and sets that amount to the negation of the sum of the amounts
    of all the other postings, of every kind; the other postings are as they
    were.  In the paycheck scenario [Income:Salary] becomes -1000 and the
    balance check then passes. *)
Theorem AutoBalance_fills_elided :
  (forall (h : Heap) (tx : Transaction) (vs : list Posting) (i : nat) (v : Posting),
     pointsTo h (Transaction.Postings tx) vs ->
     vs !! i = Some v ->
     Posting.Amount v = None ->
     (forall j w, j <> i -> vs !! j = Some w -> is_Some (Posting.Amount w)) ->
     exists (l : loc) (total : decimal.Decimal),
       Transaction.Postings tx !! i = Some l /\
       total = decimal.Neg (sum (amounts (delete i vs))) /\
       decimal.toQ total == - sumQ (amounts (delete i vs)) /\
       Transaction.AutoBalance h tx
       = Ret (<[l := Posting.setAmount (Some total) v]> h, None) /\
       pointsTo (<[l := Posting.setAmount (Some total) v]> h)
         (Transaction.Postings tx) (<[i := Posting.setAmount (Some total) v]> vs))
  /\
  (exists h' : Heap,
     Transaction.AutoBalance paycheck_heap paycheck = Ret (h', None) /\
     h' !! 0%nat = paycheck_heap !! 0%nat /\
     h' !! 1%nat
     = Some (Posting.mk RealPosting "Income:Salary"
               (Some (decimal.NewFromInt (-1000))) EmptyString 0 0) /\
     Transaction.Balance h' paycheck = Ret None).
Proof.
  split.
  - exact AutoBalance_one.
  - eexists. split; [reflexivity|]. split; [reflexivity|]. split; reflexivity.
Qed.

Lemma AutoBalance_fills_elided_witness :
  exists (l : loc) (total : decimal.Decimal),
    Transaction.Postings paycheck !! 1%nat = Some l /\
    total = decimal.Neg (sum (amounts (delete 1%nat paycheck_heap))) /\
    decimal.toQ total == - sumQ (amounts (delete 1%nat paycheck_heap)) /\
    Transaction.AutoBalance paycheck_heap paycheck
    = Ret (<[l := Posting.setAmount (Some total)
                     (Posting.mk RealPosting "Income:Salary" None EmptyString 0 0)]>
             paycheck_heap, None) /\
    pointsTo
      (<[l := Posting.setAmount (Some total)
                (Posting.mk RealPosting "Income:Salary" None EmptyString 0 0)]>
         paycheck_heap)
      (Transaction.Postings paycheck)
      (<[1%nat := Posting.setAmount (Some total)
                    (Posting.mk RealPosting "Income:Salary" None EmptyString 0 0)]>
         paycheck_heap).
Proof.
  apply (proj1 AutoBalance_fills_elided paycheck_heap paycheck paycheck_heap 1%nat).
  - repeat constructor.
  - reflexivity.
  - reflexivity.
  - intros [|[|j]] w Hj Hw; simpl in Hw.
    + injection Hw as <-. simpl. eauto.
    + lia.
    + discriminate Hw.
Defined.

(** C6. With two or more unset amounts [AutoBalance] returns the error "a
    transaction may only have one elided value" and the store of postings
    is returned as it was: no posting is written. *)
Theorem AutoBalance_two_elided (h : Heap) (tx : Transaction) (vs : list Posting)
    (i j : nat) (v w : Posting) :
  pointsTo h (Transaction.Postings tx) vs ->
  i <> j ->
  vs !! i = Some v -> Posting.Amount v = None ->
  vs !! j = Some w -> Posting.Amount w = None ->
  Transaction.AutoBalance h tx
  = Ret (h, Some (Errorf "AutoBalance: a transaction may only have one elided value" [])).
Proof.
  intros Hpt Hij Hi Hv Hj Hw.
  assert (Hloop : Transaction.AutoBalance_loop h (Transaction.Postings tx) None decimal.Zero
                  = Ret (inl errElided)).
  { destruct (Nat.lt_total i j) as [Hlt|[Heq|Hlt]]; [|contradiction|].
    - exact (AutoBalance_loop_two h _ vs i j v w _ Hpt Hlt Hi Hv Hj Hw).
    - exact (AutoBalance_loop_two h _ vs j i w v _ Hpt Hlt Hj Hw Hi Hv). }
  unfold Transaction.AutoBalance. rewrite Hloop. reflexivity.
Qed.

Lemma AutoBalance_two_elided_witness :
  Transaction.AutoBalance twoElided_heap twoElided
  = Ret (twoElided_heap,
         Some (Errorf "AutoBalance: a transaction may only have one elided value" [])).
Proof.
  apply (AutoBalance_two_elided twoElided_heap twoElided twoElided_heap 0%nat 2%nat
           (Posting.mk RealPosting "Expenses:Food" None EmptyString 0 0)
           (Posting.mk RealPosting "Expenses:Drink" None EmptyString 0 0)).
  - repeat constructor.
  - lia.
  - reflexivity.
  - reflexivity.
  - reflexivity.
  - reflexivity.
Defined.

(** ** [Balance] *)

Lemma notVirtual_cons (v : Posting) (vs : list Posting) :
  notVirtual (v :: vs)
  = if decide (Posting.Type_ v = VirtualPosting) then notVirtual vs
    else v :: notVirtual vs.
Proof.
  unfold notVirtual. rewrite filter_cons.
  destruct (decide (Posting.Type_ v = VirtualPosting)) as [He|Hne].
  - rewrite decide_False; [reflexivity|]. intros Hn. exact (Hn He).
  - rewrite decide_True by exact Hne. reflexivity.
Qed.

(** The loop adds up the amounts of the postings that are not virtual. *)
Lemma Balance_loop_set (h : Heap) (ps : list loc) (vs : list Posting)
    (total : decimal.Decimal) :
  pointsTo h ps vs ->
  Forall (fun v => is_Some (Posting.Amount v)) (notVirtual vs) ->
  Transaction.Balance_loop h ps total
  = Ret (foldl decimal.Add total (amounts (notVirtual vs))).
Proof.
  intros Hpt. revert total.
  induction Hpt as [|l v ps vs Hl Hpt IH]; intros total Hset; simpl.
  - reflexivity.
  - rewrite (deref_Some _ _ _ Hl). simpl.
    rewrite notVirtual_cons in Hset |- *.
    destruct (decide (Posting.Type_ v = VirtualPosting)) as [He|Hne].
    + apply IH. exact Hset.
    + apply Forall_cons in Hset as [[d Hd] Hset].
      rewrite Hd. rewrite IH by exact Hset.
      unfold amounts. simpl. rewrite Hd. reflexivity.
Qed.

Lemma Forall_notVirtual (P : Posting -> Prop) (vs : list Posting) :
  Forall P vs -> Forall P (notVirtual vs).
Proof.
  intros H. unfold notVirtual. apply Forall_forall. intros v Hv.
  apply list_elem_of_filter in Hv as [_ Hv].
  revert v Hv. apply Forall_forall. exact H.
Qed.

(** C2. With every amount set, [Balance] succeeds exactly when the amounts
    of the postings that are not virtual (real and balanced virtual) add up
    to zero; otherwise it returns the error that carries the residual. *)
Theorem Balance_iff_zero (h : Heap) (tx : Transaction) (vs : list Posting) :
  pointsTo h (Transaction.Postings tx) vs ->
  Forall (fun v => is_Some (Posting.Amount v)) vs ->
  (Transaction.Balance h tx = Ret None
   <-> sumQ (amounts (notVirtual vs)) == 0) /\
  (~ sumQ (amounts (notVirtual vs)) == 0 ->
   exists residual : decimal.Decimal,
     decimal.toQ residual == sumQ (amounts (notVirtual vs)) /\
     Transaction.Balance h tx
     = Ret (Some (Errorf "Balance: transactions must balance to zero; instead got %s"
                    [residual]))).
Proof.
  intros Hpt Hset.
  assert (Hloop : Transaction.Balance_loop h (Transaction.Postings tx) decimal.Zero
                  = Ret (sum (amounts (notVirtual vs)))).
  { apply Balance_loop_set; [exact Hpt|]. apply Forall_notVirtual. exact Hset. }
  unfold Transaction.Balance. rewrite Hloop. simpl.
  pose proof (IsZero_toQ (sum (amounts (notVirtual vs)))) as Hz.
  rewrite sum_toQ in Hz.
  destruct (decimal.IsZero (sum (amounts (notVirtual vs)))) eqn:Hb; simpl.
  - split; [split; [intros _; apply Hz; reflexivity|reflexivity]|].
    intros Hne. exfalso. apply Hne. apply Hz. reflexivity.
  - split.
    + split; [discriminate|]. intros H0. apply Hz in H0. discriminate H0.
    + intros _. exists (sum (amounts (notVirtual vs))).
      split; [apply sum_toQ|reflexivity].
Qed.

Lemma Balance_iff_zero_witness :
  (Transaction.Balance unbalanced_heap unbalanced = Ret None
   <-> sumQ (amounts (notVirtual unbalanced_heap)) == 0) /\
  (~ sumQ (amounts (notVirtual unbalanced_heap)) == 0 ->
   exists residual : decimal.Decimal,
     decimal.toQ residual == sumQ (amounts (notVirtual unbalanced_heap)) /\
     Transaction.Balance unbalanced_heap unbalanced
     = Ret (Some (Errorf "Balance: transactions must balance to zero; instead got %s"
                    [residual]))).
Proof.
  apply (Balance_iff_zero unbalanced_heap unbalanced unbalanced_heap).
  - repeat constructor.
  - repeat constructor; simpl; eauto.
Defined.

(** ** The placeholder pattern *)

Lemma append_assoc (a b c : string) : (a +:+ b) +:+ c = a +:+ (b +:+ c).
Proof. induction a as [|x a IH]; simpl; [reflexivity|]. f_equal. exact IH. Qed.

Lemma isWord_not_cut (c : ascii) :
  regexp.isWord c = true -> strings.contains "${}" c = false.
Proof.
  intros Hw. simpl.
  repeat (destruct (decide _) as [->|_]; [discriminate Hw|]).
  reflexivity.
Qed.

Lemma spanWord_app (id rest : string) :
  allWord id = true ->
  regexp.spanWord (id +:+ String "}" rest) = (id, String "}" rest).
Proof.
  induction id as [|c id IH]; simpl; intros Hid.
  - reflexivity.
  - apply andb_prop in Hid as [Hc Hid]. rewrite Hc, (IH Hid). reflexivity.
Qed.

Lemma spanWord_spec (s w r : string) :
  regexp.spanWord s = (w, r) -> s = w +:+ r /\ allWord w = true.
Proof.
  revert w r. induction s as [|c s IH]; simpl; intros w r H.
  - injection H as <- <-. split; reflexivity.
  - destruct (regexp.isWord c) eqn:Hc.
    + destruct (regexp.spanWord s) as [w' r'] eqn:Hs.
      injection H as <- <-. destruct (IH w' r' eq_refl) as [-> Hw].
      split; [reflexivity|]. simpl. rewrite Hc, Hw. reflexivity.
    + injection H as <- <-. split; reflexivity.
Qed.

Lemma matchPlaceholder_Some (id rest : string) :
  identifier id ->
  regexp.matchPlaceholder ("${" +:+ id +:+ "}" +:+ rest) = Some ("${" +:+ id +:+ "}").
Proof.
  intros [Hne Hid]. simpl.
  change (id +:+ String "}" rest) with (id +:+ String "}" rest).
  rewrite (spanWord_app id rest Hid).
  destruct id as [|c id]; [contradiction|reflexivity].
Qed.

Lemma matchPlaceholder_inv (s m : string) :
  regexp.matchPlaceholder s = Some m ->
  exists id rest, identifier id /\
    s = "${" +:+ id +:+ "}" +:+ rest /\ m = "${" +:+ id +:+ "}".
Proof.
  unfold regexp.matchPlaceholder. intros H.
  destruct s as [|a s]; [discriminate|].
  destruct (decide (a = "$"%char)) as [->|Ha].
  2:{ destruct a as [[] [] [] [] [] [] [] []]; try discriminate H.
      contradiction Ha. reflexivity. }
  destruct s as [|b s]; [discriminate|].
  destruct (decide (b = "{"%char)) as [->|Hb].
  2:{ destruct b as [[] [] [] [] [] [] [] []]; try discriminate H.
      contradiction Hb. reflexivity. }
  destruct (regexp.spanWord s) as [w r] eqn:Hs.
  destruct (spanWord_spec _ _ _ Hs) as [-> Hw].
  destruct w as [|c w]; [discriminate|].
  destruct r as [|d r]; [discriminate|].
  destruct (decide (d = "}"%char)) as [->|Hd].
  2:{ destruct d as [[] [] [] [] [] [] [] []]; try discriminate H.
      contradiction Hd. reflexivity. }
  injection H as <-.
  exists (String c w), r. split; [split; [discriminate|exact Hw]|].
  split; reflexivity.
Qed.

Lemma matchPlaceholder_None (c : ascii) (rest : string) :
  regexp.matchPlaceholder (String c rest) = None ->
  forall id rest', identifier id -> String c rest <> "${" +:+ id +:+ "}" +:+ rest'.
Proof.
  intros Hnone id rest' Hid Heq.
  rewrite Heq, (matchPlaceholder_Some id rest' Hid) in Hnone. discriminate.
Qed.

Lemma replacePlaceholders_skip (repl : string -> string) (x s : string) :
  regexp.replacePlaceholders repl (String.length x) (x +:+ s)
  = regexp.replacePlaceholders repl 0 s.
Proof.
  induction x as [|c x IH]; simpl.
  - reflexivity.
  - exact IH.
Qed.

Lemma replacePlaceholders_placeholder (repl : string -> string) (id rest : string) :
  identifier id ->
  regexp.replacePlaceholders repl 0 ("${" +:+ id +:+ "}" +:+ rest)
  = repl ("${" +:+ id +:+ "}") +:+ regexp.replacePlaceholders repl 0 rest.
Proof.
  intros Hid.
  change ("${" +:+ id +:+ "}" +:+ rest)
    with (String "$" (String "{" (id +:+ "}" +:+ rest))).
  cbn [regexp.replacePlaceholders].
  change (String "$" (String "{" (id +:+ "}" +:+ rest)))
    with ("${" +:+ id +:+ "}" +:+ rest).
  rewrite (matchPlaceholder_Some id rest Hid). f_equal.
  transitivity (regexp.replacePlaceholders repl (String.length ("{" +:+ id +:+ "}"))
                  (("{" +:+ id +:+ "}") +:+ rest)).
  - rewrite (append_assoc "{" (id +:+ "}") rest), (append_assoc id "}" rest).
    reflexivity.
  - apply replacePlaceholders_skip.
Qed.

Lemma replacePlaceholders_byte (repl : string -> string) (c : ascii) (rest : string) :
  regexp.matchPlaceholder (String c rest) = None ->
  regexp.replacePlaceholders repl 0 (String c rest)
  = String c (regexp.replacePlaceholders repl 0 rest).
Proof. intros H. cbn [regexp.replacePlaceholders]. rewrite H. reflexivity. Qed.

Lemma TrimRight_identifier (id : string) :
  identifier id -> strings.TrimRight (id +:+ "}") "${}" = id.
Proof.
  intros [Hne Hid]. induction id as [|c id IH]; [contradiction|].
  apply andb_prop in Hid as [Hc Hid].
  destruct id as [|d id].
  - simpl. simpl in Hc.
    repeat (destruct (decide _) as [->|_]; [discriminate Hc|]). reflexivity.
  - change (strings.TrimRight (String c (String d id) +:+ "}") "${}")
      with (match strings.TrimRight (String d id +:+ "}") "${}" with
            | EmptyString =>
                if strings.contains "${}" c then EmptyString else String c EmptyString
            | r => String c r
            end).
    rewrite IH by (discriminate || exact Hid). reflexivity.
Qed.

Lemma Trim_placeholder (id : string) :
  identifier id -> strings.Trim ("${" +:+ id +:+ "}") "${}" = id.
Proof.
  intros Hid. unfold strings.Trim.
  assert (Hl : strings.TrimLeft ("${" +:+ id +:+ "}") "${}" = id +:+ "}").
  { destruct Hid as [Hne Hid]. destruct id as [|c id]; [contradiction|].
    apply andb_prop in Hid as [Hc _].
    change (strings.TrimLeft ("${" +:+ String c id +:+ "}") "${}")
      with (if strings.contains "${}" c
            then strings.TrimLeft (id +:+ "}") "${}"
            else String c id +:+ "}").
    rewrite (isWord_not_cut c Hc). reflexivity. }
  rewrite Hl. apply TrimRight_identifier. exact Hid.
Qed.

(** The scan computes the substituted template. *)
Lemma replacePlaceholders_sound (repl f : string -> string) :
  (forall id, identifier id -> repl ("${" +:+ id +:+ "}") = f id) ->
  forall s, Substituted f s (regexp.replacePlaceholders repl 0 s).
Proof.
  intros Hrepl s.
  remember (String.length s) as n eqn:Hn.
  revert s Hn. induction n as [n IH] using lt_wf_ind. intros s Hn.
  destruct s as [|c s].
  - constructor.
  - destruct (regexp.matchPlaceholder (String c s)) as [m|] eqn:Hm.
    + destruct (matchPlaceholder_inv _ _ Hm) as (id & rest & Hid & Hs & _).
      rewrite Hs, (replacePlaceholders_placeholder repl id rest Hid), (Hrepl id Hid).
      constructor; [exact Hid|].
      apply (IH (String.length rest)); [|reflexivity].
      rewrite Hn, Hs. simpl. clear. induction id as [|x id IHid]; simpl; lia.
    + rewrite (replacePlaceholders_byte repl c s Hm).
      constructor; [exact (matchPlaceholder_None c s Hm)|].
      apply (IH (String.length s)); [|reflexivity]. rewrite Hn. simpl. lia.
Qed.

(** The substituted template is what the scan computes: there is only one. *)
Lemma replacePlaceholders_complete (repl f : string -> string) :
  (forall id, identifier id -> repl ("${" +:+ id +:+ "}") = f id) ->
  forall s out, Substituted f s out -> out = regexp.replacePlaceholders repl 0 s.
Proof.
  intros Hrepl s out H.
  induction H as [|id rest out Hid H IH|c rest out Hno H IH].
  - reflexivity.
  - rewrite (replacePlaceholders_placeholder repl id rest Hid), (Hrepl id Hid), IH.
    reflexivity.
  - rewrite replacePlaceholders_byte, IH; [reflexivity|].
    destruct (regexp.matchPlaceholder (String c rest)) as [m|] eqn:Hm; [|reflexivity].
    destruct (matchPlaceholder_inv _ _ Hm) as (id & rest' & Hid & Hs & _).
    exfalso. exact (Hno id rest' Hid Hs).
Qed.

Lemma replace_resolve (v : Posting) (m : gmap string string) (id : string) :
  identifier id ->
  Action.replace v m ("${" +:+ id +:+ "}") = resolve (Posting.Account v) m id.
Proof.
  intros Hid. unfold Action.replace, resolve, Action.index.
  rewrite (Trim_placeholder id Hid).
  destruct (decide (id = "account")); [reflexivity|].
  destruct (m !! id); reflexivity.
Qed.

(** ** [Action.Execute] *)

Lemma Execute_set (a : Action) (h : Heap) (p : loc) (v : Posting)
    (d : decimal.Decimal) (m : gmap string string) :
  h !! p = Some v ->
  Posting.Amount v = Some d ->
  Action.Execute a h p m
  = Ret (h ++ [Posting.mk (Action.Type_ a)
                 (regexp.replacePlaceholders (Action.replace v m) 0 (Action.Account a))
                 (Some (decimal.Mul d (Action.Amount a))) EmptyString 0 0],
         length h).
Proof.
  intros Hp Hd. unfold Action.Execute. rewrite (deref_Some _ _ _ Hp). simpl.
  rewrite Hd. reflexivity.
Qed.

(** C5. For a source posting with a set amount, [Execute] returns a new
    posting whose amount is the source amount times the action's multiplier
    and whose account is the action's template with every [${identifier}]
    replaced: [${account}] by the source posting's account, any other
    identifier by its capture, or by nothing when there is none.  With the
    captures [{"1": "rent"}] the template [${1}:tax] gives [rent:tax]. *)
Theorem Execute_amount_account :
  (forall (a : Action) (h : Heap) (p : loc) (v : Posting) (d : decimal.Decimal)
          (m : gmap string string),
     h !! p = Some v ->
     Posting.Amount v = Some d ->
     exists (n : Posting),
       Action.Execute a h p m = Ret (h ++ [n], length h) /\
       Posting.Amount n = Some (decimal.Mul d (Action.Amount a)) /\
       decimal.toQ (decimal.Mul d (Action.Amount a))
       == decimal.toQ d * decimal.toQ (Action.Amount a) /\
       Substituted (resolve (Posting.Account v) m) (Action.Account a) (Posting.Account n) /\
       (forall out,
          Substituted (resolve (Posting.Account v) m) (Action.Account a) out ->
          out = Posting.Account n))
  /\
  (exists (h' : Heap) (pp : loc) (n : Posting),
     Action.Execute rentTax rent_heap 0%nat rentCaptures = Ret (h', pp) /\
     h' !! pp = Some n /\
     Posting.Account n = "rent:tax" /\
     Posting.Amount n = Some (decimal.mk 500 (-1))).
Proof.
  split.
  - intros a h p v d m Hp Hd. eexists. split; [exact (Execute_set a h p v d m Hp Hd)|].
    simpl. split; [reflexivity|]. split; [apply Mul_toQ|]. split.
    + apply replacePlaceholders_sound. intros id Hid. apply replace_resolve. exact Hid.
    + intros out. apply replacePlaceholders_complete.
      intros id Hid. apply replace_resolve. exact Hid.
  - eexists _, _, _. split; [reflexivity|]. split; [reflexivity|].
    split; reflexivity.
Qed.

Lemma Execute_amount_account_witness :
  exists (n : Posting),
    Action.Execute rentTax rent_heap 0%nat rentCaptures
    = Ret (rent_heap ++ [n], length rent_heap) /\
    Posting.Amount n
    = Some (decimal.Mul (decimal.NewFromInt 500) (Action.Amount rentTax)) /\
    decimal.toQ (decimal.Mul (decimal.NewFromInt 500) (Action.Amount rentTax))
    == decimal.toQ (decimal.NewFromInt 500) * decimal.toQ (Action.Amount rentTax) /\
    Substituted (resolve "rent:house" rentCaptures) (Action.Account rentTax)
      (Posting.Account n) /\
    (forall out,
       Substituted (resolve "rent:house" rentCaptures) (Action.Account rentTax) out ->
       out = Posting.Account n).
Proof.
  apply (proj1 Execute_amount_account rentTax rent_heap 0%nat
           (Posting.mk RealPosting "rent:house" (Some (decimal.NewFromInt 500)) "may" 0 0)
           (decimal.NewFromInt 500) rentCaptures).
  - reflexivity.
  - reflexivity.
Defined.

(** C8, as stated, fails: the comment of the action is not copied. *)
Lemma Execute_comment_not_copied :
  ~ (forall (a : Action) (h : Heap) (p : loc) (m : gmap string string)
            (h' : Heap) (pp : loc) (n : Posting),
       Action.Execute a h p m = Ret (h', pp) ->
       h' !! pp = Some n ->
       Posting.Type_ n = Action.Type_ a /\ Posting.Comment n = Action.Comment a).
Proof.
  intros H.
  destruct (H rentTax rent_heap 0%nat rentCaptures _ _ _ eq_refl eq_refl) as [_ Hc].
  discriminate Hc.
Qed.

(** C8, amended. The posting that [Execute] returns has its kind copied from
    the action and an empty comment (and no provenance yet); [Execute] only
    adds that posting to the store: every posting that was there, the source
    posting among them, is as it was. *)
Theorem Execute_kind_and_frame (a : Action) (h : Heap) (p : loc)
    (m : gmap string string) (h' : Heap) (pp : loc) :
  Action.Execute a h p m = Ret (h', pp) ->
  exists n : Posting,
    h' = h ++ [n] /\ pp = length h /\
    Posting.Type_ n = Action.Type_ a /\
    Posting.Comment n = EmptyString /\
    Posting.GeneratedBy n = 0%Z /\ Posting.From n = 0%Z /\
    h' !! p = h !! p /\
    (forall l v, h !! l = Some v -> h' !! l = Some v).
Proof.
  unfold Action.Execute, deref. intros H.
  destruct (h !! p) as [v|] eqn:Hp; [|discriminate H]. simpl in H.
  destruct (Posting.Amount v) as [d|]; [|discriminate H].
  injection H as <- <-. eexists. split; [reflexivity|].
  simpl. repeat (split; [reflexivity|]). split.
  - apply lookup_app_l_Some. exact Hp.
  - intros l w Hl. apply lookup_app_l_Some. exact Hl.
Qed.

Lemma Execute_kind_and_frame_witness :
  exists n : Posting,
    rent_heap ++ [Posting.mk VirtualPosting "rent:tax" (Some (decimal.mk 500 (-1)))
                    EmptyString 0 0]
    = rent_heap ++ [n] /\
    1%nat = length rent_heap /\
    Posting.Type_ n = Action.Type_ rentTax /\
    Posting.Comment n = EmptyString /\
    Posting.GeneratedBy n = 0%Z /\ Posting.From n = 0%Z /\
    (rent_heap ++ [Posting.mk VirtualPosting "rent:tax" (Some (decimal.mk 500 (-1)))
                     EmptyString 0 0]) !! 0%nat
    = rent_heap !! 0%nat /\
    (forall l v, rent_heap !! l = Some v ->
       (rent_heap ++ [Posting.mk VirtualPosting "rent:tax" (Some (decimal.mk 500 (-1)))
                        EmptyString 0 0]) !! l = Some v).
Proof.
  apply (Execute_kind_and_frame rentTax rent_heap 0%nat rentCaptures).
  reflexivity.
Defined.

(** ** The [fy] helper *)

Lemma itoa_twoDigits (k : Z) :
  (10 <= k < 100)%Z -> itoa k = twoDigits k.
Proof.
  intros Hk.
  assert (Hall : Forall (fun k => itoa k = twoDigits k) (seqZ 10 90)).
  { vm_compute. repeat constructor. }
  rewrite Forall_forall in Hall. apply Hall. apply elem_of_seqZ. lia.
Qed.

Lemma twoDigits_mod (year : Z) : twoDigits (year mod 100) = twoDigits year.
Proof. unfold twoDigits. rewrite Z.mod_mod by lia. reflexivity. Qed.

Lemma itoa_rem_twoDigits (year : Z) :
  (10 <= Z.rem year 100)%Z -> itoa (Z.rem year 100) = twoDigits year.
Proof.
  intros H.
  assert (Hy : (0 <= year)%Z).
  { destruct (Z.le_gt_cases 0 year) as [Hy|Hy]; [exact Hy|].
    pose proof (Z.rem_nonpos year 100). lia. }
  rewrite Z.rem_mod_nonneg in * by lia.
  rewrite <- twoDigits_mod. apply itoa_twoDigits.
  pose proof (Z.mod_pos_bound year 100). lia.
Qed.

(** C9 fails on the code: both year components are printed with [%d], so
    a component below ten has one digit.  For 2005-03-01 the code returns
    [FY45], where the label with two digits for each component is
    [FY0405]. *)
Theorem fy_2005_one_digit :
  fy (time.Date 2005 time.March 1) = "FY45" /\
  fyTwoDigits (time.Date 2005 time.March 1) = "FY0405" /\
  fy (time.Date 2005 time.March 1) <> fyTwoDigits (time.Date 2005 time.March 1).
Proof. split; [reflexivity|]. split; [reflexivity|]. discriminate. Qed.

(** What [fy] does return: [FY] followed by the two year components
    (year-1 and year from January to June, year and year+1 otherwise), each
    taken modulo 100 and printed in plain decimal without padding; this is
    the label with two digits for each component whenever both are at least
    ten. *)
Lemma fy_label (t : time.Time) :
  fy t = "FY" +:+ itoa (fst (fyYears t)) +:+ itoa (snd (fyYears t)) /\
  ((10 <= fst (fyYears t))%Z -> (10 <= snd (fyYears t))%Z -> fy t = fyTwoDigits t).
Proof.
  unfold fy, fyYears, fyTwoDigits.
  destruct t as [year month day]. simpl.
  destruct month; simpl; (split; [reflexivity|]); intros Ha Hb;
    rewrite (itoa_rem_twoDigits _ Ha), (itoa_rem_twoDigits _ Hb); reflexivity.
Qed.

Lemma fy_label_witness :
  fy (time.Date 2016 time.September 30) = "FY1617" /\
  fyTwoDigits (time.Date 2016 time.September 30) = "FY1617".
Proof.
  pose proof (fy_label (time.Date 2016 time.September 30)) as [H1 H2].
  split.
  - exact H1.
  - rewrite <- H2; [exact H1| |]; vm_compute; discriminate.
Defined.

(** ** Runs *)

Lemma trace_lift {A : Type} (r : Res A) : trace (lift r) = [].
Proof. destruct r; reflexivity. Qed.

Lemma result_lift_Done {A : Type} (r : Res A) (a : A) :
  result (lift r) = Done a -> r = Ret a.
Proof. destruct r; simpl; intros H; [injection H as ->; reflexivity|discriminate]. Qed.

Lemma result_bind_Done {A B : Type} (m : M A) (k : A -> M B) (b : B) :
  result (m ≫= k) = Done b ->
  exists a, result m = Done a /\ result (k a) = Done b.
Proof.
  unfold mbind, M_bind. destruct (result m) as [a| | |]; simpl; intros H;
    try discriminate H.
  exists a. split; [reflexivity|exact H].
Qed.

Lemma Forall_trace_bind {A B : Type} (P : Event -> Prop) (m : M A) (k : A -> M B) :
  Forall P (trace m) ->
  (forall a, result m = Done a -> Forall P (trace (k a))) ->
  Forall P (trace (m ≫= k)).
Proof.
  intros Hm Hk. unfold mbind, M_bind.
  destruct (result m) as [a| | |] eqn:Hr; simpl; try exact Hm.
  apply Forall_app. split; [exact Hm|]. apply Hk. reflexivity.
Qed.

(** ** The rewrite loop: what it writes *)

(** Writing the provenance of the new posting leaves the others alone. *)
Lemma provenance_frame (h : Heap) (n : Posting) (g f : Z) (l : loc) (v : Posting) :
  h !! l = Some v ->
  alter (Posting.setFrom f) (length h)
    (alter (Posting.setGeneratedBy g) (length h) (h ++ [n])) !! l = Some v.
Proof.
  intros Hl. pose proof (lookup_lt_Some _ _ _ Hl) as Hlt.
  rewrite !list_lookup_alter_ne by lia.
  apply lookup_app_l_Some. exact Hl.
Qed.

(** The loop over the actions keeps every posting of the store and appends
    to the transaction. *)
Lemma main_actions_frame (tr : Trigger) (i : nat) (p : loc) (m : gmap string string)
    (actions : list Action) (h : Heap) (tx : Transaction) (h' : Heap) (tx' : Transaction) :
  result (main_actions tr i p m actions h tx) = Done (h', tx') ->
  (forall l v, h !! l = Some v -> h' !! l = Some v) /\
  exists added, Transaction.Postings tx' = Transaction.Postings tx ++ added.
Proof.
  revert h tx. induction actions as [|a actions IH]; intros h tx H.
  - simpl in H. injection H as <- <-. split; [auto|]. exists []. symmetry. apply app_nil_r.
  - cbn [main_actions] in H.
    apply result_bind_Done in H as ([] & _ & H).
    apply result_bind_Done in H as ([h1 pp] & Hex & H).
    apply result_lift_Done in Hex.
    destruct (Execute_kind_and_frame _ _ _ _ _ _ Hex) as (n & -> & -> & _).
    apply IH in H as [Hframe [added Hadd]]. split.
    + intros l v Hl. apply Hframe. apply provenance_frame. exact Hl.
    + exists (length h :: added). rewrite Hadd. simpl. rewrite <- app_assoc. reflexivity.
Qed.

Lemma main_triggers_frame (triggers : list Trigger) (i : nat) (p : loc)
    (h : Heap) (tx : Transaction) (h' : Heap) (tx' : Transaction) :
  result (main_triggers triggers i p h tx) = Done (h', tx') ->
  (forall l v, h !! l = Some v -> h' !! l = Some v) /\
  exists added, Transaction.Postings tx' = Transaction.Postings tx ++ added.
Proof.
  revert h tx. induction triggers as [|tr triggers IH]; intros h tx H.
  - simpl in H. injection H as <- <-. split; [auto|]. exists []. symmetry. apply app_nil_r.
  - cbn [main_triggers] in H.
    apply result_bind_Done in H as (v & _ & H).
    destruct (Posting.GeneratedBy v =? Trigger.ID tr)%Z; [exact (IH _ _ H)|].
    apply result_bind_Done in H as ([] & _ & H).
    apply result_bind_Done in H as ([b m] & _ & H).
    destruct b; simpl in H; [|exact (IH _ _ H)].
    apply result_bind_Done in H as ([h1 tx1] & Hact & H).
    apply main_actions_frame in Hact as [Hf1 [added1 Ha1]].
    apply IH in H as [Hf2 [added2 Ha2]]. split.
    + intros l w Hl. apply Hf2, Hf1, Hl.
    + exists (added1 ++ added2). rewrite Ha2, Ha1, app_assoc. reflexivity.
Qed.

(** ** Self-exclusion *)

Lemma main_actions_selfExcluded (tr : Trigger) (i : nat) (p : loc)
    (m : gmap string string) (actions : list Action) (h : Heap) (tx : Transaction)
    (v : Posting) :
  h !! p = Some v ->
  Posting.GeneratedBy v <> Trigger.ID tr ->
  Forall selfExcluded (trace (main_actions tr i p m actions h tx)).
Proof.
  intros Hp Hne. revert h tx Hp.
  induction actions as [|a actions IH]; intros h tx Hp.
  - constructor.
  - cbn [main_actions]. apply Forall_trace_bind.
    + constructor; [|constructor]. simpl. exists v. split; [exact Hp|exact Hne].
    + intros [] _. apply Forall_trace_bind.
      * rewrite trace_lift. constructor.
      * intros [h1 pp] Hex. apply result_lift_Done in Hex.
        destruct (Execute_kind_and_frame _ _ _ _ _ _ Hex) as (n & -> & -> & _).
        apply IH. apply provenance_frame. exact Hp.
Qed.

Lemma main_triggers_selfExcluded (triggers : list Trigger) (i : nat) (p : loc)
    (h : Heap) (tx : Transaction) :
  Forall selfExcluded (trace (main_triggers triggers i p h tx)).
Proof.
  revert h tx. induction triggers as [|tr triggers IH]; intros h tx.
  - constructor.
  - cbn [main_triggers]. apply Forall_trace_bind.
    + rewrite trace_lift. constructor.
    + intros v Hv. apply result_lift_Done in Hv.
      assert (Hp : h !! p = Some v).
      { unfold deref in Hv. destruct (h !! p); [injection Hv as ->; reflexivity|discriminate]. }
      destruct (Z.eqb_spec (Posting.GeneratedBy v) (Trigger.ID tr)) as [_|Hne];
        [apply IH|].
      apply Forall_trace_bind.
      * constructor; [exact Hne|constructor].
      * intros [] _. apply Forall_trace_bind; [rewrite trace_lift; constructor|].
        intros [b m] _. destruct b; simpl; [|apply IH].
        apply Forall_trace_bind.
        -- exact (main_actions_selfExcluded tr i p m _ h tx v Hp Hne).
        -- intros [h1 tx1] _. apply IH.
Qed.

Lemma onCycle_selfExcluded {A : Type} (ver : Version) (h : Heap) (tx : Transaction) :
  Forall selfExcluded (trace (onCycle (A := A) ver h tx)).
Proof.
  unfold onCycle. destruct (cycleAction ver); simpl; repeat constructor.
Qed.

Lemma main_postings_selfExcluded (fuel : nat) (ver : Version)
    (triggers : list Trigger) (i : nat) (h : Heap) (tx : Transaction) :
  Forall selfExcluded (trace (main_postings fuel ver triggers i h tx)).
Proof.
  revert i h tx. induction fuel as [|fuel IH]; intros i h tx.
  - constructor.
  - cbn [main_postings]. destruct (Transaction.Postings tx !! i) as [p|]; [|constructor].
    apply Forall_trace_bind; [apply main_triggers_selfExcluded|].
    intros [h1 tx1] _.
    destruct (ceiling ver <? length (Transaction.Postings tx1))%nat;
      [apply onCycle_selfExcluded|apply IH].
Qed.

Lemma main_rewrite_selfExcluded (fuel : nat) (ver : Version)
    (triggers : list Trigger) (transactions : list Transaction) (h : Heap) :
  Forall selfExcluded (trace (main_rewrite fuel ver triggers transactions h)).
Proof.
  revert h. induction transactions as [|tx transactions IH]; intros h.
  - constructor.
  - cbn [main_rewrite]. apply Forall_trace_bind; [apply main_postings_selfExcluded|].
    intros [h1 tx1] _. apply Forall_trace_bind; [apply IH|].
    intros [h2 transactions1] _. constructor.
Qed.

(** C3. Every call of a trigger's [Match] and of its actions' [Execute] that
    the rewrite loop makes, up to any point of any run, is on a posting whose
    [GeneratedBy] differs from the trigger's [ID].  So the trigger that
    matches every account, its own output included, fires once on each of
    the two postings of the scenario and the loop ends with four postings. *)
Theorem rewrite_self_exclusion :
  (forall (fuel : nat) (ver : Version) (triggers : list Trigger)
          (transactions : list Transaction) (h : Heap),
     Forall selfExcluded (trace (main_rewrite fuel ver triggers transactions h)))
  /\
  (exists (h' : Heap) (tx' : Transaction),
     result (main_rewrite 1001 part_001 [selfTrigger] [salary] salary_heap)
     = Done (h', [tx']) /\
     Transaction.Postings tx' = [0; 1; 2; 3]%nat /\
     (Posting.Account <$> h') = ["Assets:Bank"; "Income:Salary";
                                  "Assets:Bank:tax"; "Income:Salary:tax"] /\
     (Posting.GeneratedBy <$> h') = [0; 0; 1; 1]%Z /\
     (Posting.From <$> h') = [0; 0; 1; 2]%Z).
Proof.
  split.
  - exact main_rewrite_selfExcluded.
  - eexists _, _. split; [vm_compute; reflexivity|].
    split; [reflexivity|]. split; [reflexivity|]. split; reflexivity.
Qed.

(** ** Termination of the rewrite loop *)

Lemma result_bind_fuel {A B : Type} (m : M A) (k : A -> M B) :
  result m <> OutOfFuel ->
  (forall a, result m = Done a -> result (k a) <> OutOfFuel) ->
  result (m ≫= k) <> OutOfFuel.
Proof.
  intros Hm Hk. unfold mbind, M_bind.
  destruct (result m) as [a| | |] eqn:Hr; simpl; try discriminate.
  - apply Hk. reflexivity.
  - contradiction Hm. reflexivity.
Qed.

Lemma result_lift_fuel {A : Type} (r : Res A) : result (lift r) <> OutOfFuel.
Proof. destruct r; discriminate. Qed.

Lemma main_actions_fuel (tr : Trigger) (i : nat) (p : loc) (m : gmap string string)
    (actions : list Action) (h : Heap) (tx : Transaction) :
  result (main_actions tr i p m actions h tx) <> OutOfFuel.
Proof.
  revert h tx. induction actions as [|a actions IH]; intros h tx.
  - discriminate.
  - cbn [main_actions]. apply result_bind_fuel; [discriminate|]. intros [] _.
    apply result_bind_fuel; [apply result_lift_fuel|]. intros [h1 pp] _. apply IH.
Qed.

Lemma main_triggers_fuel (triggers : list Trigger) (i : nat) (p : loc)
    (h : Heap) (tx : Transaction) :
  result (main_triggers triggers i p h tx) <> OutOfFuel.
Proof.
  revert h tx. induction triggers as [|tr triggers IH]; intros h tx.
  - discriminate.
  - cbn [main_triggers]. apply result_bind_fuel; [apply result_lift_fuel|].
    intros v _. destruct (Posting.GeneratedBy v =? Trigger.ID tr)%Z; [apply IH|].
    apply result_bind_fuel; [discriminate|]. intros [] _.
    apply result_bind_fuel; [apply result_lift_fuel|]. intros [b m] _.
    destruct b; simpl; [|apply IH].
    apply result_bind_fuel; [apply main_actions_fuel|]. intros [h1 tx1] _. apply IH.
Qed.

Lemma onCycle_result {A : Type} (ver : Version) (h : Heap) (tx : Transaction) :
  result (onCycle (A := A) ver h tx) = cycleOutcome ver.
Proof. unfold onCycle, cycleOutcome. destruct (cycleAction ver); reflexivity. Qed.

Lemma cycleOutcome_fuel {A : Type} (ver : Version) :
  cycleOutcome (A := A) ver <> OutOfFuel.
Proof. unfold cycleOutcome. destruct (cycleAction ver); discriminate. Qed.

(** From index [i], [ceiling - i + 1] iterations are enough: an iteration
    that goes on leaves at most [ceiling] postings, and the index is below
    their number. *)
Lemma main_postings_fuel (fuel : nat) (ver : Version) (triggers : list Trigger)
    (i : nat) (h : Heap) (tx : Transaction) :
  (ceiling ver - i < fuel)%nat ->
  result (main_postings fuel ver triggers i h tx) <> OutOfFuel.
Proof.
  revert i h tx. induction fuel as [|fuel IH]; intros i h tx Hfuel; [lia|].
  cbn [main_postings].
  destruct (Transaction.Postings tx !! i) as [p|] eqn:Hp; [|discriminate].
  apply result_bind_fuel; [apply main_triggers_fuel|].
  intros [h1 tx1] Htr.
  destruct (Nat.ltb_spec (ceiling ver) (length (Transaction.Postings tx1))) as [Hgt|Hle].
  - rewrite onCycle_result. apply cycleOutcome_fuel.
  - apply IH.
    apply main_triggers_frame in Htr as [_ [added Hadd]].
    apply lookup_lt_Some in Hp.
    rewrite Hadd, length_app in Hle. lia.
Qed.

Lemma bind_ext {A B : Type} (m : M A) (k k' : A -> M B) :
  (forall a, result m = Done a -> k a = k' a) -> m ≫= k = m ≫= k'.
Proof.
  intros H. unfold mbind, M_bind.
  destruct (result m) as [a| | |] eqn:Hr; try reflexivity.
  rewrite (H a eq_refl). reflexivity.
Qed.

Lemma result_bind_fuel_inv {A B : Type} (m : M A) (k : A -> M B) (a : A) :
  result (m ≫= k) <> OutOfFuel -> result m = Done a -> result (k a) <> OutOfFuel.
Proof. unfold mbind, M_bind. intros H Hr. rewrite Hr in H. exact H. Qed.

(** A run that ends is the same with more fuel. *)
Lemma main_postings_more_fuel (fuel fuel' : nat) (ver : Version)
    (triggers : list Trigger) (i : nat) (h : Heap) (tx : Transaction) :
  result (main_postings fuel ver triggers i h tx) <> OutOfFuel ->
  (fuel <= fuel')%nat ->
  main_postings fuel' ver triggers i h tx = main_postings fuel ver triggers i h tx.
Proof.
  revert fuel' i h tx. induction fuel as [|fuel IH]; intros fuel' i h tx Hres Hle.
  - contradiction Hres. reflexivity.
  - destruct fuel' as [|fuel']; [lia|]. cbn [main_postings] in Hres |- *.
    destruct (Transaction.Postings tx !! i) as [p|]; [|reflexivity].
    apply bind_ext. intros [h1 tx1] Htr.
    pose proof (result_bind_fuel_inv _ _ _ Hres Htr) as Hk. simpl in Hk.
    destruct (ceiling ver <? length (Transaction.Postings tx1))%nat; [reflexivity|].
    apply IH; [exact Hk|lia].
Qed.

Lemma main_rewrite_fuel (fuel : nat) (ver : Version) (triggers : list Trigger)
    (transactions : list Transaction) (h : Heap) :
  (ceiling ver < fuel)%nat ->
  result (main_rewrite fuel ver triggers transactions h) <> OutOfFuel.
Proof.
  intros Hfuel. revert h. induction transactions as [|tx transactions IH]; intros h.
  - discriminate.
  - cbn [main_rewrite]. apply result_bind_fuel; [apply main_postings_fuel; lia|].
    intros [h1 tx1] _. apply result_bind_fuel; [apply IH|].
    intros [h2 transactions1] _. discriminate.
Qed.

Lemma main_rewrite_more_fuel (fuel fuel' : nat) (ver : Version)
    (triggers : list Trigger) (transactions : list Transaction) (h : Heap) :
  (ceiling ver < fuel)%nat ->
  (fuel <= fuel')%nat ->
  main_rewrite fuel' ver triggers transactions h
  = main_rewrite fuel ver triggers transactions h.
Proof.
  intros Hfuel Hle. revert h.
  induction transactions as [|tx transactions IH]; intros h.
  - reflexivity.
  - cbn [main_rewrite].
    rewrite (main_postings_more_fuel fuel fuel'); [|apply main_postings_fuel; lia|exact Hle].
    apply bind_ext. intros [h1 tx1] _. rewrite IH. reflexivity.
Qed.

(** A run of the loop over the postings that ends at the cycle guard ends
    the loop over the transactions there: the transactions after it are not
    rewritten. *)
Lemma main_rewrite_cycle (fuel : nat) (ver : Version) (triggers : list Trigger)
    (tx : Transaction) (transactions : list Transaction) (h : Heap) :
  result (main_postings fuel ver triggers 0 h tx) = cycleOutcome ver ->
  main_rewrite fuel ver triggers (tx :: transactions) h
  = Run (trace (main_postings fuel ver triggers 0 h tx)) (cycleOutcome ver).
Proof.
  intros Hr. cbn [main_rewrite]. unfold mbind at 1, M_bind at 1. rewrite Hr.
  unfold cycleOutcome. destruct (cycleAction ver); reflexivity.
Qed.

Lemma main_postings_guard (fuel : nat) (ver : Version) (triggers : list Trigger)
    (i : nat) (h : Heap) (tx : Transaction) (p : loc) (h1 : Heap) (tx1 : Transaction) :
  Transaction.Postings tx !! i = Some p ->
  result (main_triggers triggers i p h tx) = Done (h1, tx1) ->
  result (main_postings (S fuel) ver triggers i h tx)
  = if (ceiling ver <? length (Transaction.Postings tx1))%nat
    then cycleOutcome ver
    else result (main_postings fuel ver triggers (S i) h1 tx1).
Proof.
  intros Hp Htr. cbn [main_postings]. rewrite Hp.
  unfold mbind, M_bind. rewrite Htr. simpl.
  destruct (ceiling ver <? length (Transaction.Postings tx1))%nat; [|reflexivity].
  apply onCycle_result.
Qed.

(** C4. The rewrite loop ends: with more iterations allowed than the
    ceiling, the run of every transaction list under every trigger set has an
    outcome, the same however many more are allowed.  After each index, with
    everything appended for it, the number of postings is compared with the
    ceiling; above it the run ends there with the cycle error (a panic in
    part_001, the printed transaction and exit status 1 in part_002) and no
    later transaction is rewritten.  Two triggers that generate each other's
    accounts end in that error in both versions. *)
Theorem rewrite_terminates_cycle :
  (forall (ver : Version) (triggers : list Trigger) (transactions : list Transaction)
          (h : Heap) (fuel : nat),
     (ceiling ver < fuel)%nat ->
     result (main_rewrite fuel ver triggers transactions h) <> OutOfFuel /\
     main_rewrite fuel ver triggers transactions h
     = main_rewrite (S (ceiling ver)) ver triggers transactions h)
  /\
  (forall (fuel : nat) (ver : Version) (triggers : list Trigger) (i : nat) (h : Heap)
          (tx : Transaction) (p : loc) (h1 : Heap) (tx1 : Transaction),
     Transaction.Postings tx !! i = Some p ->
     result (main_triggers triggers i p h tx) = Done (h1, tx1) ->
     result (main_postings (S fuel) ver triggers i h tx)
     = if (ceiling ver <? length (Transaction.Postings tx1))%nat
       then cycleOutcome ver
       else result (main_postings fuel ver triggers (S i) h1 tx1))
  /\
  (forall (fuel : nat) (ver : Version) (triggers : list Trigger) (tx : Transaction)
          (transactions : list Transaction) (h : Heap),
     result (main_postings fuel ver triggers 0 h tx) = cycleOutcome ver ->
     main_rewrite fuel ver triggers (tx :: transactions) h
     = Run (trace (main_postings fuel ver triggers 0 h tx)) (cycleOutcome ver))
  /\
  result (main_rewrite 1001 part_001 [mutualA; mutualB] [salary] salary_heap)
  = Panicked "posting cycle detected"
  /\
  result (main_rewrite 101 part_002 [mutualA; mutualB] [salary] salary_heap)
  = Exited 1
  /\
  (exists (tx : Transaction) (h : Heap),
     last (trace (main_rewrite 101 part_002 [mutualA; mutualB] [salary] salary_heap))
     = Some (PrintCycle tx h) /\
     length (Transaction.Postings tx) = 101%nat).
Proof.
  split; [|split; [|split; [|split; [|split]]]].
  - intros ver triggers transactions h fuel Hfuel. split.
    + apply main_rewrite_fuel. exact Hfuel.
    + apply main_rewrite_more_fuel; lia.
  - exact main_postings_guard.
  - exact main_rewrite_cycle.
  - vm_compute. reflexivity.
  - vm_compute. reflexivity.
  - eexists _, _. split; vm_compute; reflexivity.
Qed.

Lemma rewrite_terminates_cycle_witness :
  result (main_rewrite 150 part_002 [mutualA; mutualB] [salary] salary_heap) <> OutOfFuel /\
  main_rewrite 150 part_002 [mutualA; mutualB] [salary] salary_heap
  = main_rewrite (S (ceiling part_002)) part_002 [mutualA; mutualB] [salary] salary_heap.
Proof.
  apply (proj1 rewrite_terminates_cycle part_002 [mutualA; mutualB] [salary] salary_heap 150%nat).
  simpl. lia.
Defined.

(** ** The rewrite loop and unset amounts *)

Lemma Execute_elided (a : Action) (h : Heap) (p : loc) (m : gmap string string)
    (v : Posting) :
  h !! p = Some v -> Posting.Amount v = None ->
  Action.Execute a h p m = Panic nilDeref.
Proof.
  intros Hp Hv. unfold Action.Execute. rewrite (deref_Some _ _ _ Hp). simpl.
  rewrite Hv. reflexivity.
Qed.

Lemma main_actions_elided (tr : Trigger) (i : nat) (p : loc) (m : gmap string string)
    (a : Action) (actions : list Action) (h : Heap) (tx : Transaction) (v : Posting) :
  h !! p = Some v -> Posting.Amount v = None ->
  result (main_actions tr i p m (a :: actions) h tx) = Panicked nilDeref.
Proof.
  intros Hp Hv. cbn [main_actions].
  rewrite (Execute_elided a h p m v Hp Hv). reflexivity.
Qed.

Lemma validPointers_grow (h h' : Heap) (tx : Transaction) :
  (length h <= length h')%nat -> validPointers h tx -> validPointers h' tx.
Proof.
  intros Hle Hval. unfold validPointers.
  eapply Forall_impl; [exact Hval|]. simpl. intros l Hl. lia.
Qed.

Lemma amountsSet_provenance (h : Heap) (n : Posting) (g f : Z) :
  amountsSet h -> is_Some (Posting.Amount n) ->
  amountsSet (alter (Posting.setFrom f) (length h)
                (alter (Posting.setGeneratedBy g) (length h) (h ++ [n]))).
Proof.
  intros Hh Hn. unfold amountsSet.
  apply Forall_alter; [|intros x _ Hx; exact Hx].
  apply Forall_alter; [|intros x _ Hx; exact Hx].
  apply Forall_app. split; [exact Hh|]. constructor; [exact Hn|constructor].
Qed.

Lemma main_actions_total (tr : Trigger) (i : nat) (p : loc) (m : gmap string string)
    (actions : list Action) (h : Heap) (tx : Transaction) :
  amountsSet h -> (p < length h)%nat -> validPointers h tx ->
  exists h' tx',
    result (main_actions tr i p m actions h tx) = Done (h', tx') /\
    amountsSet h' /\ validPointers h' tx' /\ (length h <= length h')%nat.
Proof.
  revert h tx. induction actions as [|a actions IH]; intros h tx Hset Hp Hval.
  - exists h, tx. split; [reflexivity|]. split; [exact Hset|]. split; [exact Hval|lia].
  - destruct (lookup_lt_is_Some_2 h p Hp) as [v Hv].
    destruct (Forall_lookup_1 _ _ _ _ Hset Hv) as [d Hd].
    cbn [main_actions]. rewrite (Execute_set a h p v d m Hv Hd).
    set (n := Posting.mk (Action.Type_ a)
                (regexp.replacePlaceholders (Action.replace v m) 0 (Action.Account a))
                (Some (decimal.Mul d (Action.Amount a))) EmptyString 0 0).
    set (h3 := alter (Posting.setFrom (Z.of_nat i + 1)) (length h)
                 (alter (Posting.setGeneratedBy (Trigger.ID tr)) (length h) (h ++ [n]))).
    set (tx1 := Transaction.setPostings (Transaction.Postings tx ++ [length h]) tx).
    assert (Hlen : length h3 = S (length h)).
    { unfold h3. rewrite !length_alter, length_app. simpl. lia. }
    destruct (IH h3 tx1) as (h' & tx' & Hres & Hset' & Hval' & Hle).
    + apply amountsSet_provenance; [exact Hset|]. simpl. eauto.
    + lia.
    + unfold validPointers, tx1. simpl. apply Forall_app. split.
      * apply (validPointers_grow h h3 tx); [lia|exact Hval].
      * constructor; [lia|constructor].
    + exists h', tx'. split; [|split; [exact Hset'|split; [exact Hval'|lia]]].
      exact Hres.
Qed.

Lemma result_bind_intro {A B : Type} (m : M A) (k : A -> M B) (a : A) :
  result m = Done a -> result (m ≫= k) = result (k a).
Proof. unfold mbind, M_bind. intros ->. reflexivity. Qed.

Lemma main_triggers_total (triggers : list Trigger) (i : nat) (p : loc)
    (h : Heap) (tx : Transaction) :
  matchersTotal triggers ->
  amountsSet h -> (p < length h)%nat -> validPointers h tx ->
  exists h' tx',
    result (main_triggers triggers i p h tx) = Done (h', tx') /\
    amountsSet h' /\ validPointers h' tx' /\ (length h <= length h')%nat.
Proof.
  revert h tx. induction triggers as [|tr triggers IH]; intros h tx Htot Hset Hp Hval.
  - exists h, tx. split; [reflexivity|]. split; [exact Hset|]. split; [exact Hval|lia].
  - assert (Htot' : matchersTotal triggers).
    { intros tr' Hin. apply Htot. set_solver. }
    destruct (lookup_lt_is_Some_2 h p Hp) as [v Hv].
    cbn [main_triggers]. rewrite (deref_Some _ _ _ Hv).
    rewrite (result_bind_intro (lift (Ret v)) _ v eq_refl).
    destruct (Posting.GeneratedBy v =? Trigger.ID tr)%Z; [apply IH; assumption|].
    rewrite (result_bind_intro (emit _) _ tt eq_refl).
    destruct (Htot tr ltac:(set_solver) h tx p ltac:(eauto)) as [[b m] Hm].
    rewrite Hm. rewrite (result_bind_intro (lift (Ret (b, m))) _ (b, m) eq_refl).
    destruct b; simpl; [|apply IH; assumption].
    destruct (main_actions_total tr i p m (Trigger.Actions tr) h tx Hset Hp Hval)
      as (h1 & tx1 & Hres1 & Hset1 & Hval1 & Hle1).
    rewrite (result_bind_intro _ _ _ Hres1).
    destruct (IH h1 tx1 Htot' Hset1 ltac:(lia) Hval1)
      as (h' & tx' & Hres & Hset' & Hval' & Hle).
    exists h', tx'. split; [exact Hres|]. split; [exact Hset'|]. split; [exact Hval'|lia].
Qed.

Lemma main_postings_total (fuel : nat) (ver : Version) (triggers : list Trigger)
    (i : nat) (h : Heap) (tx : Transaction) :
  (ceiling ver - i < fuel)%nat ->
  matchersTotal triggers -> amountsSet h -> validPointers h tx ->
  result (main_postings fuel ver triggers i h tx) = cycleOutcome ver \/
  exists h' tx',
    result (main_postings fuel ver triggers i h tx) = Done (h', tx') /\
    amountsSet h' /\ validPointers h' tx' /\ (length h <= length h')%nat.
Proof.
  revert i h tx. induction fuel as [|fuel IH]; intros i h tx Hfuel Htot Hset Hval; [lia|].
  cbn [main_postings].
  destruct (Transaction.Postings tx !! i) as [p|] eqn:Hp.
  2:{ right. exists h, tx. split; [reflexivity|]. split; [exact Hset|].
      split; [exact Hval|lia]. }
  assert (Hlt : (p < length h)%nat) by exact (Forall_lookup_1 _ _ _ _ Hval Hp).
  destruct (main_triggers_total triggers i p h tx Htot Hset Hlt Hval)
    as (h1 & tx1 & Hres1 & Hset1 & Hval1 & Hle1).
  rewrite (result_bind_intro _ _ _ Hres1).
  destruct (Nat.ltb_spec (ceiling ver) (length (Transaction.Postings tx1))) as [Hgt|Hle].
  - left. apply onCycle_result.
  - destruct (IH (S i) h1 tx1) as [Hc|(h' & tx' & Hres & Hset' & Hval' & Hle')];
      try assumption.
    + apply main_triggers_frame in Hres1 as [_ [added Hadd]].
      apply lookup_lt_Some in Hp. rewrite Hadd, length_app in Hle. lia.
    + left. exact Hc.
    + right. exists h', tx'. split; [exact Hres|]. split; [exact Hset'|].
      split; [exact Hval'|lia].
Qed.

Lemma main_rewrite_total (fuel : nat) (ver : Version) (triggers : list Trigger)
    (transactions : list Transaction) (h : Heap) :
  (ceiling ver < fuel)%nat ->
  matchersTotal triggers -> amountsSet h ->
  Forall (validPointers h) transactions ->
  result (main_rewrite fuel ver triggers transactions h) = cycleOutcome ver \/
  exists h' transactions',
    result (main_rewrite fuel ver triggers transactions h) = Done (h', transactions') /\
    amountsSet h' /\ (length h <= length h')%nat.
Proof.
  intros Hfuel Htot. revert h.
  induction transactions as [|tx transactions IH]; intros h Hset Hval.
  - right. exists h, []. split; [reflexivity|]. split; [exact Hset|lia].
  - apply Forall_cons in Hval as [Hval Hvals]. cbn [main_rewrite].
    destruct (main_postings_total fuel ver triggers 0 h tx ltac:(lia) Htot Hset Hval)
      as [Hc|(h1 & tx1 & Hres1 & Hset1 & _ & Hle1)].
    + left. unfold mbind at 1, M_bind at 1. rewrite Hc.
      unfold cycleOutcome. destruct (cycleAction ver); reflexivity.
    + rewrite (result_bind_intro _ _ _ Hres1).
      destruct (IH h1 Hset1) as [Hc|(h' & txs' & Hres & Hset' & Hle')].
      * eapply Forall_impl; [exact Hvals|]. intros tx'.
        apply validPointers_grow. exact Hle1.
      * left. unfold mbind at 1, M_bind at 1. rewrite Hc.
        unfold cycleOutcome. destruct (cycleAction ver); reflexivity.
      * right. exists h', (tx1 :: txs'). split; [|split; [exact Hset'|lia]].
        rewrite (result_bind_intro _ _ _ Hres). reflexivity.
Qed.

Lemma regexpTrigger_total (id : Z) (r : regexp.Regexp) (actions : list Action)
    (h : Heap) (tx : Transaction) (p : loc) :
  is_Some (h !! p) ->
  exists res, Trigger.Match (regexpTrigger id r actions) h tx p = Ret res.
Proof.
  intros [v Hv]. unfold Trigger.Match, regexpTrigger. simpl.
  unfold RegexpMatcher.Match. rewrite (deref_Some _ _ _ Hv). simpl.
  destruct (regexp.MatchString r (Posting.Account v)); simpl; eauto.
Qed.

(** C10. [Execute] dereferences the amount of the source posting whatever it
    is: on an unset amount it panics, and so does the loop over the actions
    of a trigger that matched such a posting.  With every amount set (and
    valid pointers, and matchers that return) the rewrite loop ends normally
    or at the cycle guard.  [main] rewrites before it balances: on the
    paycheck, whose elided posting a trigger matches, it panics in the
    rewrite loop, though without triggers the balancer fills the amount. *)
Theorem rewrite_needs_amounts :
  (forall (a : Action) (h : Heap) (p : loc) (m : gmap string string) (v : Posting),
     h !! p = Some v -> Posting.Amount v = None ->
     Action.Execute a h p m = Panic nilDeref)
  /\
  (forall (tr : Trigger) (i : nat) (p : loc) (m : gmap string string) (a : Action)
          (actions : list Action) (h : Heap) (tx : Transaction) (v : Posting),
     h !! p = Some v -> Posting.Amount v = None ->
     result (main_actions tr i p m (a :: actions) h tx) = Panicked nilDeref)
  /\
  (forall (fuel : nat) (ver : Version) (triggers : list Trigger)
          (transactions : list Transaction) (h : Heap),
     (ceiling ver < fuel)%nat ->
     matchersTotal triggers -> amountsSet h ->
     Forall (validPointers h) transactions ->
     result (main_rewrite fuel ver triggers transactions h) = cycleOutcome ver \/
     exists h' transactions',
       result (main_rewrite fuel ver triggers transactions h) = Done (h', transactions') /\
       amountsSet h' /\ (length h <= length h')%nat)
  /\
  result (main_process 1001 part_001 false false [mutualA] [paycheck] paycheck_heap)
  = Panicked nilDeref
  /\
  (exists h' : Heap,
     result (main_process 1001 part_001 true false [mutualA] [paycheck] paycheck_heap)
     = Done (h', [paycheck]) /\
     (Posting.Amount <$> h')
     = [Some (decimal.NewFromInt 1000); Some (decimal.NewFromInt (-1000))]).
Proof.
  split; [exact Execute_elided|].
  split; [exact main_actions_elided|].
  split; [exact main_rewrite_total|].
  split; [vm_compute; reflexivity|].
  eexists. split; vm_compute; reflexivity.
Qed.

Lemma rewrite_needs_amounts_witness :
  result (main_rewrite 1001 part_001 [selfTrigger] [salary] salary_heap)
  = cycleOutcome part_001 \/
  exists h' transactions',
    result (main_rewrite 1001 part_001 [selfTrigger] [salary] salary_heap)
    = Done (h', transactions') /\
    amountsSet h' /\ (length salary_heap <= length h')%nat.
Proof.
  apply (proj1 (proj2 (proj2 rewrite_needs_amounts))).
  - simpl. lia.
  - intros tr Htr. apply list_elem_of_singleton in Htr as ->.
    apply regexpTrigger_total.
  - repeat constructor; simpl; eauto.
  - repeat constructor; simpl; lia.
Defined.

(** ** The balance loop of [main] *)

(** C7 fails on the code: imbalance errors are meant to be collected over
    all transactions, but after [AutoBalance] has refused a transaction
    with two elided real postings, [main] still calls [Balance] on it, which
    dereferences the amount that was never filled.  The lunch is reported,
    the process panics, and the dinner is never checked; two transactions
    that only fail the balance check are both reported before exit status 1. *)
Theorem main_balance_panics_after_elision :
  main_balance [twoElided; dinner] ledger_heap
  = Run [PrintError errElided twoElided ledger_heap] (Panicked nilDeref)
  /\
  main_balance [unbalanced; dinner] residual_heap
  = Run [PrintError (errBalance (decimal.NewFromInt 10)) unbalanced residual_heap;
         PrintError (errBalance (decimal.NewFromInt 10)) dinner residual_heap]
        (Exited 1).
Proof. split; reflexivity. Qed.

(** * Further properties of the balancer *)

Lemma sumQ_app (ds es : list decimal.Decimal) :
  sumQ (ds ++ es) == sumQ ds + sumQ es.
Proof.
  unfold sumQ. induction ds as [|d ds IH]; simpl.
  - ring.
  - rewrite IH. ring.
Qed.

Lemma sumQ_cons (d : decimal.Decimal) (ds : list decimal.Decimal) :
  sumQ (d :: ds) == decimal.toQ d + sumQ ds.
Proof. reflexivity. Qed.

Lemma amounts_cons (v : Posting) (vs : list Posting) :
  amounts (v :: vs)
  = match Posting.Amount v with
    | Some d => d :: amounts vs
    | None => amounts vs
    end.
Proof. reflexivity. Qed.

Lemma virtualOnes_cons (v : Posting) (vs : list Posting) :
  virtualOnes (v :: vs)
  = if decide (Posting.Type_ v = VirtualPosting) then v :: virtualOnes vs
    else virtualOnes vs.
Proof. unfold virtualOnes. rewrite filter_cons. reflexivity. Qed.

Lemma sumQ_split (vs : list Posting) :
  sumQ (amounts vs)
  == sumQ (amounts (notVirtual vs)) + sumQ (amounts (virtualOnes vs)).
Proof.
  induction vs as [|v vs IH].
  - reflexivity.
  - rewrite notVirtual_cons, virtualOnes_cons.
    destruct (decide (Posting.Type_ v = VirtualPosting)) as [He|Hne];
      rewrite !amounts_cons; destruct (Posting.Amount v) as [d|];
      rewrite ?sumQ_cons, IH; ring.
Qed.

(** What the loop of [AutoBalance] has seen when it ends without error. *)
Lemma AutoBalance_loop_inv (h : Heap) (ps : list loc) (vs : list Posting)
    (toFill toFill' : option loc) (total total' : decimal.Decimal) :
  pointsTo h ps vs ->
  Transaction.AutoBalance_loop h ps toFill total = Ret (inr (toFill', total')) ->
  (toFill' = toFill /\ Forall (fun v => is_Some (Posting.Amount v)) vs) \/
  (toFill = None /\
   exists i v, vs !! i = Some v /\ Posting.Amount v = None /\
     forall j w, j <> i -> vs !! j = Some w -> is_Some (Posting.Amount w)).
Proof.
  intros Hpt. revert toFill total.
  induction Hpt as [|l v ps vs Hl Hpt IH]; intros toFill total H.
  - simpl in H. injection H as <- <-. left. split; [reflexivity|constructor].
  - simpl in H. rewrite (deref_Some _ _ _ Hl) in H. simpl in H.
    destruct (Posting.Amount v) as [d|] eqn:Hd.
    + destruct (IH _ _ H) as [[-> Hset]|[-> (i & w & Hi & Hw & Hothers)]].
      * left. split; [reflexivity|]. constructor; [rewrite Hd; eauto|exact Hset].
      * right. split; [reflexivity|]. exists (S i), w. split; [exact Hi|].
        split; [exact Hw|]. intros [|j] x Hj Hx; simpl in Hx.
        -- injection Hx as <-. rewrite Hd. eauto.
        -- apply (Hothers j x); [lia|exact Hx].
    + destruct toFill as [l0|]; [discriminate H|].
      destruct (IH _ _ H) as [[-> Hset]|[Hn _]]; [|discriminate Hn].
      right. split; [reflexivity|]. exists 0%nat, v. split; [reflexivity|].
      split; [exact Hd|]. intros [|j] x Hj Hx; [lia|]. simpl in Hx.
      exact (Forall_lookup_1 _ _ _ _ Hset Hx).
Qed.

(** X1. Auto-balance is idempotent: when [AutoBalance] has succeeded, a second
    call on the resulting store succeeds and writes nothing. *)
Theorem AutoBalance_idempotent (h : Heap) (tx : Transaction) (vs : list Posting)
    (h' : Heap) :
  pointsTo h (Transaction.Postings tx) vs ->
  Transaction.AutoBalance h tx = Ret (h', None) ->
  Transaction.AutoBalance h' tx = Ret (h', None).
Proof.
  intros Hpt H. pose proof H as H0. unfold Transaction.AutoBalance in H.
  destruct (Transaction.AutoBalance_loop h (Transaction.Postings tx) None decimal.Zero)
    as [[err|[toFill total]]|msg] eqn:Hloop; simpl in H; try discriminate H.
  destruct (AutoBalance_loop_inv _ _ _ _ _ _ _ Hpt Hloop)
    as [[-> Hset]|[_ (i & v & Hi & Hv & Hothers)]].
  - injection H as <-. exact H0.
  - destruct (AutoBalance_one h tx vs i v Hpt Hi Hv Hothers)
      as (l & t & Hl & _ & _ & Hrun & Hpt').
    rewrite Hrun in H0. injection H0 as <-.
    unfold Transaction.AutoBalance.
    rewrite (AutoBalance_loop_set _ _ _ None decimal.Zero Hpt'); [reflexivity|].
    apply Forall_lookup. intros j w Hw.
    destruct (decide (j = i)) as [->|Hne].
    + rewrite list_lookup_insert_eq in Hw by exact (lookup_lt_Some _ _ _ Hi).
      injection Hw as <-. simpl. eauto.
    + rewrite list_lookup_insert_ne in Hw by congruence.
      exact (Hothers j w Hne Hw).
Qed.

Lemma AutoBalance_idempotent_witness :
  Transaction.AutoBalance
    (<[1%nat := Posting.mk RealPosting "Income:Salary"
                  (Some (decimal.NewFromInt (-1000))) EmptyString 0 0]> paycheck_heap)
    paycheck
  = Ret (<[1%nat := Posting.mk RealPosting "Income:Salary"
                      (Some (decimal.NewFromInt (-1000))) EmptyString 0 0]> paycheck_heap,
         None).
Proof.
  apply (AutoBalance_idempotent paycheck_heap paycheck paycheck_heap).
  - repeat constructor.
  - reflexivity.
Defined.

Lemma notVirtual_app (vs ws : list Posting) :
  notVirtual (vs ++ ws) = notVirtual vs ++ notVirtual ws.
Proof. unfold notVirtual. apply filter_app. Qed.

Lemma amounts_app (vs ws : list Posting) :
  amounts (vs ++ ws) = amounts vs ++ amounts ws.
Proof. unfold amounts. apply omap_app. Qed.

(** The sum that the balance check makes once the posting at index [i] has
    been replaced by [v']. *)
Lemma sumQ_notVirtual_insert (vs : list Posting) (i : nat) (v v' : Posting) :
  vs !! i = Some v ->
  sumQ (amounts (notVirtual (<[i := v']> vs)))
  == sumQ (amounts (notVirtual [v'])) + sumQ (amounts (notVirtual (delete i vs))).
Proof.
  intros Hi. pose proof (lookup_lt_Some _ _ _ Hi) as Hlt.
  rewrite (insert_take_drop vs i v' Hlt), (delete_take_drop vs i).
  change (v' :: drop (S i) vs) with ([v'] ++ drop (S i) vs).
  rewrite !notVirtual_app, !amounts_app, !sumQ_app. ring.
Qed.

(** X2. After [AutoBalance] has filled the amount of a posting that is not
    virtual, [Balance] succeeds exactly when the virtual postings of the
    transaction add up to zero: the fill counts them, the check does not. *)
Theorem AutoBalance_then_Balance (h : Heap) (tx : Transaction) (vs : list Posting)
    (i : nat) (v : Posting) :
  pointsTo h (Transaction.Postings tx) vs ->
  vs !! i = Some v ->
  Posting.Amount v = None ->
  Posting.Type_ v <> VirtualPosting ->
  (forall j w, j <> i -> vs !! j = Some w -> is_Some (Posting.Amount w)) ->
  exists h' : Heap,
    Transaction.AutoBalance h tx = Ret (h', None) /\
    (Transaction.Balance h' tx = Ret None
     <-> sumQ (amounts (virtualOnes (delete i vs))) == 0).
Proof.
  intros Hpt Hi Hv Hreal Hothers.
  destruct (AutoBalance_one h tx vs i v Hpt Hi Hv Hothers)
    as (l & total & Hl & _ & Htotal & Hrun & Hpt').
  eexists. split; [exact Hrun|].
  set (v' := Posting.setAmount (Some total) v) in *.
  assert (Hset : Forall (fun w => is_Some (Posting.Amount w)) (<[i := v']> vs)).
  { apply Forall_lookup. intros j w Hw. destruct (decide (j = i)) as [->|Hne].
    - rewrite list_lookup_insert_eq in Hw by exact (lookup_lt_Some _ _ _ Hi).
      injection Hw as <-. simpl. eauto.
    - rewrite list_lookup_insert_ne in Hw by congruence. exact (Hothers j w Hne Hw). }
  destruct (Balance_iff_zero _ tx _ Hpt' Hset) as [Hiff _]. rewrite Hiff.
  rewrite (sumQ_notVirtual_insert vs i v v' Hi).
  assert (Hv' : sumQ (amounts (notVirtual [v'])) == decimal.toQ total).
  { rewrite notVirtual_cons. rewrite decide_False by exact Hreal.
    unfold sumQ. simpl. apply Qplus_0_r. }
  rewrite Hv', Htotal, (sumQ_split (delete i vs)).
  set (nv := sumQ (amounts (notVirtual (delete i vs)))).
  set (vt := sumQ (amounts (virtualOnes (delete i vs)))).
  assert (E : - (nv + vt) + nv == - vt) by ring.
  rewrite E. split; intros H0.
  - rewrite <- (Qopp_opp vt), H0. reflexivity.
  - rewrite H0. reflexivity.
Qed.

Lemma AutoBalance_then_Balance_witness :
  exists h' : Heap,
    Transaction.AutoBalance paycheck_heap paycheck = Ret (h', None) /\
    (Transaction.Balance h' paycheck = Ret None
     <-> sumQ (amounts (virtualOnes (delete 1%nat paycheck_heap))) == 0).
Proof.
  apply (AutoBalance_then_Balance paycheck_heap paycheck paycheck_heap 1%nat
           (Posting.mk RealPosting "Income:Salary" None EmptyString 0 0)).
  - repeat constructor.
  - reflexivity.
  - reflexivity.
  - discriminate.
  - intros [|[|j]] w Hj Hw; simpl in Hw.
    + injection Hw as <-. simpl. eauto.
    + lia.
    + discriminate Hw.
Defined.

(** X3. Filling the elided amount of a virtual posting does not help the
    balance check: after [AutoBalance], [Balance] succeeds exactly when the
    other postings that are not virtual add up to zero by themselves. *)
Theorem AutoBalance_virtual_then_Balance (h : Heap) (tx : Transaction)
    (vs : list Posting) (i : nat) (v : Posting) :
  pointsTo h (Transaction.Postings tx) vs ->
  vs !! i = Some v ->
  Posting.Amount v = None ->
  Posting.Type_ v = VirtualPosting ->
  (forall j w, j <> i -> vs !! j = Some w -> is_Some (Posting.Amount w)) ->
  exists h' : Heap,
    Transaction.AutoBalance h tx = Ret (h', None) /\
    (Transaction.Balance h' tx = Ret None
     <-> sumQ (amounts (notVirtual (delete i vs))) == 0).
Proof.
  intros Hpt Hi Hv Hvirt Hothers.
  destruct (AutoBalance_one h tx vs i v Hpt Hi Hv Hothers)
    as (l & total & Hl & _ & Htotal & Hrun & Hpt').
  eexists. split; [exact Hrun|].
  set (v' := Posting.setAmount (Some total) v) in *.
  assert (Hset : Forall (fun w => is_Some (Posting.Amount w)) (<[i := v']> vs)).
  { apply Forall_lookup. intros j w Hw. destruct (decide (j = i)) as [->|Hne].
    - rewrite list_lookup_insert_eq in Hw by exact (lookup_lt_Some _ _ _ Hi).
      injection Hw as <-. simpl. eauto.
    - rewrite list_lookup_insert_ne in Hw by congruence. exact (Hothers j w Hne Hw). }
  destruct (Balance_iff_zero _ tx _ Hpt' Hset) as [Hiff _]. rewrite Hiff.
  rewrite (sumQ_notVirtual_insert vs i v v' Hi).
  assert (Hv' : sumQ (amounts (notVirtual [v'])) == 0).
  { rewrite notVirtual_cons. rewrite decide_True by exact Hvirt. reflexivity. }
  rewrite Hv', Qplus_0_l. reflexivity.
Qed.

Lemma AutoBalance_virtual_then_Balance_witness :
  exists h' : Heap,
    Transaction.AutoBalance budget_heap budget = Ret (h', None) /\
    (Transaction.Balance h' budget = Ret None
     <-> sumQ (amounts (notVirtual (delete 2%nat budget_heap))) == 0).
Proof.
  apply (AutoBalance_virtual_then_Balance budget_heap budget budget_heap 2%nat
           (Posting.mk VirtualPosting "Budget:Food" None EmptyString 0 0)).
  - repeat constructor.
  - reflexivity.
  - reflexivity.
  - reflexivity.
  - intros [|[|[|j]]] w Hj Hw; simpl in Hw.
    + injection Hw as <-. simpl. eauto.
    + injection Hw as <-. simpl. eauto.
    + lia.
    + discriminate Hw.
Defined.

(** The loop of [Balance] reads the postings that are not virtual, and
    nothing else. *)
Lemma Balance_loop_addAmounts (h : Heap) (ps : list loc) (vs : list Posting)
    (total : decimal.Decimal) :
  pointsTo h ps vs ->
  Transaction.Balance_loop h ps total = addAmounts (notVirtual vs) total.
Proof.
  intros Hpt. revert total.
  induction Hpt as [|l v ps vs Hl Hpt IH]; intros total; simpl.
  - reflexivity.
  - rewrite (deref_Some _ _ _ Hl). simpl. rewrite notVirtual_cons.
    destruct (decide (Posting.Type_ v = VirtualPosting)) as [He|Hne].
    + apply IH.
    + simpl. destruct (Posting.Amount v); [apply IH|reflexivity].
Qed.

Lemma addAmounts_unset (vs : list Posting) (total : decimal.Decimal) :
  Exists (fun v => Posting.Amount v = None) vs ->
  addAmounts vs total = Panic nilDeref.
Proof.
  intros Hex. revert total. induction Hex as [v vs Hv|v vs Hex IH]; intros total; simpl.
  - rewrite Hv. reflexivity.
  - destruct (Posting.Amount v); [apply IH|reflexivity].
Qed.

(** X4. [Balance] panics with a nil dereference as soon as a posting that is
    not virtual has no amount: it is only safe after a successful
    [AutoBalance] (or on a ledger without elided amounts). *)
Theorem Balance_unset_panics (h : Heap) (tx : Transaction) (vs : list Posting) :
  pointsTo h (Transaction.Postings tx) vs ->
  Exists (fun v => Posting.Type_ v <> VirtualPosting /\ Posting.Amount v = None) vs ->
  Transaction.Balance h tx = Panic nilDeref.
Proof.
  intros Hpt Hex. unfold Transaction.Balance.
  rewrite (Balance_loop_addAmounts _ _ _ _ Hpt), addAmounts_unset; [reflexivity|].
  apply Exists_exists in Hex as (v & Hin & Hne & Hv).
  apply Exists_exists. exists v. split; [|exact Hv].
  unfold notVirtual. apply list_elem_of_filter. split; [exact Hne|exact Hin].
Qed.

Lemma Balance_unset_panics_witness :
  Transaction.Balance twoElided_heap twoElided = Panic nilDeref.
Proof.
  apply (Balance_unset_panics twoElided_heap twoElided twoElided_heap).
  - repeat constructor.
  - apply Exists_cons_hd. split; [discriminate|reflexivity].
Defined.

(** X5. [Balance] never looks at a virtual posting: two transactions whose
    postings other than the virtual ones are the same, in the same order,
    get the same answer, whatever their virtual postings are (their amounts
    may even be unset). *)
Theorem Balance_ignores_virtual (h1 h2 : Heap) (tx1 tx2 : Transaction)
    (vs1 vs2 : list Posting) :
  pointsTo h1 (Transaction.Postings tx1) vs1 ->
  pointsTo h2 (Transaction.Postings tx2) vs2 ->
  notVirtual vs1 = notVirtual vs2 ->
  Transaction.Balance h1 tx1 = Transaction.Balance h2 tx2.
Proof.
  intros H1 H2 Heq. unfold Transaction.Balance.
  rewrite (Balance_loop_addAmounts _ _ _ _ H1), (Balance_loop_addAmounts _ _ _ _ H2), Heq.
  reflexivity.
Qed.

Lemma Balance_ignores_virtual_witness :
  Transaction.Balance unbalanced_heap unbalanced
  = Transaction.Balance (take 2 unbalanced_heap)
      (Transaction.setPostings [0%nat; 1%nat] unbalanced).
Proof.
  apply (Balance_ignores_virtual unbalanced_heap (take 2 unbalanced_heap)
           unbalanced (Transaction.setPostings [0%nat; 1%nat] unbalanced)
           unbalanced_heap (take 2 unbalanced_heap)).
  - repeat constructor.
  - repeat constructor.
  - reflexivity.
Defined.

(** * Further properties of the rewrite loop *)

Lemma bind_mret_l {A B : Type} (a : A) (k : A -> M B) : mret a ≫= k = k a.
Proof. unfold mbind, M_bind, mret, M_ret. simpl. destruct (k a); reflexivity. Qed.

(** Without triggers the loop walks over the postings and changes
    nothing. *)
Lemma main_postings_no_triggers (fuel : nat) (ver : Version) (i : nat)
    (h : Heap) (tx : Transaction) :
  (length (Transaction.Postings tx) <= ceiling ver)%nat ->
  (length (Transaction.Postings tx) - i < fuel)%nat ->
  main_postings fuel ver [] i h tx = Run [] (Done (h, tx)).
Proof.
  intros Hle. revert i. induction fuel as [|fuel IH]; intros i Hfuel; [lia|].
  cbn [main_postings].
  destruct (Transaction.Postings tx !! i) as [p|] eqn:Hp; [|reflexivity].
  apply lookup_lt_Some in Hp.
  cbn [main_triggers]. rewrite bind_mret_l.
  destruct (Nat.ltb_spec (ceiling ver) (length (Transaction.Postings tx))); [lia|].
  apply IH. lia.
Qed.

(** X6. The cycle guard does not need a cycle: with no trigger at all, a
    transaction that has more postings than the ceiling ends the run with
    the cycle error at its first posting; a transaction within the ceiling
    is left as it is. *)
Theorem rewrite_without_triggers (fuel : nat) (ver : Version) (h : Heap)
    (tx : Transaction) :
  ((ceiling ver < length (Transaction.Postings tx))%nat ->
   main_postings (S fuel) ver [] 0 h tx = onCycle ver h tx) /\
  ((length (Transaction.Postings tx) <= ceiling ver)%nat ->
   (length (Transaction.Postings tx) <= fuel)%nat ->
   main_postings (S fuel) ver [] 0 h tx = Run [] (Done (h, tx))).
Proof.
  split.
  - intros Hgt. cbn [main_postings].
    destruct (Transaction.Postings tx !! 0%nat) as [p|] eqn:Hp.
    + cbn [main_triggers]. rewrite bind_mret_l.
      destruct (Nat.ltb_spec (ceiling ver) (length (Transaction.Postings tx)));
        [reflexivity|lia].
    + apply lookup_ge_None in Hp. lia.
  - intros Hle Hfuel. apply main_postings_no_triggers; lia.
Qed.

Lemma rewrite_without_triggers_witness :
  main_postings 101 part_002 [] 0 long_heap long = onCycle part_002 long_heap long /\
  main_postings 1001 part_001 [] 0 long_heap long = Run [] (Done (long_heap, long)).
Proof.
  split.
  - apply (proj1 (rewrite_without_triggers 100 part_002 long_heap long)).
    simpl. lia.
  - apply (proj2 (rewrite_without_triggers 1000 part_001 long_heap long)).
    + simpl. lia.
    + simpl. lia.
Defined.

Lemma provenance_new (h : Heap) (n : Posting) (g f : Z) :
  alter (Posting.setFrom f) (length h)
    (alter (Posting.setGeneratedBy g) (length h) (h ++ [n])) !! length h
  = Some (Posting.setFrom f (Posting.setGeneratedBy g n)).
Proof.
  rewrite !list_lookup_alter_eq.
  rewrite lookup_app_r by lia. rewrite Nat.sub_diag. reflexivity.
Qed.

Lemma generated_mono (triggers : list Trigger) (n n' : nat) (v : Posting) :
  (n <= n')%nat -> generated triggers n v -> generated triggers n' v.
Proof. intros Hle (Htr & Ha & Hf). split; [exact Htr|]. split; [exact Ha|lia]. Qed.

Lemma rewrites_refl (triggers : list Trigger) (h : Heap) (tx : Transaction) :
  rewrites triggers h tx h tx.
Proof.
  split; [reflexivity|]. split; [reflexivity|]. split; [auto|].
  exists 0%nat. split; [lia|]. split; [simpl; symmetry; apply app_nil_r|].
  intros l Hl. lia.
Qed.

Lemma rewrites_trans (triggers : list Trigger) (h h1 h2 : Heap)
    (tx tx1 tx2 : Transaction) :
  rewrites triggers h tx h1 tx1 ->
  rewrites triggers h1 tx1 h2 tx2 ->
  rewrites triggers h tx h2 tx2.
Proof.
  intros (Hd1 & Hs1 & Hf1 & k1 & Hl1 & Hp1 & Hc1) (Hd2 & Hs2 & Hf2 & k2 & Hl2 & Hp2 & Hc2).
  split; [congruence|]. split; [congruence|]. split; [auto|].
  exists (k1 + k2)%nat. split; [lia|]. split.
  - rewrite Hp2, Hp1, Hl1, seq_app, app_assoc. reflexivity.
  - intros l Hl. destruct (Nat.lt_ge_cases l (length h1)) as [Hlt|Hge].
    + destruct (Hc1 l ltac:(lia)) as (v & Hv & Hg).
      exists v. split; [apply Hf2; exact Hv|].
      apply (generated_mono triggers (length (Transaction.Postings tx1))); [|exact Hg].
      rewrite Hp2, length_app. lia.
    + apply Hc2. lia.
Qed.

(** One action executed for the posting at index [i]. *)
Lemma rewrites_step (triggers : list Trigger) (tr : Trigger) (a : Action) (i : nat)
    (p : loc) (m : gmap string string) (h : Heap) (tx : Transaction)
    (h1 : Heap) (pp : loc) :
  tr ∈ triggers ->
  (i < length (Transaction.Postings tx))%nat ->
  Action.Execute a h p m = Ret (h1, pp) ->
  rewrites triggers h tx
    (alter (Posting.setFrom (Z.of_nat i + 1)) pp
       (alter (Posting.setGeneratedBy (Trigger.ID tr)) pp h1))
    (Transaction.setPostings (Transaction.Postings tx ++ [pp]) tx).
Proof.
  intros Htr Hi Hex.
  assert (Hn : exists n, h1 = h ++ [n] /\ pp = length h /\ is_Some (Posting.Amount n)).
  { unfold Action.Execute, deref in Hex.
    destruct (h !! p) as [v|]; [|discriminate Hex]. simpl in Hex.
    destruct (Posting.Amount v) as [d|]; [|discriminate Hex].
    injection Hex as <- <-. eexists. split; [reflexivity|]. split; [reflexivity|].
    simpl. eauto. }
  destruct Hn as (n & -> & -> & Hamt).
  split; [reflexivity|]. split; [reflexivity|]. split.
  - intros l v Hl. apply provenance_frame. exact Hl.
  - exists 1%nat. split; [rewrite !length_alter, length_app; simpl; lia|].
    split; [reflexivity|].
    intros l Hl. rewrite !length_alter, length_app in Hl. simpl in Hl.
    assert (l = length h) as -> by lia.
    eexists. split; [apply provenance_new|]. split; [|split].
    + exists tr. split; [exact Htr|reflexivity].
    + exact Hamt.
    + simpl. rewrite length_app. simpl. lia.
Qed.

Lemma main_actions_rewrites (triggers : list Trigger) (tr : Trigger) (i : nat)
    (p : loc) (m : gmap string string) (actions : list Action) (h : Heap)
    (tx : Transaction) (h' : Heap) (tx' : Transaction) :
  tr ∈ triggers ->
  (i < length (Transaction.Postings tx))%nat ->
  result (main_actions tr i p m actions h tx) = Done (h', tx') ->
  rewrites triggers h tx h' tx'.
Proof.
  intros Htr. revert h tx. induction actions as [|a actions IH]; intros h tx Hi H.
  - simpl in H. injection H as <- <-. apply rewrites_refl.
  - cbn [main_actions] in H.
    apply result_bind_Done in H as ([] & _ & H).
    apply result_bind_Done in H as ([h1 pp] & Hex & H).
    apply result_lift_Done in Hex.
    eapply rewrites_trans; [exact (rewrites_step triggers tr a i p m h tx h1 pp Htr Hi Hex)|].
    apply IH; [|exact H]. simpl. rewrite length_app. lia.
Qed.

Lemma rewrites_length (triggers : list Trigger) (h : Heap) (tx : Transaction)
    (h' : Heap) (tx' : Transaction) :
  rewrites triggers h tx h' tx' ->
  (length (Transaction.Postings tx) <= length (Transaction.Postings tx'))%nat /\
  (length h <= length h')%nat.
Proof.
  intros (_ & _ & _ & k & Hl & Hp & _). rewrite Hp, length_app. lia.
Qed.

Lemma main_triggers_rewrites (triggers todo : list Trigger) (i : nat) (p : loc)
    (h : Heap) (tx : Transaction) (h' : Heap) (tx' : Transaction) :
  (forall tr, tr ∈ todo -> tr ∈ triggers) ->
  (i < length (Transaction.Postings tx))%nat ->
  result (main_triggers todo i p h tx) = Done (h', tx') ->
  rewrites triggers h tx h' tx'.
Proof.
  revert h tx. induction todo as [|tr todo IH]; intros h tx Hsub Hi H.
  - simpl in H. injection H as <- <-. apply rewrites_refl.
  - assert (Hsub' : forall tr', tr' ∈ todo -> tr' ∈ triggers).
    { intros tr' Hin. apply Hsub. set_solver. }
    cbn [main_triggers] in H.
    apply result_bind_Done in H as (v & _ & H).
    destruct (Posting.GeneratedBy v =? Trigger.ID tr)%Z; [exact (IH _ _ Hsub' Hi H)|].
    apply result_bind_Done in H as ([] & _ & H).
    apply result_bind_Done in H as ([b m] & _ & H).
    destruct b; simpl in H; [|exact (IH _ _ Hsub' Hi H)].
    apply result_bind_Done in H as ([h1 tx1] & Hact & H).
    apply (main_actions_rewrites triggers) in Hact; [|apply Hsub; set_solver|exact Hi].
    eapply rewrites_trans; [exact Hact|].
    apply IH; [exact Hsub'| |exact H].
    destruct (rewrites_length _ _ _ _ _ Hact). lia.
Qed.

Lemma main_postings_rewrites (fuel : nat) (ver : Version) (triggers : list Trigger)
    (i : nat) (h : Heap) (tx : Transaction) (h' : Heap) (tx' : Transaction) :
  result (main_postings fuel ver triggers i h tx) = Done (h', tx') ->
  rewrites triggers h tx h' tx'.
Proof.
  revert i h tx. induction fuel as [|fuel IH]; intros i h tx H; [discriminate H|].
  cbn [main_postings] in H.
  destruct (Transaction.Postings tx !! i) as [p|] eqn:Hp.
  2:{ simpl in H. injection H as <- <-. apply rewrites_refl. }
  apply result_bind_Done in H as ([h1 tx1] & Htr & H).
  apply (main_triggers_rewrites triggers) in Htr;
    [|auto|exact (lookup_lt_Some _ _ _ Hp)].
  destruct (ceiling ver <? length (Transaction.Postings tx1))%nat.
  - rewrite onCycle_result in H. unfold cycleOutcome in H.
    destruct (cycleAction ver); discriminate H.
  - eapply rewrites_trans; [exact Htr|]. exact (IH _ _ _ H).
Qed.

Lemma rewrites_extends (triggers : list Trigger) (h h0 h1 h' : Heap)
    (tx tx' : Transaction) :
  rewrites triggers h0 tx h1 tx' ->
  (length h <= length h0)%nat ->
  (forall l v, h1 !! l = Some v -> h' !! l = Some v) ->
  extends triggers h h' tx tx'.
Proof.
  intros (Hd & Hs & _ & k & Hl & Hp & Hc) Hle Hframe.
  split; [exact Hd|]. split; [exact Hs|].
  exists (seq (length h0) k). split; [exact Hp|]. split; [apply NoDup_seq|].
  apply Forall_forall. intros l Hin. apply elem_of_seq in Hin.
  split; [lia|]. destruct (Hc l ltac:(lia)) as (v & Hv & Hg).
  exists v. split; [apply Hframe; exact Hv|exact Hg].
Qed.

Lemma extends_weaken (triggers : list Trigger) (h h1 h' : Heap)
    (tx tx' : Transaction) :
  (length h <= length h1)%nat ->
  extends triggers h1 h' tx tx' -> extends triggers h h' tx tx'.
Proof.
  intros Hle (Hd & Hs & added & Hp & Hnd & Hall).
  split; [exact Hd|]. split; [exact Hs|]. exists added.
  split; [exact Hp|]. split; [exact Hnd|].
  eapply Forall_impl; [exact Hall|]. simpl. intros l [Hl Hv]. split; [lia|exact Hv].
Qed.

Lemma main_rewrite_extends (fuel : nat) (ver : Version) (triggers : list Trigger)
    (transactions : list Transaction) (h h' : Heap) (transactions' : list Transaction) :
  result (main_rewrite fuel ver triggers transactions h) = Done (h', transactions') ->
  (length h <= length h')%nat /\
  (forall l v, h !! l = Some v -> h' !! l = Some v) /\
  Forall2 (extends triggers h h') transactions transactions'.
Proof.
  revert h h' transactions'.
  induction transactions as [|tx transactions IH]; intros h h' transactions' H.
  - simpl in H. injection H as <- <-. split; [lia|]. split; [auto|constructor].
  - cbn [main_rewrite] in H.
    apply result_bind_Done in H as ([h1 tx1] & Hpost & H).
    apply result_bind_Done in H as ([h2 transactions1] & Hrest & H).
    simpl in H. injection H as <- <-.
    apply main_postings_rewrites in Hpost.
    destruct (IH _ _ _ Hrest) as (Hle2 & Hf2 & Hall2).
    destruct (rewrites_length _ _ _ _ _ Hpost) as [_ Hle1].
    split; [lia|]. split.
    + intros l v Hl. apply Hf2. destruct Hpost as (_ & _ & Hf1 & _). apply Hf1, Hl.
    + constructor.
      * exact (rewrites_extends triggers h h h1 h2 tx tx1 Hpost (Nat.le_refl _) Hf2).
      * eapply Forall2_impl; [exact Hall2|]. intros x y. apply extends_weaken. exact Hle1.
Qed.

(** X7. Rewriting is append-only and records where postings come from.  When
    the rewrite loop ends normally, every posting that was in the store is
    unchanged, every transaction keeps its date, description and postings
    and only gains pointers at the end, and each of these is a different,
    newly allocated posting whose amount is set, whose [GeneratedBy] is the
    [ID] of one of the triggers and whose [From] is the 1-based index of a
    posting of the same transaction. *)
Theorem rewrite_appends_generated (fuel : nat) (ver : Version)
    (triggers : list Trigger) (transactions : list Transaction) (h h' : Heap)
    (transactions' : list Transaction) :
  result (main_rewrite fuel ver triggers transactions h) = Done (h', transactions') ->
  (forall l v, h !! l = Some v -> h' !! l = Some v) /\
  Forall2 (extends triggers h h') transactions transactions'.
Proof. intros H. exact (proj2 (main_rewrite_extends _ _ _ _ _ _ _ H)). Qed.

Lemma rewrite_appends_generated_witness :
  exists (h' : Heap) (transactions' : list Transaction),
    result (main_rewrite 1001 part_001 [selfTrigger] [salary] salary_heap)
    = Done (h', transactions') /\
    (forall l v, salary_heap !! l = Some v -> h' !! l = Some v) /\
    Forall2 (extends [selfTrigger] salary_heap h') [salary] transactions'.
Proof.
  eexists _, _. split; [vm_compute; reflexivity|].
  apply (rewrite_appends_generated 1001 part_001 [selfTrigger] [salary] salary_heap).
  vm_compute. reflexivity.
Defined.

(** * Further properties of the [fy] helper *)

(** X8. The label of [fy] is that of a fiscal year from July to June: two
    dates whose fiscal years start in the same year get the same label,
    whatever their months and days. *)
Theorem fy_fiscal_year (t1 t2 : time.Time) :
  fiscalYear t1 = fiscalYear t2 -> fy t1 = fy t2.
Proof.
  assert (H : forall t, fy t = "FY" +:+ itoa (Z.rem (fiscalYear t) 100)
                           +:+ itoa (Z.rem (fiscalYear t + 1) 100)).
  { intros [year month day]. unfold fy, fiscalYear. simpl.
    destruct month; simpl; try reflexivity;
      replace (year - 1 + 1)%Z with year by lia; reflexivity. }
  intros Heq. rewrite (H t1), (H t2), Heq. reflexivity.
Qed.

Lemma fy_fiscal_year_witness :
  fy (time.Date 2016 time.July 1) = fy (time.Date 2017 time.June 30).
Proof.
  apply (fy_fiscal_year (time.Date 2016 time.July 1) (time.Date 2017 time.June 30)).
  reflexivity.
Defined.

(** * Further properties of matching *)

Lemma Match_loop_app_true (es es' : list AnyMatcher) (cs : list (gmap string string))
    (h : Heap) (tx : Transaction) (p : loc) (m : gmap string string) :
  Forall2 (fun e c => AnyMatcher_Match e h tx p = Ret (true, c)) es cs ->
  Trigger.Match_loop (es ++ es') h tx p m
  = Trigger.Match_loop es' h tx p (foldl (fun acc c => c ∪ acc) m cs).
Proof.
  intros H. revert m. induction H as [|e c es cs He H IH]; intros m; simpl.
  - reflexivity.
  - rewrite He. simpl. apply IH.
Qed.

Lemma merged_lookup (cs : list (gmap string string)) (m : gmap string string)
    (k : string) :
  foldl (fun acc c => c ∪ acc) m cs !! k
  = foldl (fun acc c => match c !! k with Some x => Some x | None => acc end)
      (m !! k) cs.
Proof.
  revert m. induction cs as [|c cs IH]; intros m; simpl.
  - reflexivity.
  - rewrite IH. f_equal. rewrite lookup_union.
    destruct (c !! k) as [x|]; destruct (m !! k); reflexivity.
Qed.

(** X9. A trigger matches when all its matchers match, and its captures are
    those of all of them, a later matcher overwriting the keys of an earlier
    one; a trigger without matchers matches every posting. *)
Theorem Trigger_Match_all (tr : Trigger) (cs : list (gmap string string))
    (h : Heap) (tx : Transaction) (p : loc) :
  Forall2 (fun e c => AnyMatcher_Match e h tx p = Ret (true, c))
    (Trigger.Matchers tr) cs ->
  exists m : gmap string string,
    Trigger.Match tr h tx p = Ret (true, m) /\
    forall k, m !! k = lastCapture k cs.
Proof.
  intros H. exists (foldl (fun acc c => c ∪ acc) ∅ cs). split.
  - unfold Trigger.Match.
    rewrite <- (app_nil_r (Trigger.Matchers tr)).
    rewrite (Match_loop_app_true _ [] cs h tx p ∅ H). reflexivity.
  - intros k. rewrite merged_lookup, lookup_empty. reflexivity.
Qed.

(** X10. The matchers are tried in order and the first one that does not
    match decides: the trigger does not match, its captures are empty, and
    the matchers after it are not called (not even one that would panic). *)
Theorem Trigger_Match_short_circuit (tr : Trigger) (es es' : list AnyMatcher)
    (e : AnyMatcher) (cs : list (gmap string string)) (c : gmap string string)
    (h : Heap) (tx : Transaction) (p : loc) :
  Trigger.Matchers tr = es ++ e :: es' ->
  Forall2 (fun e c => AnyMatcher_Match e h tx p = Ret (true, c)) es cs ->
  AnyMatcher_Match e h tx p = Ret (false, c) ->
  Trigger.Match tr h tx p = Ret (false, ∅).
Proof.
  intros Hes Htrue Hfalse. unfold Trigger.Match. rewrite Hes.
  rewrite (Match_loop_app_true es (e :: es') cs h tx p ∅ Htrue). simpl.
  rewrite Hfalse. reflexivity.
Qed.

Lemma Trigger_Match_all_witness :
  exists m : gmap string string,
    Trigger.Match captureTwice salary_heap salary 0%nat = Ret (true, m) /\
    forall k, m !! k = lastCapture k [ <["a" := "0"]> (<["k" := "1"]> ∅);
                                       <["k" := "2"]> ∅ ].
Proof.
  apply (Trigger_Match_all captureTwice).
  repeat constructor.
Defined.

Lemma Trigger_Match_short_circuit_witness :
  Trigger.Match guarded salary_heap salary 0%nat = Ret (false, ∅).
Proof.
  apply (Trigger_Match_short_circuit guarded [jsConst "true" (otto.Boolean true)]
           [jsConst "fy" (otto.Other "Function")] (jsConst "false" (otto.Boolean false))
           [∅] ∅).
  - reflexivity.
  - repeat constructor.
  - reflexivity.
Defined.

Lemma itoa_inj (a b : Z) : itoa a = itoa b -> a = b.
Proof.
  unfold itoa. intros H.
  assert (Hnn : forall z, Z.to_int z <> Decimal.Pos Decimal.Nil /\
                          Z.to_int z <> Decimal.Neg Decimal.Nil).
  { intros [|q|q]; simpl; split; try discriminate;
      intros E; injection E as E; exact (Unsigned.to_uint_nonnil q E). }
  apply DecimalZ.to_int_inj.
  assert (E : Some (Z.to_int a) = Some (Z.to_int b)).
  { rewrite <- (NilZero.isi (Z.to_int a)) by apply Hnn.
    rewrite <- (NilZero.isi (Z.to_int b)) by apply Hnn.
    rewrite H. reflexivity. }
  injection E as E. exact E.
Qed.

Lemma submatches_lookup (l : list string) (i : nat) (e : gmap string string) (j : nat) :
  RegexpMatcher.submatches i l e !! itoa (Z.of_nat j)
  = if decide (i <= j < i + length l)%nat then l !! (j - i)%nat
    else e !! itoa (Z.of_nat j).
Proof.
  revert i e. induction l as [|v l IH]; intros i e; simpl.
  - rewrite decide_False by lia. reflexivity.
  - rewrite IH. destruct (decide (j = i)) as [->|Hne].
    + rewrite decide_False by lia. rewrite decide_True by lia.
      rewrite lookup_insert_eq, Nat.sub_diag. reflexivity.
    + rewrite lookup_insert_ne.
      2:{ intros E. apply itoa_inj in E. lia. }
      destruct (decide (S i <= j < S i + length l)%nat) as [Hin|Hout].
      * rewrite decide_True by lia.
        replace (j - i)%nat with (S (j - S i)) by lia. reflexivity.
      * rewrite decide_False by lia. reflexivity.
Qed.

Lemma submatches_keys (l : list string) (i : nat) (e : gmap string string) (k : string) :
  is_Some (RegexpMatcher.submatches i l e !! k) ->
  is_Some (e !! k) \/ exists j, (i <= j < i + length l)%nat /\ k = itoa (Z.of_nat j).
Proof.
  revert i e. induction l as [|v l IH]; intros i e; simpl; intros H.
  - left. exact H.
  - destruct (IH _ _ H) as [He|(j & Hj & ->)].
    + destruct (decide (k = itoa (Z.of_nat i))) as [->|Hne].
      * right. exists i. split; [lia|reflexivity].
      * left. rewrite lookup_insert_ne in He by congruence. exact He.
    + right. exists j. split; [lia|reflexivity].
Qed.

(** X11. A regular expression matcher answers with [MatchString] and binds
    the submatches of [FindStringSubmatch] under their indices written in
    decimal (["0"] is the whole match), and under no other key. *)
Theorem RegexpMatcher_captures (m : RegexpMatcher.t) (h : Heap) (tx : Transaction)
    (p : loc) (v : Posting) :
  h !! p = Some v ->
  exists e : gmap string string,
    RegexpMatcher.Match m h tx p
    = Ret (regexp.MatchString (RegexpMatcher.r m) (Posting.Account v), e) /\
    (forall i : nat,
       e !! itoa (Z.of_nat i)
       = regexp.FindStringSubmatch (RegexpMatcher.r m) (Posting.Account v) !! i) /\
    (forall k, is_Some (e !! k) -> exists i : nat, k = itoa (Z.of_nat i)).
Proof.
  intros Hp. eexists. split; [|split].
  - unfold RegexpMatcher.Match. rewrite (deref_Some _ _ _ Hp). reflexivity.
  - intros i. rewrite submatches_lookup.
    destruct (decide (0 <= i < 0 + length _)%nat) as [Hin|Hout].
    + rewrite Nat.sub_0_r. reflexivity.
    + rewrite lookup_empty. symmetry. apply lookup_ge_None. lia.
  - intros k Hk. apply submatches_keys in Hk as [He|(j & _ & ->)].
    + rewrite lookup_empty in He. destruct He as [x Hx]. discriminate Hx.
    + eauto.
Qed.

Lemma RegexpMatcher_captures_witness :
  exists e : gmap string string,
    RegexpMatcher.Match (RegexpMatcher.mk (regexpLiteral "Income:Salary"))
      salary_heap salary 1%nat
    = Ret (regexp.MatchString (regexpLiteral "Income:Salary") "Income:Salary", e) /\
    (forall i : nat,
       e !! itoa (Z.of_nat i)
       = regexp.FindStringSubmatch (regexpLiteral "Income:Salary") "Income:Salary" !! i) /\
    (forall k, is_Some (e !! k) -> exists i : nat, k = itoa (Z.of_nat i)).
Proof.
  apply (RegexpMatcher_captures (RegexpMatcher.mk (regexpLiteral "Income:Salary"))
           salary_heap salary 1%nat
           (Posting.mk RealPosting "Income:Salary" (Some (decimal.NewFromInt (-1000)))
              EmptyString 0 0)).
  reflexivity.
Defined.

(** * Further properties of [Action.Execute] *)

Lemma matchPlaceholder_other (c : ascii) (s : string) :
  c <> "$"%char -> regexp.matchPlaceholder (String c s) = None.
Proof.
  intros Hc. unfold regexp.matchPlaceholder.
  destruct c as [[] [] [] [] [] [] [] []]; try reflexivity.
  contradiction Hc. reflexivity.
Qed.

Lemma replacePlaceholders_literal (repl : string -> string) (pre rest : string) :
  hasByte "$" pre = false ->
  regexp.replacePlaceholders repl 0 (pre +:+ rest)
  = pre +:+ regexp.replacePlaceholders repl 0 rest.
Proof.
  induction pre as [|c pre IH]; intros H.
  - reflexivity.
  - simpl in H. destruct (decide (c = "$"%char)) as [->|Hc]; [discriminate H|].
    change (String c pre +:+ rest) with (String c (pre +:+ rest)).
    rewrite (replacePlaceholders_byte repl c _ (matchPlaceholder_other c _ Hc)).
    rewrite (IH H). reflexivity.
Qed.

Lemma append_nil_r (s : string) : s +:+ EmptyString = s.
Proof. induction s as [|c s IH]; simpl; [reflexivity|]. f_equal. exact IH. Qed.

(** X12. A template without [$] is taken as it is: the generated posting is
    on the account that the action names. *)
Theorem Execute_literal_account (a : Action) (h : Heap) (p : loc) (v : Posting)
    (d : decimal.Decimal) (m : gmap string string) :
  h !! p = Some v ->
  Posting.Amount v = Some d ->
  hasByte "$" (Action.Account a) = false ->
  exists n : Posting,
    Action.Execute a h p m = Ret (h ++ [n], length h) /\
    Posting.Account n = Action.Account a.
Proof.
  intros Hp Hd Hlit. eexists. split; [exact (Execute_set a h p v d m Hp Hd)|].
  simpl. rewrite <- (append_nil_r (Action.Account a)) at 1.
  rewrite (replacePlaceholders_literal _ _ EmptyString Hlit). apply append_nil_r.
Qed.

Lemma Execute_literal_account_witness :
  exists n : Posting,
    Action.Execute (Action.mk VirtualPosting "Tax:Withheld" (decimal.mk (-3) (-1)) EmptyString)
      salary_heap 1%nat ∅
    = Ret (salary_heap ++ [n], length salary_heap) /\
    Posting.Account n = "Tax:Withheld".
Proof.
  apply (Execute_literal_account
           (Action.mk VirtualPosting "Tax:Withheld" (decimal.mk (-3) (-1)) EmptyString)
           salary_heap 1%nat
           (Posting.mk RealPosting "Income:Salary" (Some (decimal.NewFromInt (-1000)))
              EmptyString 0 0)
           (decimal.NewFromInt (-1000)) ∅).
  - reflexivity.
  - reflexivity.
  - reflexivity.
Defined.

(** X13. What a placeholder is replaced by is not scanned again: a template
    that is literal text around one placeholder gives that text around the
    account or capture as it is, even if this contains [${...}] itself. *)
Theorem Execute_placeholder_verbatim (a : Action) (h : Heap) (p : loc) (v : Posting)
    (d : decimal.Decimal) (m : gmap string string) (pre id suf : string) :
  h !! p = Some v ->
  Posting.Amount v = Some d ->
  Action.Account a = pre +:+ "${" +:+ id +:+ "}" +:+ suf ->
  hasByte "$" pre = false ->
  identifier id ->
  hasByte "$" suf = false ->
  exists n : Posting,
    Action.Execute a h p m = Ret (h ++ [n], length h) /\
    Posting.Account n = pre +:+ resolve (Posting.Account v) m id +:+ suf.
Proof.
  intros Hp Hd Hacc Hpre Hid Hsuf.
  eexists. split; [exact (Execute_set a h p v d m Hp Hd)|].
  simpl. rewrite Hacc.
  rewrite (replacePlaceholders_literal _ pre _ Hpre).
  rewrite (replacePlaceholders_placeholder _ id suf Hid).
  rewrite (replace_resolve v m id Hid).
  rewrite <- (append_nil_r suf) at 1.
  rewrite (replacePlaceholders_literal _ suf EmptyString Hsuf), append_nil_r.
  reflexivity.
Qed.

Lemma Execute_placeholder_verbatim_witness :
  exists n : Posting,
    Action.Execute wrapAccount odd_heap 0%nat {[ "1" := "rent" ]}
    = Ret (odd_heap ++ [n], length odd_heap) /\
    Posting.Account n = "Tax:" +:+ resolve "${1}" {[ "1" := "rent" ]} "account" +:+ ":Due".
Proof.
  apply (Execute_placeholder_verbatim wrapAccount odd_heap 0%nat
           (Posting.mk RealPosting "${1}" (Some (decimal.NewFromInt 10)) EmptyString 0 0)
           (decimal.NewFromInt 10) {[ "1" := "rent" ]} "Tax:" "account" ":Due").
  - reflexivity.
  - reflexivity.
  - reflexivity.
  - reflexivity.
  - split; [discriminate|reflexivity].
  - reflexivity.
Defined.

(** * The parser of posting and action lines *)

Lemma HasSuffix_app (a suffix : string) :
  stringsMore.HasSuffix (a +:+ suffix) suffix = true.
Proof.
  induction a as [|c a IH].
  - change (EmptyString +:+ suffix) with suffix.
    destruct suffix; cbn [stringsMore.HasSuffix];
      (destruct (decide _) as [_|Hne]; [reflexivity|contradiction Hne; reflexivity]).
  - change (String c a +:+ suffix) with (String c (a +:+ suffix)).
    cbn [stringsMore.HasSuffix].
    destruct (decide (String c (a +:+ suffix) = suffix)); [reflexivity|exact IH].
Qed.

Lemma TrimLeft_length (s cutset : string) :
  strings.TrimLeft s cutset = s \/
  (String.length (strings.TrimLeft s cutset) < String.length s)%nat.
Proof.
  induction s as [|c s IH]; simpl.
  - left. reflexivity.
  - destruct (strings.contains cutset c); [|left; reflexivity].
    right. destruct IH as [->|IH]; lia.
Qed.

Lemma TrimRight_length (s cutset : string) :
  strings.TrimRight s cutset = s \/
  (String.length (strings.TrimRight s cutset) < String.length s)%nat.
Proof.
  induction s as [|c s IH]; simpl.
  - left. reflexivity.
  - destruct (strings.TrimRight s cutset) as [|d r] eqn:Hr.
    + destruct (strings.contains cutset c); simpl.
      * right. lia.
      * destruct IH as [<-|IH]; [left; reflexivity|right; simpl in *; lia].
    + destruct IH as [<-|IH]; [left; reflexivity|right; simpl in *; lia].
Qed.

Lemma Trim_stable_inv (s cutset : string) :
  strings.Trim s cutset = s ->
  strings.TrimLeft s cutset = s /\ strings.TrimRight s cutset = s.
Proof.
  unfold strings.Trim. intros H.
  destruct (TrimLeft_length s cutset) as [Hl|Hl].
  - rewrite Hl in H. split; [exact Hl|exact H].
  - exfalso.
    destruct (TrimRight_length (strings.TrimLeft s cutset) cutset) as [Hr|Hr];
      rewrite H in Hr; [rewrite <- Hr in Hl|]; lia.
Qed.

Lemma TrimRight_snoc (s cutset : string) (c : ascii) :
  strings.contains cutset c = true ->
  strings.TrimRight (s +:+ String c EmptyString) cutset = strings.TrimRight s cutset.
Proof.
  intros Hc. induction s as [|d s IH].
  - simpl. rewrite Hc. reflexivity.
  - change (String d s +:+ String c EmptyString)
      with (String d (s +:+ String c EmptyString)).
    cbn [strings.TrimRight]. rewrite IH. reflexivity.
Qed.

Lemma Trim_wrap (s cutset : string) (o c : ascii) :
  strings.contains cutset o = true ->
  strings.contains cutset c = true ->
  strings.Trim s cutset = s ->
  strings.Trim (String o (s +:+ String c EmptyString)) cutset = s.
Proof.
  intros Ho Hc Hs. destruct (Trim_stable_inv s cutset Hs) as [Hl Hr].
  unfold strings.Trim. cbn [strings.TrimLeft]. rewrite Ho.
  destruct s as [|d s].
  - simpl. rewrite Hc. reflexivity.
  - assert (Hd : strings.contains cutset d = false).
    { simpl in Hl. destruct (strings.contains cutset d); [|reflexivity].
      exfalso. destruct (TrimLeft_length s cutset) as [E|E]; rewrite Hl in E.
      - apply (f_equal String.length) in E. simpl in E. lia.
      - simpl in E. lia. }
    change (String d s +:+ String c EmptyString)
      with (String d (s +:+ String c EmptyString)).
    cbn [strings.TrimLeft]. rewrite Hd.
    change (String d (s +:+ String c EmptyString))
      with (String d s +:+ String c EmptyString).
    rewrite (TrimRight_snoc _ _ _ Hc). exact Hr.
Qed.

Lemma HasPrefix_nil (s : string) : stringsMore.HasPrefix s EmptyString = true.
Proof. destruct s; reflexivity. Qed.

(** X14. What [Format] writes, [parsePostingTypeAndAccount] reads back: the
    kind and the account name, for a name that is not itself wrapped in the
    brackets (for the wrapped kinds it may neither start nor end with one of
    them; the empty name is read back too). *)
Theorem Format_parse_round_trip (typ : PostingType) (name : string) :
  unwrapped typ name ->
  parser.parsePostingTypeAndAccount (PostingType_Format typ name) = (typ, name).
Proof.
  unfold parser.parsePostingTypeAndAccount, unwrapped. destruct typ; intros H.
  - destruct H as [H1 H2]. simpl. rewrite H1, H2. reflexivity.
  - assert (Hsuf : stringsMore.HasSuffix (PostingType_Format VirtualPosting name) ")" = true).
    { unfold PostingType_Format. rewrite <- append_assoc. apply HasSuffix_app. }
    rewrite Hsuf. simpl. rewrite HasPrefix_nil. simpl. f_equal.
    exact (Trim_wrap name "()" "(" ")" eq_refl eq_refl H).
  - assert (Hsuf : stringsMore.HasSuffix (PostingType_Format BalancedVirtualPosting name) "]"
                   = true).
    { unfold PostingType_Format. rewrite <- append_assoc. apply HasSuffix_app. }
    rewrite Hsuf. simpl. rewrite HasPrefix_nil. simpl. f_equal.
    exact (Trim_wrap name "[]" "[" "]" eq_refl eq_refl H).
Qed.

Lemma Format_parse_round_trip_witness :
  parser.parsePostingTypeAndAccount (PostingType_Format VirtualPosting "Budget:Food")
  = (VirtualPosting, "Budget:Food").
Proof.
  apply (Format_parse_round_trip VirtualPosting "Budget:Food").
  reflexivity.
Defined.

Lemma TrimLeft_head (s cutset : string) :
  strings.TrimLeft s cutset = EmptyString \/
  exists c r, strings.TrimLeft s cutset = String c r /\ strings.contains cutset c = false.
Proof.
  induction s as [|c s IH]; simpl.
  - left. reflexivity.
  - destruct (strings.contains cutset c) eqn:Hc; [exact IH|].
    right. exists c, s. split; [reflexivity|exact Hc].
Qed.

Lemma TrimRight_idem (s cutset : string) :
  strings.TrimRight (strings.TrimRight s cutset) cutset = strings.TrimRight s cutset.
Proof.
  induction s as [|c s IH]; [reflexivity|].
  cbn [strings.TrimRight].
  destruct (strings.TrimRight s cutset) as [|d r] eqn:Hr.
  - destruct (strings.contains cutset c) eqn:Hc; [reflexivity|].
    simpl. rewrite Hc. reflexivity.
  - cbn [strings.TrimRight] in IH |- *. rewrite IH. reflexivity.
Qed.

Lemma TrimRight_keeps_head (c : ascii) (s cutset : string) :
  strings.contains cutset c = false ->
  exists r, strings.TrimRight (String c s) cutset = String c r.
Proof.
  intros Hc. cbn [strings.TrimRight].
  destruct (strings.TrimRight s cutset); [rewrite Hc|]; eauto.
Qed.

Lemma Trim_idem (s cutset : string) :
  strings.Trim (strings.Trim s cutset) cutset = strings.Trim s cutset.
Proof.
  unfold strings.Trim.
  assert (Hl : strings.TrimLeft (strings.TrimRight (strings.TrimLeft s cutset) cutset) cutset
               = strings.TrimRight (strings.TrimLeft s cutset) cutset).
  { destruct (TrimLeft_head s cutset) as [->|(c & r & -> & Hc)]; [reflexivity|].
    destruct (TrimRight_keeps_head c r cutset Hc) as [r' ->].
    simpl. rewrite Hc. reflexivity. }
  rewrite Hl. apply TrimRight_idem.
Qed.

(** X15. Reading an account token is stable: the kind and the name that
    [parsePostingTypeAndAccount] returns are read back as they are once
    written with [Format], for every token (nested brackets such as
    [((a))] give the name [a]). *)
Theorem parse_Format_stable (s : string) :
  parser.parsePostingTypeAndAccount
    (PostingType_Format (fst (parser.parsePostingTypeAndAccount s))
       (snd (parser.parsePostingTypeAndAccount s)))
  = parser.parsePostingTypeAndAccount s.
Proof.
  rewrite Format_parse_round_trip; [destruct (parser.parsePostingTypeAndAccount s); reflexivity|].
  unfold parser.parsePostingTypeAndAccount.
  destruct (stringsMore.HasPrefix s "(" && stringsMore.HasSuffix s ")") eqn:H1.
  - simpl. apply Trim_idem.
  - destruct (stringsMore.HasPrefix s "[" && stringsMore.HasSuffix s "]") eqn:H2.
    + simpl. apply Trim_idem.
    + simpl. split; [exact H1|exact H2].
Qed.

Lemma SplitN2_none (s : string) (sep : ascii) :
  hasByte sep s = false -> stringsMore.SplitN2 s sep = [s].
Proof.
  induction s as [|c s IH]; simpl; intros H; [reflexivity|].
  destruct (decide (c = sep)); [discriminate H|]. rewrite (IH H). reflexivity.
Qed.

Lemma SplitN2_first (a b : string) (sep : ascii) :
  hasByte sep a = false ->
  stringsMore.SplitN2 (a +:+ String sep b) sep = [a; b].
Proof.
  induction a as [|c a IH]; simpl; intros H.
  - rewrite decide_True by reflexivity. reflexivity.
  - destruct (decide (c = sep)); [discriminate H|]. rewrite (IH H). reflexivity.
Qed.

Lemma Split_none (s : string) (sep : ascii) :
  hasByte sep s = false -> stringsMore.Split s sep = [s].
Proof.
  induction s as [|c s IH]; simpl; intros H; [reflexivity|].
  destruct (decide (c = sep)); [discriminate H|]. rewrite (IH H). reflexivity.
Qed.

Lemma Split_first (a b : string) (sep : ascii) :
  hasByte sep a = false ->
  stringsMore.Split (a +:+ String sep b) sep = a :: stringsMore.Split b sep.
Proof.
  induction a as [|c a IH]; simpl; intros H.
  - rewrite decide_True by reflexivity. reflexivity.
  - destruct (decide (c = sep)); [discriminate H|]. rewrite (IH H). reflexivity.
Qed.

Lemma Split_nonempty (s : string) (sep : ascii) :
  exists a0 rest, stringsMore.Split s sep = a0 :: rest.
Proof.
  induction s as [|c s (a0 & rest & IH)]; simpl; [eauto|].
  destruct (decide (c = sep)); [eauto|]. rewrite IH. eauto.
Qed.

(** X16. Everything after the first [;] of a line is its comment, with the
    white space around both parts removed; a line without [;] is returned
    as it is, white space included, with an empty comment. *)
Theorem getComment_first_semicolon (a b : string) :
  hasByte ";" a = false ->
  parser.getComment a = (a, EmptyString) /\
  parser.getComment (a +:+ ";" +:+ b)
  = (stringsMore.TrimSpace a, stringsMore.TrimSpace b).
Proof.
  intros H. unfold parser.getComment. split.
  - rewrite (SplitN2_none a ";" H). reflexivity.
  - change (a +:+ ";" +:+ b) with (a +:+ String ";" b).
    rewrite (SplitN2_first a b ";" H). reflexivity.
Qed.

Lemma getComment_first_semicolon_witness :
  parser.getComment " Assets:Bank " = (" Assets:Bank ", EmptyString) /\
  parser.getComment (" Assets:Bank " +:+ ";" +:+ " pay; day ")
  = (stringsMore.TrimSpace " Assets:Bank ", stringsMore.TrimSpace " pay; day ").
Proof.
  apply (getComment_first_semicolon " Assets:Bank " " pay; day ").
  reflexivity.
Defined.

(** X17. A posting line and an action line are read the same way: on every
    line [parsePosting] and [parseAction] fail together, with the same
    error (also from [parsePosting] it names [parseAction]), or succeed
    together with the same kind, account and comment and the same amount,
    an amount left out being an elided amount for the posting and the
    multiplier zero for the action; a parsed posting has no provenance. *)
Theorem parseAction_parsePosting_agree
    (NewFromString : string -> string + decimal.Decimal) (l : string) :
  match parser.parseAction NewFromString l, parser.parsePosting NewFromString l with
  | inl e1, inl e2 => e1 = e2
  | inr a, inr p =>
      Posting.Type_ p = Action.Type_ a /\
      Posting.Account p = Action.Account a /\
      Posting.Comment p = Action.Comment a /\
      Posting.GeneratedBy p = 0%Z /\ Posting.From p = 0%Z /\
      (Posting.Amount p = Some (Action.Amount a) \/
       Posting.Amount p = None /\ Action.Amount a = decimal.Zero)
  | _, _ => False
  end.
Proof.
  unfold parser.parseAction, parser.parsePosting.
  destruct (parser.getComment l) as [l' c].
  destruct (Split_nonempty l' parser.tab) as (a0 & rest & ->). simpl.
  destruct (parser.parsePostingTypeAndAccount a0) as [typ account].
  destruct rest as [|a1 [|a2 rest]].
  - simpl. repeat (split; [reflexivity|]). right. split; reflexivity.
  - destruct (NewFromString (stringsMore.removeFirst a1 "$")) as [e|n].
    + reflexivity.
    + simpl. repeat (split; [reflexivity|]). left. reflexivity.
  - reflexivity.
Qed.

(** X18. A line with three or more fields between tabs (before its comment)
    is refused, as a posting and as an action, with the error "wrong number
    of segments". *)
Theorem parse_wrong_number_of_segments
    (NewFromString : string -> string + decimal.Decimal) (l f0 f1 rest : string) :
  fst (parser.getComment l)
  = f0 +:+ String parser.tab (f1 +:+ String parser.tab rest) ->
  hasByte parser.tab f0 = false ->
  hasByte parser.tab f1 = false ->
  parser.parsePosting NewFromString l
  = inl (parser.Errorf "parseAction: wrong number of segments") /\
  parser.parseAction NewFromString l
  = inl (parser.Errorf "parseAction: wrong number of segments").
Proof.
  intros Hl H0 H1. unfold parser.parseAction, parser.parsePosting.
  destruct (parser.getComment l) as [l' c]. simpl in Hl. subst l'.
  rewrite (Split_first f0 _ parser.tab H0), (Split_first f1 rest parser.tab H1).
  destruct (Split_nonempty rest parser.tab) as (a2 & more & ->). simpl.
  destruct (parser.parsePostingTypeAndAccount f0). split; reflexivity.
Qed.

Lemma parse_wrong_number_of_segments_witness :
  parser.parsePosting NewFromString_int
    ("Assets:Bank" +:+ String parser.tab ("$10" +:+ String parser.tab "$20"))
  = inl (parser.Errorf "parseAction: wrong number of segments") /\
  parser.parseAction NewFromString_int
    ("Assets:Bank" +:+ String parser.tab ("$10" +:+ String parser.tab "$20"))
  = inl (parser.Errorf "parseAction: wrong number of segments").
Proof.
  apply (parse_wrong_number_of_segments NewFromString_int _ "Assets:Bank" "$10" "$20").
  - reflexivity.
  - reflexivity.
  - reflexivity.
Defined.

Lemma toQ_Mul_Zero (d : decimal.Decimal) :
  decimal.toQ (decimal.Mul d decimal.Zero) == 0.
Proof. rewrite Mul_toQ, Zero_toQ. ring. Qed.

(** X19. An action line without an amount is accepted and its multiplier is
    zero: whatever posting it is executed on, the posting it generates has
    the amount zero. *)
Theorem action_without_amount
    (NewFromString : string -> string + decimal.Decimal) (l : string) :
  hasByte parser.tab (fst (parser.getComment l)) = false ->
  exists a : Action,
    parser.parseAction NewFromString l = inr a /\
    Action.Amount a = decimal.Zero /\
    forall (h : Heap) (p : loc) (v : Posting) (d : decimal.Decimal)
           (m : gmap string string),
      h !! p = Some v -> Posting.Amount v = Some d ->
      exists (n : Posting) (z : decimal.Decimal),
        Action.Execute a h p m = Ret (h ++ [n], length h) /\
        Posting.Amount n = Some z /\ decimal.toQ z == 0.
Proof.
  intros Htab. unfold parser.parseAction.
  destruct (parser.getComment l) as [l' c]. simpl in Htab.
  rewrite (Split_none l' parser.tab Htab). simpl.
  destruct (parser.parsePostingTypeAndAccount l') as [typ account].
  eexists. split; [reflexivity|]. split; [reflexivity|].
  intros h p v d m Hp Hd. eexists _, _.
  split; [exact (Execute_set _ h p v d m Hp Hd)|].
  split; [reflexivity|]. apply toQ_Mul_Zero.
Qed.

Lemma action_without_amount_witness :
  exists a : Action,
    parser.parseAction NewFromString_int "(Tax:Withheld) ; later" = inr a /\
    Action.Amount a = decimal.Zero /\
    forall (h : Heap) (p : loc) (v : Posting) (d : decimal.Decimal)
           (m : gmap string string),
      h !! p = Some v -> Posting.Amount v = Some d ->
      exists (n : Posting) (z : decimal.Decimal),
        Action.Execute a h p m = Ret (h ++ [n], length h) /\
        Posting.Amount n = Some z /\ decimal.toQ z == 0.
Proof.
  apply (action_without_amount NewFromString_int "(Tax:Withheld) ; later").
  reflexivity.
Defined.

Lemma removeFirst_none (s : string) (old : ascii) :
  hasByte old s = false -> stringsMore.removeFirst s old = s.
Proof.
  induction s as [|c s IH]; simpl; intros H; [reflexivity|].
  destruct (decide (c = old)); [discriminate H|]. rewrite (IH H). reflexivity.
Qed.

Lemma removeFirst_first (x y : string) (old : ascii) :
  hasByte old x = false -> stringsMore.removeFirst (x +:+ String old y) old = x +:+ y.
Proof.
  induction x as [|c x IH]; simpl; intros H.
  - rewrite decide_True by reflexivity. reflexivity.
  - destruct (decide (c = old)); [discriminate H|]. rewrite (IH H). reflexivity.
Qed.

Lemma hasByte_app (c : ascii) (a b : string) :
  hasByte c (a +:+ b) = hasByte c a || hasByte c b.
Proof.
  induction a as [|d a IH]; simpl; [reflexivity|].
  destruct (decide (d = c)); [reflexivity|exact IH].
Qed.

(** X20. The one [$] of an amount may stand anywhere in it, not only in
    front: the line is read as the line without it (so [-$20] is [-20]). *)
Theorem parsePosting_dollar_anywhere
    (NewFromString : string -> string + decimal.Decimal) (account x y : string) :
  hasByte ";" (account +:+ String parser.tab (x +:+ String "$" y)) = false ->
  hasByte parser.tab account = false ->
  hasByte parser.tab (x +:+ y) = false ->
  hasByte "$" (x +:+ y) = false ->
  parser.parsePosting NewFromString (account +:+ String parser.tab (x +:+ String "$" y))
  = parser.parsePosting NewFromString (account +:+ String parser.tab (x +:+ y)).
Proof.
  intros Hsemi Hacc Htab Hdollar.
  assert (Hsemi' : hasByte ";" (account +:+ String parser.tab (x +:+ y)) = false).
  { rewrite hasByte_app in Hsemi |- *. apply orb_false_elim in Hsemi as [H1 H2].
    rewrite H1. change (hasByte ";" (x +:+ String "$" y) = false) in H2.
    change (hasByte ";" (x +:+ y) = false).
    rewrite hasByte_app in H2 |- *. apply orb_false_elim in H2 as [H2 H3].
    rewrite H2. exact H3. }
  rewrite hasByte_app in Htab, Hdollar.
  apply orb_false_elim in Htab as [Htx Hty].
  apply orb_false_elim in Hdollar as [Hdx Hdy].
  assert (Htab1 : hasByte parser.tab (x +:+ String "$" y) = false).
  { rewrite hasByte_app, Htx. exact Hty. }
  assert (Htab2 : hasByte parser.tab (x +:+ y) = false).
  { rewrite hasByte_app, Htx, Hty. reflexivity. }
  unfold parser.parsePosting, parser.getComment.
  rewrite (SplitN2_none _ ";" Hsemi), (SplitN2_none _ ";" Hsemi').
  rewrite !(Split_first account _ parser.tab Hacc).
  rewrite (Split_none _ parser.tab Htab1), (Split_none _ parser.tab Htab2). simpl.
  rewrite (removeFirst_first x y "$" Hdx).
  rewrite (removeFirst_none (x +:+ y) "$"); [reflexivity|].
  rewrite hasByte_app, Hdx, Hdy. reflexivity.
Qed.

Lemma parsePosting_dollar_anywhere_witness :
  parser.parsePosting NewFromString_int
    ("Assets:Cash" +:+ String parser.tab ("-" +:+ String "$" "20"))
  = parser.parsePosting NewFromString_int
      ("Assets:Cash" +:+ String parser.tab ("-" +:+ "20")).
Proof.
  apply (parsePosting_dollar_anywhere NewFromString_int "Assets:Cash" "-" "20").
  - reflexivity.
  - reflexivity.
  - reflexivity.
  - reflexivity.
Defined.

Lemma TrimSpace_leading_space (s : string) :
  stringsMore.TrimSpace (String " " s) = stringsMore.TrimSpace s.
Proof. reflexivity. Qed.

(** X21. A posting that the user wrote is read back from its own text: for a
    posting without provenance, [parsePosting] of [Posting.String] is the
    posting again, provided the account can be unwrapped and has no tab, the
    text before the comment has no [;], the decimal library reads back the
    amounts it writes, and, when there is a comment, neither the comment nor
    the text before it has white space around it. *)
Theorem Posting_String_round_trip
    (NewFromString : string -> string + decimal.Decimal)
    (DecString : decimal.Decimal -> string) (p : Posting) :
  Posting.GeneratedBy p = 0%Z ->
  Posting.From p = 0%Z ->
  unwrapped (Posting.Type_ p) (Posting.Account p) ->
  hasByte parser.tab (PostingType_Format (Posting.Type_ p) (Posting.Account p)) = false ->
  hasByte ";" (Posting_text DecString p) = false ->
  (forall d, Posting.Amount p = Some d ->
     hasByte parser.tab (DecString d) = false /\
     NewFromString (stringsMore.removeFirst (DecString d) "$") = inr d) ->
  (Posting.Comment p <> EmptyString ->
   stringsMore.TrimSpace (Posting.Comment p) = Posting.Comment p /\
   stringsMore.TrimSpace (Posting_text DecString p) = Posting_text DecString p) ->
  parser.parsePosting NewFromString (Posting_String DecString p) = inr p.
Proof.
  destruct p as [typ account amount comment g f]. unfold Posting_text. simpl.
  intros -> -> Hun Htab Hsemi Hdec Hcom.
  set (acct := PostingType_Format typ account) in *.
  set (pre := match amount with
              | Some d => acct +:+ String parser.tab (DecString d)
              | None => acct
              end) in *.
  assert (Hparse : forall c,
            (let (typ', account') := parser.parsePostingTypeAndAccount
                                       (default EmptyString (stringsMore.Split pre parser.tab !! 0%nat)) in
             match stringsMore.Split pre parser.tab with
             | [_] => inr (Posting.mk typ' account' None c 0 0)
             | [_; a1] =>
                 match NewFromString (stringsMore.removeFirst a1 "$") with
                 | inl e => inl (parser.Wrap (parser.Library e) "parseAction")
                 | inr n => inr (Posting.mk typ' account' (Some n) c 0 0)
                 end
             | _ => inl (parser.Errorf "parseAction: wrong number of segments")
             end) = inr (Posting.mk typ account amount c 0 0)).
  { intros c. unfold pre.
    destruct amount as [d|].
    - destruct (Hdec d eq_refl) as [Hd1 Hd2].
      rewrite (Split_first acct _ parser.tab Htab), (Split_none _ parser.tab Hd1).
      simpl. unfold acct. rewrite (Format_parse_round_trip typ account Hun).
      rewrite Hd2. reflexivity.
    - rewrite (Split_none acct parser.tab Htab). simpl.
      unfold acct. rewrite (Format_parse_round_trip typ account Hun). reflexivity. }
  assert (Hs : Posting_String DecString (Posting.mk typ account amount comment 0 0)
               = if decide (comment = EmptyString) then pre
                 else pre +:+ String ";" (String " " comment)).
  { unfold pre, acct, Posting_String. simpl.
    destruct (decide (comment = EmptyString)); reflexivity. }
  rewrite Hs. unfold parser.parsePosting, parser.getComment.
  destruct (decide (comment = EmptyString)) as [->|Hne].
  - rewrite (SplitN2_none pre ";" Hsemi). apply Hparse.
  - destruct (Hcom Hne) as [Hc Hp].
    rewrite (SplitN2_first pre _ ";" Hsemi).
    rewrite TrimSpace_leading_space, Hc, Hp. apply Hparse.
Qed.

Lemma Posting_String_round_trip_witness :
  parser.parsePosting NewFromString_int
    (Posting_String String_int
       (Posting.mk VirtualPosting "Budget:Food" (Some (decimal.NewFromInt 5)) "weekly" 0 0))
  = inr (Posting.mk VirtualPosting "Budget:Food" (Some (decimal.NewFromInt 5)) "weekly" 0 0).
Proof.
  apply (Posting_String_round_trip NewFromString_int String_int
           (Posting.mk VirtualPosting "Budget:Food" (Some (decimal.NewFromInt 5))
              "weekly" 0 0)).
  - reflexivity.
  - reflexivity.
  - reflexivity.
  - reflexivity.
  - reflexivity.
  - intros d Hd. injection Hd as <-. split; reflexivity.
  - intros _. split; reflexivity.
Defined.

(** ** The parser of blocks and files *)

Import parserFile.

Lemma ReadString_length (rd l rest : string) (eof : bool) :
  bufio.ReadString rd = (l, rest, eof) ->
  (String.length rest <= String.length rd)%nat /\
  (rd <> EmptyString -> (String.length rest < String.length rd)%nat).
Proof.
  revert l rest eof. induction rd as [|c rd IH]; intros l rest eof H; simpl in H.
  - inversion H. simpl. split; [lia | congruence].
  - destruct (decide (c = bufio.newline)).
    + inversion H. subst. simpl. split; intros; lia.
    + destruct (bufio.ReadString rd) as [[l0 rest0] eof0].
      inversion H; subst. destruct (IH _ _ _ eq_refl) as [IH1 _].
      simpl. split; intros; lia.
Qed.

Lemma ReadString_progress (rd l rest : string) :
  bufio.ReadString rd = (l, rest, false) ->
  (String.length rest < String.length rd)%nat.
Proof.
  intros H. apply (ReadString_length _ _ _ _ H).
  intros ->. discriminate H.
Qed.

Lemma ReadString_line (l rest : string) :
  hasByte bufio.newline l = false ->
  bufio.ReadString (l +:+ String bufio.newline rest)
  = (l +:+ String bufio.newline EmptyString, rest, false).
Proof.
  induction l as [|c l IH]; simpl; intros H.
  - destruct (decide (bufio.newline = bufio.newline)); [reflexivity|congruence].
  - destruct (decide (c = bufio.newline)); [discriminate H|].
    rewrite (IH H). reflexivity.
Qed.

Lemma ReadString_unterminated (l : string) :
  hasByte bufio.newline l = false ->
  bufio.ReadString l = (l, EmptyString, true).
Proof.
  induction l as [|c l IH]; simpl; intros H; [reflexivity|].
  destruct (decide (c = bufio.newline)); [discriminate H|].
  rewrite (IH H). reflexivity.
Qed.

Lemma ReadString_more (rd l rest last : string) :
  bufio.ReadString rd = (l, rest, false) ->
  bufio.ReadString (rd +:+ last) = (l, rest +:+ last, false).
Proof.
  revert l rest. induction rd as [|c rd IH]; intros l rest H; simpl in H.
  - discriminate H.
  - simpl. destruct (decide (c = bufio.newline)).
    + inversion H; subst. reflexivity.
    + destruct (bufio.ReadString rd) as [[l0 rest0] eof0].
      inversion H; subst. rewrite (IH _ _ eq_refl). reflexivity.
Qed.

Lemma ReadString_eof_inv (rd l rest : string) :
  bufio.ReadString rd = (l, rest, true) -> hasByte bufio.newline rd = false.
Proof.
  revert l rest. induction rd as [|c rd IH]; intros l rest H; simpl in H; [reflexivity|].
  simpl. destruct (decide (c = bufio.newline)); [discriminate H|].
  destruct (bufio.ReadString rd) as [[l0 rest0] eof0].
  inversion H; subst. eapply IH. reflexivity.
Qed.

Lemma length_append (a b : string) :
  String.length (a +:+ b) = (String.length a + String.length b)%nat.
Proof. induction a as [|c a IH]; simpl; [reflexivity|]. rewrite IH. reflexivity. Qed.

Lemma consumes_le {A : Type} (rest : A -> string) (rd rd' : string) (r : PRes A) :
  (String.length rd' <= String.length rd)%nat ->
  consumes rest rd' r -> consumes rest rd r.
Proof. destruct r; simpl; auto. lia. Qed.

Lemma consumes_lt {A : Type} (rest : A -> string) (rd rd' : string) (r : PRes A) :
  (String.length rd' < String.length rd)%nat ->
  consumes rest rd' r -> progresses rest rd r.
Proof. destruct r; simpl; auto. lia. Qed.

Section ParserFile.

Variable NewFromString : string -> string + decimal.Decimal.
Variable timeParse : string -> string + time.Time.
Variable headerSubmatch : string -> list string.
Variable Compile : string -> string + regexp.Regexp.
Variable Eval : string -> string + (Heap -> Transaction -> loc -> Res otto.Value).

Lemma parseTransaction_loop_consumes (fuel : nat) (rd : string) (h : Heap) (ps : list loc) :
  (String.length rd < fuel)%nat ->
  consumes (fun a => a.1.1) rd (parseTransaction_loop NewFromString fuel rd h ps).
Proof.
  revert rd h ps. induction fuel as [|fuel IH]; intros rd h ps Hf; [lia|].
  simpl. destruct (bufio.ReadString rd) as [[l rd'] eof] eqn:E.
  destruct eof.
  { simpl. apply (ReadString_length _ _ _ _ E). }
  pose proof (ReadString_progress _ _ _ E) as Hlt.
  destruct (_ || _).
  { simpl. lia. }
  destruct (parser.parsePosting _ _); [exact I|].
  eapply consumes_le; [|apply IH; lia]. lia.
Qed.

Lemma parseTransaction_progresses (rd : string) (h : Heap) :
  progresses (fun a => a.1.1) rd (parseTransaction NewFromString timeParse headerSubmatch rd h).
Proof.
  unfold parseTransaction.
  destruct (bufio.ReadString rd) as [[hdr rd1] eof] eqn:E.
  destruct eof; [exact I|].
  pose proof (ReadString_progress _ _ _ E) as Hlt.
  cbv zeta.
  destruct (headerSubmatch _ !! 1%nat); [|exact I].
  destruct (headerSubmatch _ !! 2%nat); [|exact I].
  destruct (timeParse _); [exact I|].
  match goal with |- context [match ?s with inl _ => _ | inr _ => _ end] =>
    destruct s end; [exact I|].
  pose proof (parseTransaction_loop_consumes (S (String.length rd1)) rd1 h []
                ltac:(lia)) as Hc.
  destruct (parseTransaction_loop _ _ _ _ _) as [[[rd2 h'] ps]| | |];
    cbn [consumes progresses fst] in Hc |- *; try exact I; try lia.
Qed.

Lemma parseTrigger_header_consumes (fuel : nat) (rd : string) (ms : list AnyMatcher) :
  (String.length rd < fuel)%nat ->
  consumes fst rd (parseTrigger_header Compile Eval fuel rd ms).
Proof.
  revert rd ms. induction fuel as [|fuel IH]; intros rd ms Hf; [lia|].
  simpl. destruct (bufio.Peek1 rd) as [b|] eqn:Hb; [|simpl; lia].
  destruct (decide (b = "#"%char)).
  { destruct (bufio.ReadString rd) as [[l rd'] eof] eqn:E.
    assert (rd <> EmptyString) as Hne by (intros ->; discriminate Hb).
    pose proof (proj2 (ReadString_length _ _ _ _ E) Hne).
    eapply consumes_le; [|apply IH; lia]. lia. }
  destruct (decide (b = "="%char)); [|simpl; lia].
  destruct (bufio.ReadString rd) as [[l rd'] eof] eqn:E.
  destruct eof; [exact I|].
  pose proof (ReadString_progress _ _ _ E) as Hlt.
  cbv zeta.
  destruct (_ && _).
  { destruct (Compile _); [exact I|].
    eapply consumes_le; [|apply IH; lia]. lia. }
  destruct (stringsMore.HasPrefix _ "JS"); [|exact I].
  destruct (Eval _); [exact I|].
  eapply consumes_le; [|apply IH; lia]. lia.
Qed.

Lemma parseTrigger_header_progresses (fuel : nat) (rd : string) (ms : list AnyMatcher) :
  (String.length rd < fuel)%nat ->
  bufio.Peek1 rd = Some "="%char ->
  progresses fst rd (parseTrigger_header Compile Eval fuel rd ms).
Proof.
  intros Hf Hp. destruct fuel as [|fuel]; [lia|].
  simpl. rewrite Hp.
  destruct (decide ("="%char = "#"%char)); [discriminate|].
  destruct (decide ("="%char = "="%char)); [|congruence].
  destruct (bufio.ReadString rd) as [[l rd'] eof] eqn:E.
  destruct eof; [exact I|].
  pose proof (ReadString_progress _ _ _ E) as Hlt.
  cbv zeta.
  destruct (_ && _).
  { destruct (Compile _); [exact I|].
    eapply consumes_lt; [|apply parseTrigger_header_consumes; lia]. lia. }
  destruct (stringsMore.HasPrefix _ "JS"); [|exact I].
  destruct (Eval _); [exact I|].
  eapply consumes_lt; [|apply parseTrigger_header_consumes; lia]. lia.
Qed.

Lemma parseTrigger_body_consumes (fuel : nat) (rd : string) (actions : list Action) :
  (String.length rd < fuel)%nat ->
  consumes fst rd (parseTrigger_body NewFromString fuel rd actions).
Proof.
  revert rd actions. induction fuel as [|fuel IH]; intros rd actions Hf; [lia|].
  simpl. destruct (bufio.ReadString rd) as [[l rd'] eof] eqn:E.
  destruct eof.
  { simpl. apply (ReadString_length _ _ _ _ E). }
  pose proof (ReadString_progress _ _ _ E) as Hlt.
  destruct (_ || _).
  { simpl. lia. }
  destruct (parser.parseAction _ _); [exact I|].
  eapply consumes_le; [|apply IH; lia]. lia.
Qed.

Lemma parseTrigger_progresses (rd : string) :
  bufio.Peek1 rd = Some "="%char ->
  progresses fst rd (parseTrigger NewFromString Compile Eval rd).
Proof.
  intros Hp. unfold parseTrigger.
  pose proof (parseTrigger_header_progresses (S (String.length rd)) rd []
                ltac:(lia) Hp) as H1.
  destruct (parseTrigger_header _ _ _ _ _) as [[rd1 ms]| | |];
    cbn [progresses fst] in H1 |- *; try exact I; try contradiction.
  pose proof (parseTrigger_body_consumes (S (String.length rd1)) rd1 []
                ltac:(lia)) as H2.
  destruct (parseTrigger_body _ _ _ _) as [[rd2 acts]| | |];
    cbn [consumes progresses fst] in H2 |- *; try exact I; try contradiction.
  lia.
Qed.

Lemma parseFile_loop_fuel (fuel : nat) (rd : string) (h : Heap)
    (triggers : list Trigger) (transactions : list ParsedTransaction) :
  (String.length rd < fuel)%nat ->
  parseFile_loop NewFromString timeParse headerSubmatch Compile Eval
    fuel rd h triggers transactions <> PFuel.
Proof.
  revert rd h triggers transactions.
  induction fuel as [|fuel IH]; intros rd h triggers transactions Hf; [lia|].
  destruct rd as [|b rd']; [discriminate|].
  cbn [parseFile_loop]. simpl in Hf.
  destruct (decide (b = bufio.newline)); [apply IH; lia|].
  destruct (decide (b = "#"%char)).
  { destruct (bufio.ReadString (String b rd')) as [[l rd1] eof] eqn:E.
    pose proof (proj1 (ReadString_length _ _ _ _ E)) as Hl. simpl in Hl.
    pose proof (proj2 (ReadString_length _ _ _ _ E) ltac:(discriminate)) as Hl2.
    simpl in Hl2. apply IH. lia. }
  destruct (decide (b = "="%char)) as [->|].
  { pose proof (parseTrigger_progresses (String "=" rd') eq_refl) as Hp.
    destruct (parseTrigger _ _ _ _) as [[rd1 t]| | |]; simpl in Hp;
      try discriminate; try contradiction.
    apply IH. lia. }
  pose proof (parseTransaction_progresses (String b rd') h) as Hp.
  destruct (parseTransaction _ _ _ _ _) as [[[rd1 h'] t]| | |]; simpl in Hp;
    try discriminate; try contradiction.
  apply IH. lia.
Qed.

Lemma numbered_snoc (triggers : list Trigger) (t : Trigger) :
  numbered triggers ->
  numbered (triggers ++ [setID (Z.of_nat (length triggers) + 1) t]).
Proof.
  intros Hn i t' Hi.
  destruct (decide (i < length triggers)%nat) as [Hlt|Hge].
  - rewrite lookup_app_l in Hi by exact Hlt. apply Hn, Hi.
  - rewrite lookup_app_r in Hi by lia.
    destruct (i - length triggers)%nat as [|k] eqn:Ek; [|destruct k; discriminate Hi].
    inversion Hi; subst. simpl. f_equal. f_equal. lia.
Qed.

Lemma parseFile_loop_numbered (fuel : nat) (rd : string) (h h' : Heap)
    (triggers triggers' : list Trigger) (transactions transactions' : list ParsedTransaction) :
  parseFile_loop NewFromString timeParse headerSubmatch Compile Eval
    fuel rd h triggers transactions = POk (h', triggers', transactions') ->
  numbered triggers -> numbered triggers'.
Proof.
  revert rd h triggers transactions.
  induction fuel as [|fuel IH]; intros rd h triggers transactions H Hn; [discriminate|].
  destruct rd as [|b rd0]; [inversion H; subst; exact Hn|].
  cbn [parseFile_loop] in H.
  destruct (decide (b = bufio.newline)); [eapply IH; eauto|].
  destruct (decide (b = "#"%char)).
  { destruct (bufio.ReadString (String b rd0)) as [[l rd1] eof]. eapply IH; eauto. }
  destruct (decide (b = "="%char)).
  { destruct (parseTrigger _ _ _ _) as [[rd1 t]| | |]; try discriminate.
    eapply IH; [exact H|]. apply numbered_snoc, Hn. }
  destruct (parseTransaction _ _ _ _ _) as [[[rd1 h1] t]| | |]; try discriminate.
  eapply IH; eauto.
Qed.

Lemma fresh_refl (h : Heap) : fresh h h [].
Proof. exists []. rewrite app_nil_r. auto. Qed.

Lemma fresh_trans (h h1 h2 : Heap) (ps qs : list loc) :
  fresh h h1 ps -> fresh h1 h2 qs -> fresh h h2 (ps ++ qs).
Proof.
  intros (vs & -> & -> & Hv) (ws & -> & -> & Hw).
  exists (vs ++ ws). rewrite <- app_assoc. split; [reflexivity|]. split.
  - rewrite !length_app, seq_app. reflexivity.
  - apply Forall_app; auto.
Qed.

Lemma parsePosting_provenance (l : string) (p : Posting) :
  parser.parsePosting NewFromString l = inr p ->
  Posting.GeneratedBy p = 0%Z /\ Posting.From p = 0%Z.
Proof.
  unfold parser.parsePosting. destruct (parser.getComment l) as [l0 c].
  destruct (parser.parsePostingTypeAndAccount _) as [typ account].
  destruct (stringsMore.Split l0 parser.tab) as [|a0 [|a1 [|a2 a]]]; try discriminate.
  - intros H; inversion H; auto.
  - destruct (NewFromString _); [discriminate|]. intros H; inversion H; auto.
Qed.

Lemma parseTransaction_loop_fresh (fuel : nat) (rd rest : string) (h h' : Heap)
    (ps ps' : list loc) :
  parseTransaction_loop NewFromString fuel rd h ps = POk (rest, h', ps') ->
  exists qs, ps' = ps ++ qs /\ fresh h h' qs.
Proof.
  revert rd h ps. induction fuel as [|fuel IH]; intros rd h ps H; [discriminate|].
  simpl in H. destruct (bufio.ReadString rd) as [[l rd'] eof].
  destruct eof.
  { inversion H; subst. exists []. rewrite app_nil_r. split; [auto|apply fresh_refl]. }
  destruct (_ || _).
  { inversion H; subst. exists []. rewrite app_nil_r. split; [auto|apply fresh_refl]. }
  destruct (parser.parsePosting _ _) as [e|p] eqn:Ep; [discriminate|].
  apply IH in H as (qs & -> & Hf).
  exists (length h :: qs). rewrite <- app_assoc. split; [reflexivity|].
  apply (fresh_trans h (h ++ [p]) h' [length h] qs); [|exact Hf].
  exists [p]. repeat split; auto. constructor; [|constructor].
  apply (parsePosting_provenance _ _ Ep).
Qed.

Lemma parseTransaction_fresh (rd rest : string) (h h' : Heap) (t : ParsedTransaction) :
  parseTransaction NewFromString timeParse headerSubmatch rd h = POk (rest, h', t) ->
  fresh h h' (Transaction.Postings (tx t)).
Proof.
  unfold parseTransaction.
  destruct (bufio.ReadString rd) as [[hdr rd1] eof].
  destruct eof; [discriminate|]. cbv zeta.
  destruct (headerSubmatch _ !! 1%nat); [|discriminate].
  destruct (headerSubmatch _ !! 2%nat); [|discriminate].
  destruct (timeParse _); [discriminate|].
  match goal with |- context [match ?s with inl _ => _ | inr _ => _ end] =>
    destruct s end; [discriminate|].
  destruct (parseTransaction_loop _ _ _ _ _) as [[[rd2 h2] ps]| | |] eqn:El;
    try discriminate.
  intros H; inversion H; subst. simpl.
  apply parseTransaction_loop_fresh in El as (qs & -> & Hf). exact Hf.
Qed.

Lemma postingsOf_snoc (transactions : list ParsedTransaction) (t : ParsedTransaction) :
  postingsOf (transactions ++ [t]) =
  postingsOf transactions ++ Transaction.Postings (tx t).
Proof.
  unfold postingsOf. rewrite fmap_app, concat_app. simpl.
  rewrite app_nil_r. reflexivity.
Qed.

Lemma parseFile_loop_fresh (fuel : nat) (rd : string) (h0 h h' : Heap)
    (triggers triggers' : list Trigger) (transactions transactions' : list ParsedTransaction) :
  parseFile_loop NewFromString timeParse headerSubmatch Compile Eval
    fuel rd h triggers transactions = POk (h', triggers', transactions') ->
  fresh h0 h (postingsOf transactions) -> fresh h0 h' (postingsOf transactions').
Proof.
  revert rd h triggers transactions.
  induction fuel as [|fuel IH]; intros rd h triggers transactions H Hn; [discriminate|].
  destruct rd as [|b rd0]; [inversion H; subst; exact Hn|].
  cbn [parseFile_loop] in H.
  destruct (decide (b = bufio.newline)); [eapply IH; eauto|].
  destruct (decide (b = "#"%char)).
  { destruct (bufio.ReadString (String b rd0)) as [[l rd1] eof]. eapply IH; eauto. }
  destruct (decide (b = "="%char)).
  { destruct (parseTrigger _ _ _ _) as [[rd1 t]| | |]; try discriminate.
    eapply IH; [exact H|]. exact Hn. }
  destruct (parseTransaction _ _ _ _ _) as [[[rd1 h1] t]| | |] eqn:Et; try discriminate.
  eapply IH; [exact H|]. rewrite postingsOf_snoc.
  eapply fresh_trans; [exact Hn|]. eapply parseTransaction_fresh, Et.
Qed.

Lemma parseTransaction_loop_unterminated (last : string) :
  hasByte bufio.newline last = false ->
  forall (f1 f2 : nat) (rd : string) (h : Heap) (ps : list loc),
  (String.length (rd +:+ last) < f1)%nat -> (String.length rd < f2)%nat ->
  parsed (parseTransaction_loop NewFromString f1 (rd +:+ last) h ps)
  = parsed (parseTransaction_loop NewFromString f2 rd h ps).
Proof.
  intros Hl. induction f1 as [|f1 IH]; intros f2 rd h ps H1 H2; [lia|].
  destruct f2 as [|f2]; [lia|].
  cbn [parseTransaction_loop].
  destruct (bufio.ReadString rd) as [[l rd'] eof] eqn:E.
  destruct eof.
  - rewrite ReadString_unterminated.
    + reflexivity.
    + rewrite hasByte_app, (ReadString_eof_inv _ _ _ E), Hl. reflexivity.
  - rewrite (ReadString_more _ _ _ last E).
    pose proof (ReadString_progress _ _ _ E) as Hlt.
    destruct (_ || _); [reflexivity|].
    destruct (parser.parsePosting _ _); [reflexivity|].
    cbn [new]. apply IH.
    + rewrite length_append in *. lia.
    + lia.
Qed.

Lemma parseTransaction_unterminated_parsed (rd last : string) (h : Heap) :
  hasByte bufio.newline last = false ->
  parsed (parseTransaction NewFromString timeParse headerSubmatch (rd +:+ last) h)
  = parsed (parseTransaction NewFromString timeParse headerSubmatch rd h).
Proof.
  intros Hl. unfold parseTransaction.
  destruct (bufio.ReadString rd) as [[hdr rd1] eof] eqn:E.
  destruct eof.
  - rewrite ReadString_unterminated.
    + reflexivity.
    + rewrite hasByte_app, (ReadString_eof_inv _ _ _ E), Hl. reflexivity.
  - rewrite (ReadString_more _ _ _ last E). cbv zeta.
    destruct (headerSubmatch _ !! 1%nat); [|reflexivity].
    destruct (headerSubmatch _ !! 2%nat); [|reflexivity].
    destruct (timeParse _); [reflexivity|].
    match goal with |- context [match ?s with inl _ => _ | inr _ => _ end] =>
      destruct s end; [reflexivity|].
    pose proof (parseTransaction_loop_unterminated last Hl
                  (S (String.length (rd1 +:+ last))) (S (String.length rd1)) rd1 h []
                  ltac:(lia) ltac:(lia)) as Hp.
    destruct (parseTransaction_loop _ (S (String.length (rd1 +:+ last))) _ _ _)
      as [[[r1 h1] p1]| | |];
    destruct (parseTransaction_loop _ (S (String.length rd1)) _ _ _)
      as [[[r2 h2] p2]| | |];
    cbn [parsed] in Hp |- *; try discriminate Hp; try reflexivity.
    + inversion Hp; subst. reflexivity.
    + inversion Hp; subst. reflexivity.
    + inversion Hp; subst. reflexivity.
Qed.

Lemma parseTransaction_header_panic (hdr rest : string) (h : Heap) :
  headerSubmatch EmptyString = [] ->
  hasByte bufio.newline hdr = false ->
  hasByte " " (stringsMore.TrimSpace (hdr +:+ String bufio.newline EmptyString)) = false ->
  parseTransaction NewFromString timeParse headerSubmatch
    (hdr +:+ String bufio.newline rest) h
  = PPanic "runtime error: index out of range [1] with length 0".
Proof.
  intros Hm Hn Hs. unfold parseTransaction.
  rewrite (ReadString_line _ _ Hn). cbv zeta.
  rewrite (SplitN2_none _ _ Hs). cbn [lookup list_lookup default].
  change (default EmptyString ([_] !! 1%nat)) with EmptyString.
  rewrite Hm. reflexivity.
Qed.

Lemma parseTrigger_header_keeps (fuel : nat) (rd rest : string) (ms ms' : list AnyMatcher) :
  parseTrigger_header Compile Eval fuel rd ms = POk (rest, ms') ->
  ms <> [] -> ms' <> [].
Proof.
  revert rd ms. induction fuel as [|fuel IH]; intros rd ms H Hne; [discriminate|].
  simpl in H. destruct (bufio.Peek1 rd) as [b|]; [|inversion H; subst; exact Hne].
  destruct (decide (b = "#"%char)).
  { destruct (bufio.ReadString rd) as [[l rd'] eof]. eapply IH; eauto. }
  destruct (decide (b = "="%char)); [|inversion H; subst; exact Hne].
  destruct (bufio.ReadString rd) as [[l rd'] eof].
  destruct eof; [discriminate|]. cbv zeta in H.
  destruct (_ && _).
  { destruct (Compile _); [discriminate|].
    eapply IH; [exact H|]. intros E. apply app_eq_nil in E as [_ E]. discriminate E. }
  destruct (stringsMore.HasPrefix _ "JS"); [|discriminate].
  destruct (Eval _); [discriminate|].
  eapply IH; [exact H|]. intros E. apply app_eq_nil in E as [_ E]. discriminate E.
Qed.

Lemma parseTrigger_has_matcher (rd rest : string) (t : Trigger) :
  bufio.Peek1 rd = Some "="%char ->
  parseTrigger NewFromString Compile Eval rd = POk (rest, t) ->
  Trigger.Matchers t <> [].
Proof.
  intros Hp. unfold parseTrigger.
  destruct (parseTrigger_header _ _ _ _ _) as [[rd1 ms]| | |] eqn:Eh; try discriminate.
  destruct (parseTrigger_body _ _ _ _) as [[rd2 acts]| | |]; try discriminate.
  intros H; inversion H; subst. simpl.
  simpl in Eh. rewrite Hp in Eh.
  destruct (decide ("="%char = "#"%char)); [discriminate|].
  destruct (decide ("="%char = "="%char)); [|congruence].
  destruct (bufio.ReadString rd) as [[l rd'] eof].
  destruct eof; [discriminate|]. cbv zeta in Eh.
  destruct (_ && _).
  { destruct (Compile _); [discriminate|].
    eapply parseTrigger_header_keeps; [exact Eh|]. discriminate. }
  destruct (stringsMore.HasPrefix _ "JS"); [|discriminate].
  destruct (Eval _); [discriminate|].
  eapply parseTrigger_header_keeps; [exact Eh|]. discriminate.
Qed.

Lemma parseFile_loop_matchers (fuel : nat) (rd : string) (h h' : Heap)
    (triggers triggers' : list Trigger) (transactions transactions' : list ParsedTransaction) :
  parseFile_loop NewFromString timeParse headerSubmatch Compile Eval
    fuel rd h triggers transactions = POk (h', triggers', transactions') ->
  Forall (fun t => Trigger.Matchers t <> []) triggers ->
  Forall (fun t => Trigger.Matchers t <> []) triggers'.
Proof.
  revert rd h triggers transactions.
  induction fuel as [|fuel IH]; intros rd h triggers transactions H Hn; [discriminate|].
  destruct rd as [|b rd0]; [inversion H; subst; exact Hn|].
  cbn [parseFile_loop] in H.
  destruct (decide (b = bufio.newline)); [eapply IH; eauto|].
  destruct (decide (b = "#"%char)).
  { destruct (bufio.ReadString (String b rd0)) as [[l rd1] eof]. eapply IH; eauto. }
  destruct (decide (b = "="%char)) as [->|].
  { destruct (parseTrigger _ _ _ _) as [[rd1 t]| | |] eqn:Et; try discriminate.
    eapply IH; [exact H|]. apply Forall_app. split; [exact Hn|].
    constructor; [|constructor]. simpl.
    eapply parseTrigger_has_matcher; [|exact Et]. reflexivity. }
  destruct (parseTransaction _ _ _ _ _) as [[[rd1 h1] t]| | |]; try discriminate.
  eapply IH; eauto.
Qed.

End ParserFile.

(** X22. The triggers that [parseFile] returns are numbered from 1 in the
    order of the file: the trigger at place [i] (from 0) has the ID [i + 1],
    so that no trigger has the ID 0 of a posting that no trigger made. *)
Theorem parseFile_numbers_triggers
    (NewFromString : string -> string + decimal.Decimal)
    (timeParse : string -> string + time.Time)
    (headerSubmatch : string -> list string)
    (Compile : string -> string + regexp.Regexp)
    (Eval : string -> string + (Heap -> Transaction -> loc -> Res otto.Value))
    (rd : string) (h h' : Heap)
    (triggers : list Trigger) (transactions : list ParsedTransaction) :
  parseFile NewFromString timeParse headerSubmatch Compile Eval rd h
    = POk (h', triggers, transactions) ->
  forall i t, triggers !! i = Some t -> Trigger.ID t = (Z.of_nat i + 1)%Z.
Proof.
  intros H. eapply parseFile_loop_numbered; [exact H|].
  intros i t Hi. discriminate Hi.
Qed.

Lemma parseFile_numbers_triggers_witness :
  exists h' triggers transactions,
    parseFile NewFromString_int timeParse_example headerSubmatch_plain
      Compile_literal Eval_none ledger_text []
    = POk (h', triggers, transactions) /\
    length triggers = 1%nat /\
    forall i t, triggers !! i = Some t -> Trigger.ID t = (Z.of_nat i + 1)%Z.
Proof.
  eexists _, _, _. split; [vm_compute; reflexivity|]. split; [reflexivity|].
  eapply (parseFile_numbers_triggers NewFromString_int timeParse_example
           headerSubmatch_plain Compile_literal Eval_none ledger_text [] _ _ _).
  vm_compute. reflexivity.
Defined.

(** X23. [parseFile] allocates every posting it reads and shares none: the
    store it returns is the store it was given and the new postings after
    it, the pointers of the transactions, taken one transaction after the
    other, are exactly the places of the new postings, each once and in
    order, and no new posting has a provenance ([GeneratedBy] and [From]
    are 0). *)
Theorem parseFile_postings_fresh
    (NewFromString : string -> string + decimal.Decimal)
    (timeParse : string -> string + time.Time)
    (headerSubmatch : string -> list string)
    (Compile : string -> string + regexp.Regexp)
    (Eval : string -> string + (Heap -> Transaction -> loc -> Res otto.Value))
    (rd : string) (h h' : Heap)
    (triggers : list Trigger) (transactions : list ParsedTransaction) :
  parseFile NewFromString timeParse headerSubmatch Compile Eval rd h
    = POk (h', triggers, transactions) ->
  exists vs, h' = h ++ vs /\
    postingsOf transactions = seq (length h) (length vs) /\
    Forall (fun v => Posting.GeneratedBy v = 0%Z /\ Posting.From v = 0%Z) vs.
Proof.
  intros H.
  eapply (parseFile_loop_fresh NewFromString timeParse headerSubmatch Compile Eval
            _ _ h); [exact H|].
  apply fresh_refl.
Qed.

Lemma parseFile_postings_fresh_witness :
  exists h' triggers transactions,
    parseFile NewFromString_int timeParse_example headerSubmatch_plain
      Compile_literal Eval_none ledger_text paycheck_heap
    = POk (h', triggers, transactions) /\
    exists vs, h' = paycheck_heap ++ vs /\
      postingsOf transactions = seq (length paycheck_heap) (length vs) /\
      Forall (fun v => Posting.GeneratedBy v = 0%Z /\ Posting.From v = 0%Z) vs.
Proof.
  eexists _, _, _. split; [vm_compute; reflexivity|].
  eapply (parseFile_postings_fresh NewFromString_int timeParse_example
           headerSubmatch_plain Compile_literal Eval_none ledger_text paycheck_heap
           _ _ _).
  vm_compute. reflexivity.
Defined.

(** X24. [parseFile] terminates on every input, whatever the libraries
    return: each turn of its loop reads one byte at least, so the fuel of
    one unit per byte (and one more) that the model gives it is never used
    up. *)
Theorem parseFile_terminates
    (NewFromString : string -> string + decimal.Decimal)
    (timeParse : string -> string + time.Time)
    (headerSubmatch : string -> list string)
    (Compile : string -> string + regexp.Regexp)
    (Eval : string -> string + (Heap -> Transaction -> loc -> Res otto.Value))
    (rd : string) (h : Heap) :
  parseFile NewFromString timeParse headerSubmatch Compile Eval rd h <> PFuel.
Proof. apply parseFile_loop_fuel. lia. Qed.

(** X25. What follows the last newline of the input never becomes a
    posting: for a text [last] without a newline, [parseTransaction] of
    [rd] followed by [last] returns the transaction and the store (or the
    error, or the panic) that it returns for [rd] alone. A last posting
    line that is not ended by a newline is dropped without an error. *)
Theorem parseTransaction_drops_unterminated
    (NewFromString : string -> string + decimal.Decimal)
    (timeParse : string -> string + time.Time)
    (headerSubmatch : string -> list string)
    (rd last : string) (h : Heap) :
  hasByte bufio.newline last = false ->
  parsed (parseTransaction NewFromString timeParse headerSubmatch (rd +:+ last) h)
  = parsed (parseTransaction NewFromString timeParse headerSubmatch rd h).
Proof. apply parseTransaction_unterminated_parsed. Qed.

Lemma parseTransaction_drops_unterminated_witness :
  parsed (parseTransaction NewFromString_int timeParse_example headerSubmatch_plain
            (("2020-01-15 Lunch" +:+ String bufio.newline
                (String parser.tab ("Food" +:+ String parser.tab
                   ("10" +:+ String bufio.newline EmptyString))))
             +:+ String parser.tab ("Cash" +:+ String parser.tab "-10")) [])
  = parsed (parseTransaction NewFromString_int timeParse_example headerSubmatch_plain
              ("2020-01-15 Lunch" +:+ String bufio.newline
                 (String parser.tab ("Food" +:+ String parser.tab
                    ("10" +:+ String bufio.newline EmptyString)))) []).
Proof.
  apply (parseTransaction_drops_unterminated NewFromString_int timeParse_example
           headerSubmatch_plain
           ("2020-01-15 Lunch" +:+ String bufio.newline
              (String parser.tab ("Food" +:+ String parser.tab
                 ("10" +:+ String bufio.newline EmptyString))))
           (String parser.tab ("Cash" +:+ String parser.tab "-10")) []).
  reflexivity.
Defined.

(** X26. A transaction whose header line has no space once it is trimmed (a
    date without a description) makes [parseTransaction] panic: the header
    pattern does not match the empty description, and the code indexes the
    absent match. The panic comes before the date is parsed, so a bad date
    on such a line is not reported either. *)
Theorem parseTransaction_no_description_panics
    (NewFromString : string -> string + decimal.Decimal)
    (timeParse : string -> string + time.Time)
    (headerSubmatch : string -> list string)
    (hdr rest : string) (h : Heap) :
  headerSubmatch EmptyString = [] ->
  hasByte bufio.newline hdr = false ->
  hasByte " " (stringsMore.TrimSpace (hdr +:+ String bufio.newline EmptyString)) = false ->
  parseTransaction NewFromString timeParse headerSubmatch
    (hdr +:+ String bufio.newline rest) h
  = PPanic "runtime error: index out of range [1] with length 0".
Proof. apply parseTransaction_header_panic. Qed.

Lemma parseTransaction_no_description_panics_witness :
  parseTransaction NewFromString_int timeParse_example headerSubmatch_plain
    ("2020-01-15" +:+ String bufio.newline
       (String parser.tab ("Food" +:+ String parser.tab
          ("10" +:+ String bufio.newline EmptyString)))) []
  = PPanic "runtime error: index out of range [1] with length 0".
Proof.
  apply (parseTransaction_no_description_panics NewFromString_int timeParse_example
           headerSubmatch_plain "2020-01-15"
           (String parser.tab ("Food" +:+ String parser.tab
              ("10" +:+ String bufio.newline EmptyString))) []).
  - reflexivity.
  - reflexivity.
  - reflexivity.
Defined.

(** X27. Every trigger that [parseFile] returns has a matcher: a trigger
    block starts with a header line, and each header line that is accepted
    adds a matcher. So no parsed trigger matches every posting for want of
    conditions. *)
Theorem parseFile_triggers_have_matcher
    (NewFromString : string -> string + decimal.Decimal)
    (timeParse : string -> string + time.Time)
    (headerSubmatch : string -> list string)
    (Compile : string -> string + regexp.Regexp)
    (Eval : string -> string + (Heap -> Transaction -> loc -> Res otto.Value))
    (rd : string) (h h' : Heap)
    (triggers : list Trigger) (transactions : list ParsedTransaction) :
  parseFile NewFromString timeParse headerSubmatch Compile Eval rd h
    = POk (h', triggers, transactions) ->
  Forall (fun t => Trigger.Matchers t <> []) triggers.
Proof.
  intros H. eapply parseFile_loop_matchers; [exact H|]. constructor.
Qed.

Lemma parseFile_triggers_have_matcher_witness :
  exists h' triggers transactions,
    parseFile NewFromString_int timeParse_example headerSubmatch_plain
      Compile_literal Eval_none ledger_text []
    = POk (h', triggers, transactions) /\
    length triggers = 1%nat /\
    Forall (fun t => Trigger.Matchers t <> []) triggers.
Proof.
  eexists _, _, _. split; [vm_compute; reflexivity|]. split; [reflexivity|].
  eapply (parseFile_triggers_have_matcher NewFromString_int timeParse_example
           headerSubmatch_plain Compile_literal Eval_none ledger_text [] _ _ _).
  vm_compute. reflexivity.
Defined.

(** ** Accounts and the balance report *)

Lemma balancesQ_perm (s : Accounts.Store) (ls ls' : list loc) :
  ls ≡ₚ ls' -> (balancesQ s ls == balancesQ s ls')%Q.
Proof.
  induction 1 as [|x l l' _ IH|x y l|l l' l'' _ IH1 _ IH2]; simpl.
  - reflexivity.
  - rewrite IH. reflexivity.
  - ring.
  - rewrite IH1. exact IH2.
Qed.

Lemma balancesQ_cons (s : Accounts.Store) (l : loc) (ls : list loc) :
  balancesQ s (l :: ls) = (accountQ s l + balancesQ s ls)%Q.
Proof. reflexivity. Qed.

Lemma balancesQ_ext (s s' : Accounts.Store) (ls : list loc) :
  Forall (fun l => s' !! l = s !! l) ls -> balancesQ s' ls = balancesQ s ls.
Proof.
  induction 1 as [|l ls Hl _ IH]; simpl; [reflexivity|].
  unfold accountQ at 1. rewrite Hl. fold (accountQ s l). rewrite IH. reflexivity.
Qed.

Lemma toQ_Add_Zero (d : decimal.Decimal) :
  (decimal.toQ (decimal.Add decimal.Zero d) == decimal.toQ d)%Q.
Proof. rewrite Add_toQ, Zero_toQ. ring. Qed.

Section Step.

Variables (s : Accounts.Store) (a : Accounts.t) (n : string) (d : decimal.Decimal).
Hypothesis Hwf : namedAccounts s a.

Let s1 := (Accounts.Get s a n).1.1.
Let a1 := (Accounts.Get s a n).1.2.
Let l := (Accounts.Get s a n).2.
Let s2 := alter (Account.Add d) l s1.

Lemma Get_Add_named : namedAccounts s2 a1.
Proof.
  subst s2 s1 a1 l. unfold Accounts.Get.
  destruct (a !! n) as [l|] eqn:E; cbn [fst snd].
  - intros name l' Hl'. destruct (Hwf _ _ Hl') as (acc & Hacc & Hn).
    destruct (decide (l' = l)) as [->|Hne].
    + exists (Account.Add d acc). rewrite list_lookup_alter_eq, Hacc. auto.
    + exists acc. rewrite list_lookup_alter_ne by congruence. auto.
  - intros name l' Hl'.
    destruct (decide (name = n)) as [->|Hne].
    + rewrite lookup_insert_eq in Hl'. inversion Hl'; subst.
      exists (Account.Add d (Account.mk n decimal.Zero)).
      rewrite list_lookup_alter_eq, lookup_app_r, Nat.sub_diag by lia. auto.
    + rewrite lookup_insert_ne in Hl' by congruence.
      destruct (Hwf _ _ Hl') as (acc & Hacc & Hn).
      pose proof (lookup_lt_Some _ _ _ Hacc).
      exists acc. rewrite list_lookup_alter_ne by lia.
      rewrite lookup_app_l by lia. auto.
Qed.

Lemma Get_Add_balanceOf (name : string) :
  (balanceOf s2 a1 name
   == balanceOf s a name + (if decide (name = n) then decimal.toQ d else 0))%Q.
Proof.
  subst s2 s1 a1 l. unfold Accounts.Get, balanceOf.
  destruct (a !! n) as [l|] eqn:E; cbn [fst snd].
  - destruct (decide (name = n)) as [->|Hne].
    + rewrite E. unfold accountQ. rewrite list_lookup_alter_eq.
      destruct (Hwf _ _ E) as (acc & -> & _). simpl. apply Add_toQ.
    + destruct (a !! name) as [l'|] eqn:E'; [|ring].
      destruct (Hwf _ _ E) as (acc & Hacc & Hn).
      destruct (Hwf _ _ E') as (acc' & Hacc' & Hn').
      assert (l' <> l) by (intros ->; congruence).
      unfold accountQ. rewrite list_lookup_alter_ne by congruence. ring.
  - destruct (decide (name = n)) as [->|Hne].
    + rewrite lookup_insert_eq, E. unfold accountQ.
      rewrite list_lookup_alter_eq, lookup_app_r, Nat.sub_diag by lia. simpl.
      rewrite toQ_Add_Zero. ring.
    + rewrite lookup_insert_ne by congruence.
      destruct (a !! name) as [l'|] eqn:E'; [|ring].
      destruct (Hwf _ _ E') as (acc' & Hacc' & Hn').
      pose proof (lookup_lt_Some _ _ _ Hacc').
      unfold accountQ. rewrite list_lookup_alter_ne by lia.
      rewrite lookup_app_l by lia. ring.
Qed.

Lemma Get_Add_total :
  (balancesQ s2 (map_to_list a1).*2
   == balancesQ s (map_to_list a).*2 + decimal.toQ d)%Q.
Proof.
  subst s2 s1 a1 l. unfold Accounts.Get.
  destruct (a !! n) as [l|] eqn:E; cbn [fst snd].
  - assert ((map_to_list a).*2 ≡ₚ l :: (map_to_list (delete n a)).*2) as Hp.
    { symmetry. apply (fmap_Permutation snd ((n, l) :: map_to_list (delete n a))).
      apply map_to_list_delete, E. }
    rewrite !(balancesQ_perm _ _ _ Hp), !balancesQ_cons.
    rewrite (balancesQ_ext s).
    + unfold accountQ. rewrite list_lookup_alter_eq.
      destruct (Hwf _ _ E) as (acc & -> & _). simpl. rewrite Add_toQ. ring.
    + apply Forall_fmap, Forall_forall. intros [k l'] Hin. simpl.
      apply elem_of_map_to_list in Hin.
      apply lookup_delete_Some in Hin as [Hk Hin].
      destruct (Hwf _ _ E) as (acc & Hacc & Hn).
      destruct (Hwf _ _ Hin) as (acc' & Hacc' & Hn').
      apply list_lookup_alter_ne. intros ->. congruence.
  - assert ((map_to_list (<[n:=length s]> a)).*2 ≡ₚ length s :: (map_to_list a).*2) as Hp.
    { apply (fmap_Permutation snd _ ((n, length s) :: map_to_list a)).
      apply map_to_list_insert, E. }
    rewrite (balancesQ_perm _ _ _ Hp), balancesQ_cons.
    rewrite (balancesQ_ext s).
    + unfold accountQ. rewrite list_lookup_alter_eq, lookup_app_r, Nat.sub_diag by lia.
      simpl. rewrite toQ_Add_Zero. ring.
    + apply Forall_fmap, Forall_forall. intros [k l'] Hin. simpl.
      apply elem_of_map_to_list in Hin.
      destruct (Hwf _ _ Hin) as (acc' & Hacc' & Hn').
      pose proof (lookup_lt_Some _ _ _ Hacc').
      rewrite list_lookup_alter_ne by lia. apply lookup_app_l. lia.
Qed.

End Step.

Lemma counted_cons (onlyReal : bool) (v : Posting) (vs : list Posting) :
  counted onlyReal (v :: vs)
  = if decide (Posting.Type_ v = RealPosting \/ onlyReal = false)
    then v :: counted onlyReal vs else counted onlyReal vs.
Proof. unfold counted. rewrite filter_cons. reflexivity. Qed.

Lemma postedTo_cons (name : string) (v : Posting) (vs : list Posting) :
  postedTo name (v :: vs)
  = if decide (Posting.Account v = name)
    then v :: postedTo name vs else postedTo name vs.
Proof. unfold postedTo. rewrite filter_cons. reflexivity. Qed.

Lemma namedAccounts_empty : namedAccounts [] Accounts.NewAccounts.
Proof. intros name l H. discriminate H. Qed.

Lemma main_balance_mode_postings_app (showZero onlyReal : bool) (h : Heap)
    (ps qs : list loc) (s : Accounts.Store) (a : Accounts.t) :
  main_balance_mode_postings showZero onlyReal h (ps ++ qs) s a
  = '(s', a') ← main_balance_mode_postings showZero onlyReal h ps s a;
    main_balance_mode_postings showZero onlyReal h qs s' a'.
Proof.
  revert s a. induction ps as [|p ps IH]; intros s a; simpl.
  - reflexivity.
  - destruct (deref h p) as [v|msg]; simpl; [|reflexivity].
    destruct (Posting.Amount v) as [d|]; [|reflexivity].
    destruct (_ && _); [apply IH|].
    destruct (_ && _); [apply IH|].
    destruct (Accounts.Get s a (Posting.Account v)) as [[s1 a1] l]. apply IH.
Qed.

Lemma main_balance_mode_loop_concat (showZero onlyReal : bool) (h : Heap)
    (transactions : list Transaction) (s : Accounts.Store) (a : Accounts.t) :
  main_balance_mode_loop showZero onlyReal h transactions s a
  = main_balance_mode_postings showZero onlyReal h
      (concat (Transaction.Postings <$> transactions)) s a.
Proof.
  revert s a. induction transactions as [|tx txs IH]; intros s a; simpl.
  - reflexivity.
  - rewrite main_balance_mode_postings_app.
    destruct (main_balance_mode_postings _ _ _ (Transaction.Postings tx) _ _)
      as [[s' a']|msg]; simpl; [apply IH|reflexivity].
Qed.

Lemma main_balance_mode_postings_sums (showZero onlyReal : bool) (h : Heap)
    (ps : list loc) (vs : list Posting) :
  pointsTo h ps vs ->
  Forall (fun v => is_Some (Posting.Amount v)) vs ->
  forall (s : Accounts.Store) (a : Accounts.t),
  namedAccounts s a ->
  exists s' a',
    main_balance_mode_postings showZero onlyReal h ps s a = Ret (s', a') /\
    namedAccounts s' a' /\
    (forall name,
       balanceOf s' a' name
       == balanceOf s a name + sumQ (amounts (postedTo name (counted onlyReal vs))))%Q /\
    (balancesQ s' (map_to_list a').*2
     == balancesQ s (map_to_list a).*2 + sumQ (amounts (counted onlyReal vs)))%Q.
Proof.
  induction 1 as [|p v ps vs Hp _ IH]; intros Hset s a Hwf.
  - exists s, a. repeat split; [exact Hwf| |].
    + intros name. simpl. ring.
    + simpl. ring.
  - apply Forall_cons in Hset as [[d Hd] Hset].
    cbn [main_balance_mode_postings]. rewrite (deref_Some _ _ _ Hp). simpl.
    rewrite Hd.
    destruct (decimal.IsZero d && negb showZero) eqn:Ez.
    { destruct (IH Hset s a Hwf) as (s' & a' & Hr & Hwf' & Hb & Ht).
      apply andb_true_iff in Ez as [Ez _]. apply IsZero_toQ in Ez.
      exists s', a'. repeat split; [exact Hr|exact Hwf'| |].
      - intros name. rewrite (Hb name), counted_cons.
        destruct (decide _); [|reflexivity].
        rewrite postedTo_cons. destruct (decide _); [|reflexivity].
        rewrite amounts_cons, Hd, sumQ_cons, Ez. ring.
      - rewrite Ht, counted_cons. destruct (decide _); [|reflexivity].
        rewrite amounts_cons, Hd, sumQ_cons, Ez. ring. }
    destruct (bool_decide (Posting.Type_ v <> RealPosting) && onlyReal) eqn:Er.
    { destruct (IH Hset s a Hwf) as (s' & a' & Hr & Hwf' & Hb & Ht).
      apply andb_true_iff in Er as [Er ->]. apply bool_decide_eq_true in Er.
      exists s', a'. repeat split; [exact Hr|exact Hwf'| |].
      - intros name. rewrite (Hb name), counted_cons.
        destruct (decide _) as [[Hc|Hc]|_]; [contradiction|discriminate|reflexivity].
      - rewrite Ht, counted_cons.
        destruct (decide _) as [[Hc|Hc]|_]; [contradiction|discriminate|reflexivity]. }
    assert (Posting.Type_ v = RealPosting \/ onlyReal = false) as Hc.
    { apply andb_false_iff in Er as [Er|Er]; [left|right; exact Er].
      apply bool_decide_eq_false in Er.
      destruct (decide (Posting.Type_ v = RealPosting)); [assumption|contradiction]. }
    pose proof (Get_Add_named s a (Posting.Account v) d Hwf) as Hwf1.
    pose proof (Get_Add_balanceOf s a (Posting.Account v) d Hwf) as Hb1.
    pose proof (Get_Add_total s a (Posting.Account v) d Hwf) as Ht1.
    destruct (Accounts.Get s a (Posting.Account v)) as [[s1 a1] l].
    cbn [fst snd] in Hwf1, Hb1, Ht1.
    destruct (IH Hset _ _ Hwf1) as (s' & a' & Hr & Hwf' & Hb & Ht).
    exists s', a'. repeat split; [exact Hr|exact Hwf'| |].
    + intros name. rewrite (Hb name), (Hb1 name), counted_cons.
      destruct (decide (Posting.Type_ v = RealPosting \/ onlyReal = false));
        [|contradiction].
      rewrite postedTo_cons.
      destruct (decide (name = Posting.Account v)) as [->|Hne].
      * destruct (decide (Posting.Account v = Posting.Account v)); [|congruence].
        rewrite amounts_cons, Hd, sumQ_cons. ring.
      * destruct (decide (Posting.Account v = name)); [congruence|]. ring.
    + rewrite Ht, Ht1, counted_cons. destruct (decide _); [|contradiction].
      rewrite amounts_cons, Hd, sumQ_cons. ring.
Qed.

Lemma Balance_loop_toQ (s : Accounts.Store) (ls : list loc) (d : decimal.Decimal) :
  Forall (fun l => is_Some (s !! l)) ls ->
  exists r, Accounts.Balance_loop s ls d = Ret r /\
    (decimal.toQ r == decimal.toQ d + balancesQ s ls)%Q.
Proof.
  intros H. revert d. induction H as [|l ls [acc Hl] _ IH]; intros d;
    cbn [Accounts.Balance_loop].
  - exists d. split; [reflexivity|]. unfold balancesQ. simpl. ring.
  - rewrite Hl. destruct (IH (decimal.Add d (Account.Balance acc))) as (r & Hr & Hq).
    exists r. split; [exact Hr|].
    rewrite Hq, Add_toQ, balancesQ_cons. unfold accountQ. rewrite Hl. ring.
Qed.

Lemma main_balance_mode_postings_unset (showZero onlyReal : bool) (h : Heap)
    (ps : list loc) (vs : list Posting) :
  pointsTo h ps vs ->
  Exists (fun v => Posting.Amount v = None) vs ->
  forall (s : Accounts.Store) (a : Accounts.t),
  main_balance_mode_postings showZero onlyReal h ps s a = Panic nilDeref.
Proof.
  induction 1 as [|p v ps vs Hp _ IH]; intros Hex s a.
  - inversion Hex.
  - cbn [main_balance_mode_postings]. rewrite (deref_Some _ _ _ Hp). simpl.
    destruct (Posting.Amount v) as [d|] eqn:Hd; [|reflexivity].
    apply Exists_cons in Hex as [Hex|Hex]; [congruence|].
    destruct (_ && _); [apply IH, Hex|].
    destruct (_ && _); [apply IH, Hex|].
    destruct (Accounts.Get s a (Posting.Account v)) as [[s1 a1] l].
    apply IH, Hex.
Qed.

(** X28. The balance report adds up each account: when every posting has
    its amount, the loop of the mode [balance] returns, and the balance of
    every account name is the sum of the amounts of the counted postings to
    that account (all postings, or the real ones under [only_real]; the
    postings of amount zero that are skipped add nothing). *)
Theorem balance_mode_account_sums (showZero onlyReal : bool) (h : Heap)
    (transactions : list Transaction) (vs : list Posting) :
  pointsTo h (concat (Transaction.Postings <$> transactions)) vs ->
  Forall (fun v => is_Some (Posting.Amount v)) vs ->
  exists s a,
    main_balance_mode showZero onlyReal h transactions = Ret (s, a) /\
    forall name,
      (balanceOf s a name
       == sumQ (amounts (postedTo name (counted onlyReal vs))))%Q.
Proof.
  intros Hp Hset. unfold main_balance_mode. rewrite main_balance_mode_loop_concat.
  destruct (main_balance_mode_postings_sums showZero onlyReal h _ _ Hp Hset
              [] Accounts.NewAccounts namedAccounts_empty)
    as (s & a & Hr & _ & Hb & _).
  exists s, a. split; [exact Hr|].
  intros name. rewrite (Hb name). unfold balanceOf, Accounts.NewAccounts.
  rewrite lookup_empty. ring.
Qed.

Lemma balance_mode_account_sums_witness :
  exists s a,
    main_balance_mode false true unbalanced_heap [unbalanced] = Ret (s, a) /\
    forall name,
      (balanceOf s a name
       == sumQ (amounts (postedTo name (counted true unbalanced_heap))))%Q.
Proof.
  apply (balance_mode_account_sums false true unbalanced_heap [unbalanced]
           unbalanced_heap).
  - repeat constructor.
  - repeat constructor; eexists; reflexivity.
Defined.

(** X29. The total of the balance report is the sum of the amounts of the
    counted postings, in whatever order [Accounts.Balance] visits the map:
    when every posting has its amount, [Accounts.Balance] after the loop of
    the mode [balance] returns, for every order of the entries, a decimal
    equal to that sum. *)
Theorem balance_mode_total (showZero onlyReal : bool) (h : Heap)
    (transactions : list Transaction) (vs : list Posting) :
  pointsTo h (concat (Transaction.Postings <$> transactions)) vs ->
  Forall (fun v => is_Some (Posting.Amount v)) vs ->
  exists s a,
    main_balance_mode showZero onlyReal h transactions = Ret (s, a) /\
    forall es, es ≡ₚ map_to_list a ->
    exists total,
      Accounts.Balance s es = Ret total /\
      (decimal.toQ total == sumQ (amounts (counted onlyReal vs)))%Q.
Proof.
  intros Hp Hset. unfold main_balance_mode. rewrite main_balance_mode_loop_concat.
  destruct (main_balance_mode_postings_sums showZero onlyReal h _ _ Hp Hset
              [] Accounts.NewAccounts namedAccounts_empty)
    as (s & a & Hr & Hwf & _ & Ht).
  exists s, a. split; [exact Hr|].
  intros es Hes. unfold Accounts.Balance.
  destruct (Balance_loop_toQ s es.*2 decimal.Zero) as (r & Hr' & Hq).
  { apply Forall_fmap, Forall_forall. intros [k l] Hin. simpl.
    rewrite Hes in Hin. apply elem_of_map_to_list in Hin.
    destruct (Hwf _ _ Hin) as (acc & -> & _). eauto. }
  exists r. split; [exact Hr'|].
  rewrite Hq, Zero_toQ, (balancesQ_perm s es.*2 (map_to_list a).*2)
    by (apply fmap_Permutation, Hes).
  rewrite Ht. unfold Accounts.NewAccounts. rewrite map_to_list_empty. simpl. ring.
Qed.

Lemma balance_mode_total_witness :
  exists s a,
    main_balance_mode false false unbalanced_heap [unbalanced] = Ret (s, a) /\
    forall es, es ≡ₚ map_to_list a ->
    exists total,
      Accounts.Balance s es = Ret total /\
      (decimal.toQ total == sumQ (amounts (counted false unbalanced_heap)))%Q.
Proof.
  apply (balance_mode_total false false unbalanced_heap [unbalanced] unbalanced_heap).
  - repeat constructor.
  - repeat constructor; eexists; reflexivity.
Defined.

(** X30. A posting without an amount makes the balance report panic,
    whatever the flags: the loop of the mode [balance] reads the amount of
    every posting before it decides to skip it, so one posting whose amount
    is still elided (as under [no_balance]) ends the report with a nil
    dereference, also when it is virtual and [only_real] is set. *)
Theorem balance_mode_unset_panics (showZero onlyReal : bool) (h : Heap)
    (transactions : list Transaction) (vs : list Posting) :
  pointsTo h (concat (Transaction.Postings <$> transactions)) vs ->
  Exists (fun v => Posting.Amount v = None) vs ->
  main_balance_mode showZero onlyReal h transactions = Panic nilDeref.
Proof.
  intros Hp Hex. unfold main_balance_mode. rewrite main_balance_mode_loop_concat.
  eapply main_balance_mode_postings_unset; eauto.
Qed.

Lemma balance_mode_unset_panics_witness :
  main_balance_mode false true budget_heap [budget] = Panic nilDeref.
Proof.
  apply (balance_mode_unset_panics false true budget_heap [budget] budget_heap).
  - repeat constructor.
  - apply Exists_cons_tl, Exists_cons_tl, Exists_cons_hd. reflexivity.
Defined.
